(** * Quantitative analytics engine: a shallow embedding and its properties

    The development follows [backend/services/analyzer.py] (classes
    [PerformanceAnalyzer], [TechnicalAnalyzer], [CorrelationAnalyzer],
    [RiskAnalyzer]) and the computations of
    [backend/api/routes/portfolio.py]: rebalancing, portfolio metrics and
    historical portfolio values.

    Numbers.  Python floats and [Decimal]s are embedded as exact rationals
    [Q]: every arithmetic operation is the mathematical one, and rounding is
    idealised away.  What floats add on top of that is kept where the code
    depends on it: a Python-level division by zero raises
    [ZeroDivisionError], a pandas/numpy division by zero yields an infinity
    or a NaN (type [fl] below).  Standard deviations are real numbers, the
    square roots of rational variances.  Module [Binary64] re-runs on IEEE-754
    binary64 numbers the computations in which the rounding itself decides
    the outcome: the VaR/CVaR pair, and the variance with the two tests for
    a zero variance built on it (the guard of [calculate_beta], a
    volatility of 0). *)

From Stdlib Require Import String.
From Stdlib Require Import List Arith Lia Bool.
From Stdlib Require Import Reals Qreals.
From Stdlib Require Import ZArith QArith Qabs Qround Qpower Psatz.
From Stdlib Require Import Floats.
Import ListNotations.

Set Implicit Arguments.

(** ** Python results: a value or a raised exception *)

Module Py.

Inductive exn : Type :=
| ZeroDivisionError
| IndexError
| ValueError.

Inductive result (A : Type) : Type :=
| Ok (a : A)
| Raise (e : exn).

Arguments Ok {A} a.
Arguments Raise {A} e.

Definition bind {A B : Type} (c : result A) (k : A -> result B) : result B :=
  match c with
  | Ok a => k a
  | Raise e => Raise e
  end.

(** [for x in xs: s = body x s] *)
Fixpoint for_in {A S : Type} (xs : list A) (body : A -> S -> result S) (s : S)
  : result S :=
  match xs with
  | [] => Ok s
  | x :: xs' => bind (body x s) (for_in xs' body)
  end.

(** [range(a, b)] *)
Definition range (a b : nat) : list nat := seq a (b - a).

(** [l[i]] for a non-negative index; out of range raises [IndexError]. *)
Definition getitem {A : Type} (l : list A) (i : nat) : result A :=
  match nth_error l i with
  | Some x => Ok x
  | None => Raise IndexError
  end.

(** [l[-1]] *)
Definition getlast {A : Type} (l : list A) : result A :=
  match rev l with
  | x :: _ => Ok x
  | [] => Raise IndexError
  end.

(** [a / b] on Python floats: a zero divisor raises. *)
Definition truediv (a b : Q) : result Q :=
  if Qeq_bool b 0 then Raise ZeroDivisionError else Ok (a / b).

(** [a > b] and [a < b] as tests. *)
Definition Qgtb (a b : Q) : bool := negb (Qle_bool a b).
Definition Qltb (a b : Q) : bool := negb (Qle_bool b a).

(** A [dict] with string keys: an association list with one entry per key,
    in insertion order. *)
Definition dict (V : Type) : Type := list (string * V).

Fixpoint dict_get {V : Type} (d : dict V) (k : string) : option V :=
  match d with
  | [] => None
  | (k', v) :: t => if String.eqb k k' then Some v else dict_get t k
  end.

(** [d[k] = v] *)
Fixpoint dict_set {V : Type} (d : dict V) (k : string) (v : V) : dict V :=
  match d with
  | [] => [(k, v)]
  | (k', v') :: t =>
      if String.eqb k k' then (k, v) :: t else (k', v') :: dict_set t k v
  end.

Definition keys {V : Type} (d : dict V) : list string := map fst d.

(** [d.get(k, default)] *)
Definition get_default {V : Type} (d : dict V) (k : string) (default : V) : V :=
  match dict_get d k with
  | Some v => v
  | None => default
  end.

End Py.

Import Py.

Notation "x <- c ;; k" := (Py.bind c (fun x => k))
  (at level 61, c at next level, right associativity).

Local Open Scope Q_scope.

(** ** pandas/numpy floats: finite values, the two infinities and NaN

    Arithmetic follows IEEE-754 for the special values and is exact on the
    finite ones.  Zero carries no sign: a positive value divided by zero is
    plus infinity, where IEEE-754 gives minus infinity for a negative
    zero. *)

Module Fl.

Inductive fl : Type :=
| Fin (q : Q)
| PInf
| NInf
| NaN.

Definition fneg (a : fl) : fl :=
  match a with
  | Fin q => Fin (- q)
  | PInf => NInf
  | NInf => PInf
  | NaN => NaN
  end.

Definition fadd (a b : fl) : fl :=
  match a, b with
  | NaN, _ | _, NaN => NaN
  | Fin x, Fin y => Fin (x + y)
  | PInf, NInf | NInf, PInf => NaN
  | PInf, _ | _, PInf => PInf
  | NInf, _ | _, NInf => NInf
  end.

Definition fsub (a b : fl) : fl := fadd a (fneg b).

Definition fdiv (a b : fl) : fl :=
  match a, b with
  | NaN, _ | _, NaN => NaN
  | Fin x, Fin y =>
      if Qeq_bool y 0 then
        if Qltb 0 x then PInf else if Qltb x 0 then NInf else NaN
      else Fin (x / y)
  | Fin _, _ => Fin 0
  | _, Fin y => if Qltb y 0 then fneg a else a
  | _, _ => NaN
  end.

(** [a > b] and [a < b]: false as soon as one side is NaN. *)
Definition fgt (a b : fl) : bool :=
  match a, b with
  | NaN, _ | _, NaN => false
  | Fin x, Fin y => Qltb y x
  | PInf, PInf | NInf, _ => false
  | PInf, _ => true
  | Fin _, NInf => true
  | Fin _, PInf => false
  end.

Definition flt (a b : fl) : bool := fgt b a.

Definition isnan (a : fl) : bool :=
  match a with NaN => true | _ => false end.

End Fl.

Import Fl.

(** ** The numpy functions the analyzers call

    Each is written out from numpy's definition of the function, in exact
    arithmetic. *)

Module Np.

Definition Qnat (n : nat) : Q := inject_Z (Z.of_nat n).

Definition Qsum (x : list Q) : Q := fold_right Qplus 0 x.

(** [np.mean(x)] *)
Definition np_mean (x : list Q) : Q := Qsum x / Qnat (length x).

(** [np.var(x, ddof=1)]: the mean is subtracted, the squares are summed and
    the sum is divided by [N - ddof].  In exact arithmetic the result is 0
    on every list of equal numbers.  On binary64 numbers the mean of equal
    numbers can differ from them in the last place, and the variance is
    then a tiny positive number: [Binary64.np_var_ddof1] is the same
    computation on floats, and what is proved below of a zero variance is
    proved of this exact one only. *)
Definition np_var_ddof1 (x : list Q) : Q :=
  let m := np_mean x in
  Qsum (map (fun v => (v - m) * (v - m)) x) / Qnat (length x - 1).

(** [np.cov(x, y)[0, 1]]: the two rows are centred on their means, the
    off-diagonal entry of [X . X^T] is the dot product of the two centred
    rows, and it is divided by [N - 1]. *)
Definition centre (x : list Q) : list Q :=
  let m := np_mean x in map (fun v => v - m) x.

Definition dot (x y : list Q) : Q :=
  Qsum (map (fun p => fst p * snd p) (combine x y)).

Definition np_cov (x y : list Q) : Q :=
  dot (centre x) (centre y) / Qnat (length x - 1).

(** Sorting, for [np.percentile]. *)
Fixpoint insert (v : Q) (l : list Q) : list Q :=
  match l with
  | [] => [v]
  | h :: t => if Qle_bool v h then v :: l else h :: insert v t
  end.

Definition sort (l : list Q) : list Q := fold_right insert [] l.

(** [arr[i]] for a signed index: [-1] is the last entry. *)
Definition getitem_int {A : Type} (l : list A) (i : Z) : result A :=
  if (i <? 0)%Z then
    if (Z.of_nat (length l) <? - i)%Z then Raise IndexError
    else getitem l (length l - Z.to_nat (- i))
  else getitem l (Z.to_nat i).

(** numpy's [_lerp(a, b, t)] *)
Definition lerp (a b t : Q) : Q :=
  let diff_b_a := b - a in
  if Qle_bool (1 # 2) t then b - diff_b_a * (1 - t)
  else a + diff_b_a * t.

(** [np.percentile(a, q)] with the default linear method, for a
    one-dimensional [a].  [q] outside [0, 100] raises [ValueError].  The
    virtual index is [(n - 1) * q / 100]; the two neighbouring entries of
    the sorted data are interpolated; at or beyond the last position both
    neighbours are the last entry.  [calculate_var] guards [len < 2], so
    the empty input, which indexes out of range, is never reached. *)
Definition np_percentile (a : list Q) (q : Q) : result Q :=
  if Qltb q 0 || Qgtb q 100 then Raise ValueError
  else
    let arr := sort a in
    let values_count := length arr in
    let virtual_index := Qnat (values_count - 1) * (q / 100) in
    let above := Qle_bool (Qnat (values_count - 1)) virtual_index in
    let previous_index := if above then (-1)%Z else Qfloor virtual_index in
    let next_index := if above then (-1)%Z else (Qfloor virtual_index + 1)%Z in
    previous <- getitem_int arr previous_index ;;
    next <- getitem_int arr next_index ;;
    let gamma := virtual_index - inject_Z previous_index in
    Ok (lerp previous next gamma).

End Np.

Import Np.

(** ** [PerformanceAnalyzer] *)

Module PerformanceAnalyzer.

(** [calculate_returns], analyzer.py lines 21-34. *)
Definition calculate_returns (prices : list Q) : result (list Q) :=
  if (length prices <? 2)%nat then Ok []
  else
    for_in (range 1 (length prices))
      (fun i returns =>
         prev <- getitem prices (i - 1) ;;
         if negb (Qeq_bool prev 0) then
           cur <- getitem prices i ;;
           ret <- truediv (cur - prev) prev ;;
           Ok (returns ++ [ret])
         else
           Ok (returns ++ [0]))
      [].

(** The period-over-period change of one pair of consecutive prices, with
    the zero-return convention for a zero prior price. *)
Definition simple_return (prev cur : Q) : Q :=
  if Qeq_bool prev 0 then 0 else (cur - prev) / prev.

(** The return series read off the price list two entries at a time. *)
Fixpoint simple_returns (prices : list Q) : list Q :=
  match prices with
  | prev :: ((cur :: _) as rest) => simple_return prev cur :: simple_returns rest
  | _ => []
  end.

(** [calculate_log_returns], analyzer.py lines 36-41.  [np.log] is a
    parameter: it returns a float for every float (minus infinity at 0, NaN
    below 0) and never raises. *)
Section LogReturns.
Variable F : Type.
Variable np_log : Q -> F.

Definition calculate_log_returns (prices : list Q) : result (list F) :=
  if (length prices <? 2)%nat then Ok []
  else
    for_in (range 1 (length prices))
      (fun i out =>
         prev <- getitem prices (i - 1) ;;
         if Qgtb prev 0 then
           cur <- getitem prices i ;;
           ratio <- truediv cur prev ;;
           Ok (out ++ [np_log ratio])
         else
           Ok out)
      [].

End LogReturns.

(** The indices of [range(1, len(P))] whose prior price is positive. *)
Definition positive_prior (P : list Q) : list nat :=
  filter (fun i => Qgtb (nth (i - 1) P 0) 0) (seq 1 (length P - 1)).

(** [calculate_total_return], analyzer.py lines 43-48. *)
Definition calculate_total_return (prices : list Q) : result Q :=
  if (length prices <? 2)%nat then Ok 0
  else
    first <- getitem prices 0 ;;
    if Qeq_bool first 0 then Ok 0
    else
      final <- getlast prices ;;
      change <- truediv (final - first) first ;;
      Ok (change * 100).

(** [calculate_max_drawdown], analyzer.py lines 100-116.  The loop state is
    the pair [(peak, max_dd)]; [drawdown_step] is the loop body. *)
Definition drawdown_step (price : Q) (st : Q * Q) : result (Q * Q) :=
  let peak := if Qgtb price (fst st) then price else fst st in
  drawdown <- truediv (peak - price) peak ;;
  let max_dd := if Qgtb drawdown (snd st) then drawdown else snd st in
  Ok (peak, max_dd).

Definition calculate_max_drawdown (prices : list Q) : result Q :=
  if (length prices <? 2)%nat then Ok 0
  else
    first <- getitem prices 0 ;;
    st <- for_in (skipn 1 prices) drawdown_step (first, 0) ;;
    Ok (snd st * 100).

(** [calculate_var], analyzer.py lines 131-136. *)
Definition calculate_var (returns : list Q) (confidence_level : Q) : result Q :=
  if (length returns <? 2)%nat then Ok 0
  else
    p <- np_percentile returns ((1 - confidence_level) * 100) ;;
    Ok (p * 100).

(** [tail_returns = [r for r in returns if r <= var]] *)
Definition tail_returns (returns : list Q) (var : Q) : list Q :=
  filter (fun r => Qle_bool r var) returns.

(** [calculate_cvar], analyzer.py lines 138-149. *)
Definition calculate_cvar (returns : list Q) (confidence_level : Q) : result Q :=
  if (length returns <? 2)%nat then Ok 0
  else
    v <- calculate_var returns confidence_level ;;
    let var := v / 100 in
    match tail_returns returns var with
    | [] => Ok 0
    | tail => Ok (np_mean tail * 100)
    end.

(** The compounded growth factor of a return series: the product of
    [1 + r] over its entries. *)
Definition compound (returns : list Q) : Q :=
  fold_right (fun r acc => (1 + r) * acc) 1 returns.

(** A price series in which no price is below the one before. *)
Fixpoint never_falls (prices : list Q) : Prop :=
  match prices with
  | a :: ((b :: _) as rest) => a <= b /\ never_falls rest
  | _ => True
  end.

(** [calculate_annualized_return], analyzer.py lines 50-56.
    [periods_per_year] is a count of periods. *)
Definition calculate_annualized_return (returns : list Q) (periods_per_year : nat) : Q :=
  match returns with
  | [] => 0
  | _ =>
      let avg_return := np_mean returns in
      (1 + avg_return) ^ Z.of_nat periods_per_year - 1
  end.

(** [calculate_calmar_ratio], analyzer.py lines 118-129. *)
Definition calculate_calmar_ratio (returns prices : list Q) : result Q :=
  if (length returns <? 2)%nat || (length prices <? 2)%nat then Ok 0
  else
    let annual_return := calculate_annualized_return returns 252 in
    max_dd <- calculate_max_drawdown prices ;;
    if Qeq_bool max_dd 0 then Ok 0
    else Ok (annual_return / (max_dd / 100)).

(** [np.std(x, ddof=1)], a real number: the square root of the sample
    variance. *)
Definition np_std_ddof1 (x : list Q) : R := R_sqrt.sqrt (Q2R (np_var_ddof1 x)).

(** [calculate_volatility], analyzer.py lines 58-68. *)
Definition calculate_volatility (returns : list Q) (annualized : bool) : R :=
  if (length returns <? 2)%nat then 0%R
  else
    let vol := np_std_ddof1 returns in
    let vol := if annualized then (vol * R_sqrt.sqrt 252)%R else vol in
    (vol * 100)%R.

(** [calculate_sharpe_ratio], analyzer.py lines 83-98. *)
Definition risk_free_rate : Q := 2 # 100.

Definition calculate_sharpe_ratio (returns : list Q) : R :=
  if (length returns <? 2)%nat then 0%R
  else
    let avg_return := np_mean returns in
    let vol := np_std_ddof1 returns in
    if Req_dec_T vol 0 then 0%R
    else
      let annual_avg_return := (1 + avg_return) ^ 252 - 1 in
      let annual_vol := (vol * R_sqrt.sqrt 252)%R in
      ((Q2R annual_avg_return - Q2R risk_free_rate) / annual_vol)%R.

(** [identify_volatility_regime], analyzer.py lines 191-204.
    [returns[-20:]] is the list without its first [len - 20] entries. *)
Definition identify_volatility_regime (returns : list Q) : string :=
  if (length returns <? 30)%nat then "insufficient_data"
  else
    let recent_vol := calculate_volatility (skipn (length returns - 20) returns) true in
    let overall_vol := calculate_volatility returns true in
    if Rgt_dec recent_vol (overall_vol * (15 / 10)) then "high_volatility"
    else if Rlt_dec recent_vol (overall_vol * (7 / 10)) then "low_volatility"
         else "normal_volatility".

(** [assess_market_regime], analyzer.py lines 206-226.  An analysis is
    read through [analysis.get("volatility_regime", "normal_volatility")]
    only, so it is given as that entry when it is there. *)
Definition regime_of (analysis : option string) : string :=
  match analysis with
  | Some regime => regime
  | None => "normal_volatility"
  end.

(** The counting loop over the regimes. *)
Definition count_regimes (regimes : list string) : dict nat :=
  fold_left (fun counts regime => dict_set counts regime (get_default counts regime 0%nat + 1)%nat)
            regimes [].

(** [max(regime_counts, key=regime_counts.get)]: the first key with the
    largest count. *)
Definition max_by_count (counts : dict nat) : option (string * nat) :=
  match counts with
  | [] => None
  | first :: rest =>
      Some (fold_left (fun best kv => if (snd best <? snd kv)%nat then kv else best)
                      rest first)
  end.

Record market_regime : Type := {
  regime : string;
  regime_confidence : Q;
  regime_distribution : option (dict nat)
}.

Definition assess_market_regime (volatility_results : dict (option string))
  : market_regime :=
  match volatility_results with
  | [] => {| regime := "unknown"; regime_confidence := 0; regime_distribution := None |}
  | _ =>
      let regimes := map (fun kv => regime_of (snd kv)) volatility_results in
      let regime_counts := count_regimes regimes in
      match max_by_count regime_counts with
      | Some (dominant_regime, _) =>
          {| regime := dominant_regime;
             regime_confidence :=
               Qnat (get_default regime_counts dominant_regime 0%nat)
               / Qnat (length regimes);
             regime_distribution := Some regime_counts |}
      | None =>
          {| regime := "unknown"; regime_confidence := 0; regime_distribution := None |}
      end
  end.

End PerformanceAnalyzer.

(** ** [TechnicalAnalyzer]

    The analyzer is built on the OHLCV frame; [calculate_rsi] reads its
    [close] column only, which is the argument here. *)

Module TechnicalAnalyzer.

(** [close.diff()]: NaN in the first row, then the differences. *)
Definition diff (close : list Q) : list fl :=
  match close with
  | [] => []
  | _ :: rest => NaN :: map (fun p => Fin (snd p - fst p)) (combine close rest)
  end.

(** [s.where(cond, 0)] for the two conditions of [calculate_rsi]. *)
Definition where_positive (s : list fl) : list fl :=
  map (fun d => if fgt d (Fin 0) then d else Fin 0) s.

Definition where_negative (s : list fl) : list fl :=
  map (fun d => if flt d (Fin 0) then d else Fin 0) s.

(** The mean of one full window: NaN unless every entry is a number. *)
Fixpoint finite_sum (w : list fl) : option Q :=
  match w with
  | [] => Some 0
  | Fin q :: t => option_map (Qplus q) (finite_sum t)
  | _ :: _ => None
  end.

Definition window_mean (w : list fl) : fl :=
  match finite_sum w with
  | Some total => Fin (total / Qnat (length w))
  | None => NaN
  end.

(** [s.rolling(window=period).mean()]: row [i] is NaN until [period] rows
    are available, then the mean of rows [i - period + 1 .. i]. *)
Definition rolling_mean (period : nat) (s : list fl) : list fl :=
  map (fun i =>
         if (period =? 0)%nat || (i + 1 <? period)%nat then NaN
         else window_mean (firstn period (skipn (i + 1 - period) s)))
      (seq 0 (length s)).

Definition gain (close : list Q) : list fl := where_positive (diff close).
Definition loss (close : list Q) : list fl := map fneg (where_negative (diff close)).

Definition avg_gain (close : list Q) (period : nat) : list fl :=
  rolling_mean period (gain close).
Definition avg_loss (close : list Q) (period : nat) : list fl :=
  rolling_mean period (loss close).

(** [100 - (100 / (1 + rs))] *)
Definition rsi_of_rs (rs : fl) : fl :=
  fsub (Fin 100) (fdiv (Fin 100) (fadd (Fin 1) rs)).

(** A positive number and a zero, as entries of a series. *)
Definition positive (x : fl) : Prop := exists d, x = Fin d /\ 0 < d.
Definition zero (x : fl) : Prop := exists d, x = Fin d /\ d == 0.

(** A close series in which every close is above the one before. *)
Fixpoint strictly_increasing (close : list Q) : Prop :=
  match close with
  | a :: ((b :: _) as rest) => a < b /\ strictly_increasing rest
  | _ => True
  end.

Record rsi_result : Type := {
  values : list fl;
  current_value : fl;
  signal : string;
  overbought_level : Q;
  oversold_level : Q
}.

(** [calculate_rsi], analyzer.py lines 266-294. *)
Definition calculate_rsi (close : list Q) (period : nat) : rsi_result :=
  let rs := map (fun p => fdiv (fst p) (snd p))
                (combine (avg_gain close period) (avg_loss close period)) in
  let rsi := map rsi_of_rs rs in
  let current_rsi :=
    match rsi with
    | [] => Fin 50
    | _ => last rsi NaN
    end in
  let signal :=
    if fgt current_rsi (Fin 70) then "overbought"%string
    else if flt current_rsi (Fin 30) then "oversold"%string
    else "neutral"%string in
  {| values := rsi;
     current_value := current_rsi;
     signal := signal;
     overbought_level := 70;
     oversold_level := 30 |}.

(** An entry of the RSI series: no number yet, or a number from 0 to 100. *)
Definition within_0_100 (x : fl) : Prop :=
  x = NaN \/ exists d, x = Fin d /\ 0 <= d /\ d <= 100.

Definition non_negative (x : fl) : Prop := exists d, x = Fin d /\ 0 <= d.

(** [calculate_sma], analyzer.py lines 240-251.  The window is a [nat]:
    pandas refuses a negative one.  [close.iloc[-1]] raises [IndexError] on
    an empty frame, so the [None] that stands for the current value of an
    empty series is never compared. *)
Record sma_result : Type := {
  sma_values : list fl;
  sma_current : fl;
  sma_signal : string;
  sma_period : nat
}.

Definition calculate_sma (close : list Q) (period : nat) : result sma_result :=
  let sma := rolling_mean period (map Fin close) in
  let current_sma := last sma NaN in
  current_price <- getlast close ;;
  Ok {| sma_values := sma;
        sma_current := current_sma;
        sma_signal := if fgt (Fin current_price) current_sma
                      then "bullish"%string else "bearish"%string;
        sma_period := period |}.

(** [s.ewm(span=span).mean()] with pandas' defaults ([adjust=True], no
    minimum number of periods), on a series without missing values.  A span
    below 1 is refused with [ValueError].  The loop is the one of pandas'
    [ewm] aggregation: the running weight of the past is multiplied by
    [1 - alpha] and the new observation enters with weight 1. *)
Fixpoint ewm_loop (old_wt_factor weighted old_wt : Q) (vals : list Q) : list Q :=
  match vals with
  | [] => []
  | cur :: rest =>
      let old_wt := old_wt * old_wt_factor in
      let weighted := (old_wt * weighted + cur) / (old_wt + 1) in
      weighted :: ewm_loop old_wt_factor weighted (old_wt + 1) rest
  end.

Definition ewm_mean (span : nat) (vals : list Q) : result (list Q) :=
  if (span <? 1)%nat then Raise ValueError
  else
    let alpha := 2 / (Qnat span + 1) in
    match vals with
    | [] => Ok []
    | first :: rest => Ok (first :: ewm_loop (1 - alpha) first 1 rest)
    end.

(** [calculate_ema], analyzer.py lines 253-264. *)
Record ema_result : Type := {
  ema_values : list Q;
  ema_current : Q;
  ema_signal : string;
  ema_period : nat
}.

Definition calculate_ema (close : list Q) (period : nat) : result ema_result :=
  ema <- ewm_mean period close ;;
  let current_ema := last ema 0 in
  current_price <- getlast close ;;
  Ok {| ema_values := ema;
        ema_current := current_ema;
        ema_signal := if Qgtb current_price current_ema
                      then "bullish"%string else "bearish"%string;
        ema_period := period |}.

(** [calculate_macd], analyzer.py lines 296-325. *)
Record macd_result : Type := {
  macd_line : list Q;
  signal_line : list Q;
  histogram : list Q;
  current_macd : Q;
  current_signal : Q;
  current_histogram : Q;
  macd_signal : string
}.

Definition series_sub (a b : list Q) : list Q :=
  map (fun p => fst p - snd p) (combine a b).

Definition calculate_macd (close : list Q) (fast slow signal : nat)
  : result macd_result :=
  ema_fast <- ewm_mean fast close ;;
  ema_slow <- ewm_mean slow close ;;
  let macd_line := series_sub ema_fast ema_slow in
  signal_line <- ewm_mean signal macd_line ;;
  let histogram := series_sub macd_line signal_line in
  let current_macd := last macd_line 0 in
  let current_signal := last signal_line 0 in
  let current_histogram := last histogram 0 in
  let macd_signal :=
    if Qgtb current_macd current_signal && Qgtb current_histogram 0
    then "bullish"%string
    else if Qltb current_macd current_signal && Qltb current_histogram 0
         then "bearish"%string
         else "neutral"%string in
  Ok {| macd_line := macd_line;
        signal_line := signal_line;
        histogram := histogram;
        current_macd := current_macd;
        current_signal := current_signal;
        current_histogram := current_histogram;
        macd_signal := macd_signal |}.

(** [close.rolling(window=period).std()]: the sample standard deviation of
    each full window, a real number; [None] stands for NaN, which is what a
    window that is not full yet or holds a single close gives. *)
Definition rolling_std (period : nat) (close : list Q) : list (option R) :=
  map (fun i =>
         if (period <? 2)%nat || (i + 1 <? period)%nat then None
         else Some (R_sqrt.sqrt
                      (Q2R (np_var_ddof1 (firstn period (skipn (i + 1 - period) close))))))
      (seq 0 (length close)).

(** [sma + std * std_dev] and [sma - std * std_dev], row by row. *)
Definition upper_of (std_dev : Z) (sma : list fl) (std : list (option R))
  : list (option R) :=
  map (fun p => match p with
                | (Fin m, Some s) => Some (Q2R m + s * IZR std_dev)%R
                | _ => None
                end)
      (combine sma std).

Definition lower_of (std_dev : Z) (sma : list fl) (std : list (option R))
  : list (option R) :=
  map (fun p => match p with
                | (Fin m, Some s) => Some (Q2R m - s * IZR std_dev)%R
                | _ => None
                end)
      (combine sma std).

(** [x > b] and [x < b] against a band value: false on NaN. *)
Definition above (x : R) (b : option R) : bool :=
  match b with
  | Some u => if Rgt_dec x u then true else false
  | None => false
  end.

Definition below (x : R) (b : option R) : bool :=
  match b with
  | Some l => if Rlt_dec x l then true else false
  | None => false
  end.

(** [calculate_bollinger_bands], analyzer.py lines 327-357.  As in
    [calculate_sma], [close.iloc[-1]] raises on an empty frame, so the
    three series have a last row whenever the function goes on. *)
Record bollinger_result : Type := {
  upper_band : list (option R);
  middle_band : list fl;
  lower_band : list (option R);
  current_upper : option R;
  current_middle : fl;
  current_lower : option R;
  bollinger_signal : string;
  bandwidth : option R
}.

Definition calculate_bollinger_bands (close : list Q) (period : nat) (std_dev : Z)
  : result bollinger_result :=
  let sma := rolling_mean period (map Fin close) in
  let std := rolling_std period close in
  let upper_band := upper_of std_dev sma std in
  let lower_band := lower_of std_dev sma std in
  current_price <- getlast close ;;
  let current_upper := last upper_band None in
  let current_lower := last lower_band None in
  let current_sma := last sma NaN in
  let bb_signal :=
    if above (Q2R current_price) current_upper then "overbought"%string
    else if below (Q2R current_price) current_lower then "oversold"%string
    else "neutral"%string in
  Ok {| upper_band := upper_band;
        middle_band := sma;
        lower_band := lower_band;
        current_upper := current_upper;
        current_middle := current_sma;
        current_lower := current_lower;
        bollinger_signal := bb_signal;
        bandwidth :=
          match current_sma with
          | Fin m =>
              if Qeq_bool m 0 then Some 0%R
              else match current_upper, current_lower with
                   | Some u, Some l => Some ((u - l) / Q2R m * 100)%R
                   | _, _ => None
                   end
          | _ => None
          end |}.

(** [generate_signals], analyzer.py lines 392-419; every indicator is
    computed with its default parameters. *)
Definition count_signal (verdict : string) (signals : dict string) : nat :=
  length (filter (String.eqb verdict) (map snd signals)).

Definition generate_signals (close : list Q) (indicators : list string)
  : result (dict string) :=
  signals <-
    for_in indicators
      (fun indicator signals =>
         if String.eqb indicator "sma" then
           r <- calculate_sma close 20 ;;
           Ok (dict_set signals "sma" (sma_signal r))
         else if String.eqb indicator "ema" then
           r <- calculate_ema close 20 ;;
           Ok (dict_set signals "ema" (ema_signal r))
         else if String.eqb indicator "rsi" then
           Ok (dict_set signals "rsi" (signal (calculate_rsi close 14)))
         else if String.eqb indicator "macd" then
           r <- calculate_macd close 12 26 9 ;;
           Ok (dict_set signals "macd" (macd_signal r))
         else if String.eqb indicator "bollinger" then
           r <- calculate_bollinger_bands close 20 2 ;;
           Ok (dict_set signals "bollinger" (bollinger_signal r))
         else Ok signals)
      [] ;;
  let bullish_count := count_signal "bullish" signals in
  let bearish_count := count_signal "bearish" signals in
  Ok (dict_set signals "overall"
        (if (bearish_count <? bullish_count)%nat then "bullish"%string
         else if (bullish_count <? bearish_count)%nat then "bearish"%string
         else "neutral"%string)).

End TechnicalAnalyzer.

(** ** [CorrelationAnalyzer]

    A pandas frame is a list of named columns of equal length.  A
    correlation coefficient is a real number (the square root leaves the
    rationals) or NaN. *)

Module CorrelationAnalyzer.

Definition frame : Type := dict (list fl).

(** [pd.DataFrame(price_data)]: columns of different lengths raise
    [ValueError]. *)
Definition DataFrame (price_data : dict (list Q)) : result frame :=
  match price_data with
  | [] => Ok []
  | (_, first) :: _ =>
      if forallb (fun kv => (length (snd kv) =? length first)%nat) price_data
      then Ok (map (fun kv => (fst kv, map Fin (snd kv))) price_data)
      else Raise ValueError
  end.

(** [df.pct_change()]: each column divided by itself shifted one row down,
    minus 1; the first row is NaN. *)
Definition pct_change_column (c : list fl) : list fl :=
  match c with
  | [] => []
  | _ :: rest =>
      NaN :: map (fun p => fsub (fdiv (snd p) (fst p)) (Fin 1)) (combine c rest)
  end.

Definition pct_change (df : frame) : frame :=
  map (fun kv => (fst kv, pct_change_column (snd kv))) df.

Definition nrows (df : frame) : nat :=
  match df with
  | [] => 0
  | (_, c) :: _ => length c
  end.

(** [df.dropna()]: the rows with a NaN in some column are removed (an
    infinity is not a missing value). *)
Definition row_complete (df : frame) (i : nat) : bool :=
  forallb (fun kv => negb (isnan (nth i (snd kv) NaN))) df.

Definition dropna (df : frame) : frame :=
  let kept := filter (row_complete df) (seq 0 (nrows df)) in
  map (fun kv => (fst kv, map (fun i => nth i (snd kv) NaN) kept)) df.

(** [df.empty] *)
Definition empty (df : frame) : bool :=
  match df with
  | [] => true
  | (_, c) :: _ => (length c =? 0)%nat
  end.

(** The observations of a pair of columns: the rows where both are finite
    ([corr] masks the others out pair by pair). *)
Definition finite_pairs (x y : list fl) : list (Q * Q) :=
  flat_map (fun p =>
              match p with
              | (Fin a, Fin b) => [(a, b)]
              | _ => []
              end)
           (combine x y).

(** Sums of squared deviations and of co-deviations from the means. *)
Definition sq_dev (xs : list Q) : Q :=
  Qsum (map (fun v => (v - np_mean xs) * (v - np_mean xs)) xs).

Definition co_dev (xs ys : list Q) : Q :=
  Qsum (map (fun p => (fst p - np_mean xs) * (snd p - np_mean ys)) (combine xs ys)).

Inductive coefficient : Type :=
| CorrNaN
| Corr (r : R).

(** One entry of [df.corr()] (Pearson, [min_periods=1]): the co-deviation
    over the square root of the product of the two squared deviations, NaN
    when that divisor is 0.  The divisor is 0 exactly when the product
    under the root is, which is the test made here. *)
Definition pearson (x y : list fl) : coefficient :=
  let obs := finite_pairs x y in
  let xs := map fst obs in
  let ys := map snd obs in
  if Qeq_bool (sq_dev xs * sq_dev ys) 0 then CorrNaN
  else Corr (Q2R (co_dev xs ys) / R_sqrt.sqrt (Q2R (sq_dev xs * sq_dev ys)))%R.

Definition corr (df : frame) : dict (dict coefficient) :=
  map (fun c1 => (fst c1, map (fun c2 => (fst c2, pearson (snd c1) (snd c2))) df)) df.

Record strong_correlation : Type := {
  asset1 : string;
  asset2 : string;
  correlation : R;
  strength : string
}.

(** [abs(corr_value) > bound]; a NaN never passes. *)
Definition strong_entry (a1 a2 : string) (c : coefficient) : list strong_correlation :=
  match c with
  | CorrNaN => []
  | Corr r =>
      if Rgt_dec (Rabs r) (7 / 10) then
        [ {| asset1 := a1; asset2 := a2; correlation := r;
             strength := if Rgt_dec (Rabs r) (8 / 10) then "strong"
                         else "moderate" |} ]
      else []
  end.

Definition strong_correlations (m : dict (dict coefficient)) : list strong_correlation :=
  flat_map (fun row =>
              flat_map (fun cell =>
                          if String.eqb (fst row) (fst cell) then []
                          else strong_entry (fst row) (fst cell) (snd cell))
                       (snd row))
           m.

(** The entries above the diagonal, row by row, and their mean. *)
Fixpoint upper_triangle (m : list (list coefficient)) (k : nat) : list coefficient :=
  match m with
  | [] => []
  | row :: rest => skipn (S k) row ++ upper_triangle rest (S k)
  end.

Fixpoint coefficient_sum (l : list coefficient) : option R :=
  match l with
  | [] => Some 0%R
  | Corr r :: t => option_map (Rplus r) (coefficient_sum t)
  | CorrNaN :: _ => None
  end.

Definition average_correlation (m : dict (dict coefficient)) : coefficient :=
  let upper := upper_triangle (map (fun row => map snd (snd row)) m) 0 in
  match coefficient_sum upper with
  | Some total => Corr (total / INR (length upper))%R
  | None => CorrNaN
  end.

(** The returned dict; its fourth entry, the time of the call, is left
    out. *)
Record report : Type := {
  correlation_matrix : dict (dict coefficient);
  strong : list strong_correlation;
  average : coefficient
}.

Inductive output : Type :=
| EmptyDict
| Report (r : report).

(** [calculate_correlation_matrix], analyzer.py lines 494-537. *)
Definition calculate_correlation_matrix (price_data : dict (list Q)) : result output :=
  if (length price_data <? 2)%nat then Ok EmptyDict
  else
    df <- DataFrame price_data ;;
    let returns_df := dropna (pct_change df) in
    if empty returns_df then Ok EmptyDict
    else
      let m := corr returns_df in
      Ok (Report {| correlation_matrix := m;
                    strong := strong_correlations m;
                    average := average_correlation m |}).

(** Sums over a list of pairs [(u, v)]: of [u * u], of [v * v] and of
    [u * v]. *)
Definition sum_uu (l : list (Q * Q)) : Q := Qsum (map (fun p => fst p * fst p) l).
Definition sum_vv (l : list (Q * Q)) : Q := Qsum (map (fun p => snd p * snd p) l).
Definition sum_uv (l : list (Q * Q)) : Q := Qsum (map (fun p => fst p * snd p) l).

(** The observations of a pair of columns, centred on the two means. *)
Definition centred (obs : list (Q * Q)) : list (Q * Q) :=
  map (fun p => (fst p - np_mean (map fst obs), snd p - np_mean (map snd obs))) obs.

(** The finite entries of a column. *)
Definition observed (x : list fl) : list Q := map fst (finite_pairs x x).

(** [correlation_matrix[a][b]] *)
Definition entry (r : report) (a b : string) : option coefficient :=
  match dict_get (correlation_matrix r) a with
  | Some row => dict_get row b
  | None => None
  end.

End CorrelationAnalyzer.

(** ** Portfolio rebalancing

    The computation inside [rebalance_portfolio], portfolio.py lines
    181-254.  [Decimal]s are rationals.  [current_prices] is
    what [get_multiple_prices] returned for the symbols of the positions: a
    dict from symbol to price that leaves out the symbols whose quote could
    not be fetched. *)

Module Portfolio.

Record PortfolioPosition : Type := {
  symbol : string;
  quantity : Q;
  avg_cost : Q
}.

(** The validators of the request models. *)
Definition position_valid (p : PortfolioPosition) : bool :=
  Qltb 0 (quantity p) && Qltb 0 (avg_cost p).

Definition allocations_sum_to_100 (target_allocations : dict Q) : bool :=
  let total := Qsum (map snd target_allocations) in
  Qle_bool 99 total && Qle_bool total 101.

Record trade : Type := {
  trade_symbol : string;
  action : string;
  trade_quantity : Q;
  trade_value : Q;
  current_allocation : Q;
  target_allocation : Q;
  price : Q
}.

Record rebalancing_summary : Type := {
  current_allocations : dict Q;
  target_allocations : dict Q;
  required_trades : list trade;
  total_portfolio_value : Q;
  total_trades_value : Q;
  turnover_rate : Q;
  number_of_trades : nat
}.

Section Rebalance.
Variable positions : list PortfolioPosition.
Variable current_prices : dict Q.
Variable targets : dict Q.

(** The first loop: the value of every position, at the current price when
    there is one and at the average cost otherwise, and the running total. *)
Definition valuation : dict Q * Q :=
  fold_left
    (fun st position =>
       let value :=
         match dict_get current_prices (symbol position) with
         | Some current_price => quantity position * current_price
         | None => quantity position * avg_cost position
         end in
       (dict_set (fst st) (symbol position) value, snd st + value))
    positions ([], 0).

Definition current_values : dict Q := fst valuation.
Definition total_value : Q := snd valuation.

Definition allocations : dict Q :=
  map (fun kv =>
         (fst kv, if Qltb 0 total_value then snd kv / total_value * 100 else 0))
      current_values.

Definition target_values : dict Q :=
  map (fun kv => (fst kv, total_value * (snd kv / 100))) targets.

(** [set(list(current_values.keys()) + list(target_values.keys()))] *)
Definition all_symbols : list string :=
  nodup string_dec (keys current_values ++ keys target_values).

Definition difference (s : string) : Q :=
  get_default target_values s 0 - get_default current_values s 0.

(** The dead band: 1% of the total portfolio value. *)
Definition threshold : Q := total_value * (1 # 100).

(** The body of the trade loop for one symbol: the trades it appends. *)
Definition trades_for (s : string) : list trade :=
  if Qgtb (Qabs (difference s)) threshold then
    match dict_get current_prices s with
    | Some current_price =>
        if negb (Qeq_bool current_price 0) && Qgtb current_price 0 then
          let quantity_change := difference s / current_price in
          [ {| trade_symbol := s;
               action := if Qgtb (difference s) 0 then "buy" else "sell";
               trade_quantity := Qabs quantity_change;
               trade_value := Qabs (difference s);
               current_allocation := get_default allocations s 0;
               target_allocation := get_default targets s 0;
               price := current_price |} ]
        else []
    | None => []
    end
  else [].

Definition rebalancing_trades : list trade := flat_map trades_for all_symbols.

Definition rebalance_portfolio : rebalancing_summary :=
  let total_trades := Qsum (map trade_value rebalancing_trades) in
  {| current_allocations := allocations;
     target_allocations := targets;
     required_trades := rebalancing_trades;
     total_portfolio_value := total_value;
     total_trades_value := total_trades;
     turnover_rate :=
       if Qltb 0 total_value then total_trades / total_value * 100 else 0;
     number_of_trades := length rebalancing_trades |}.

End Rebalance.

(** The value the first loop gives one position. *)
Definition position_value (current_prices : dict Q) (position : PortfolioPosition) : Q :=
  match dict_get current_prices (symbol position) with
  | Some current_price => quantity position * current_price
  | None => quantity position * avg_cost position
  end.

(** [min(...)] over a generator: [ValueError] when it yields nothing. *)
Definition py_min (l : list nat) : result nat :=
  match l with
  | [] => Raise ValueError
  | x :: t => Ok (fold_left Nat.min t x)
  end.

(** [sum(...)]: the additions start from 0 and go left to right. *)
Definition py_sum (l : list Q) : Q := fold_left Qplus l 0.

(** [calculate_portfolio_returns], portfolio.py lines 491-523.  The history
    of a symbol is the list of its closes. *)
Section PortfolioReturns.
Variable positions : list PortfolioPosition.
Variable historical_data : dict (list Q).

Definition history_lengths : list nat :=
  flat_map (fun pos =>
              match dict_get historical_data (symbol pos) with
              | Some data => [length data]
              | None => []
              end)
           positions.

Definition total_initial_value : Q :=
  py_sum (map (fun pos => quantity pos * avg_cost pos) positions).

Definition weights : dict Q :=
  if Qgtb total_initial_value 0 then
    fold_left (fun w pos =>
                 dict_set w (symbol pos)
                          (quantity pos * avg_cost pos / total_initial_value))
              positions []
  else [].

(** The inner loop: the portfolio value at time point [i]. *)
Definition portfolio_value_at (i : nat) : result Q :=
  for_in positions
         (fun position portfolio_value =>
            match dict_get historical_data (symbol position) with
            | Some data =>
                price <- getitem data i ;;
                Ok (portfolio_value + get_default weights (symbol position) 0 * price)
            | None => Ok portfolio_value
            end)
         0.

Definition calculate_portfolio_returns : result (list Q) :=
  min_length <- py_min history_lengths ;;
  if (min_length =? 0)%nat then Ok []
  else
    for_in (range 0 min_length)
           (fun i portfolio_values =>
              portfolio_value <- portfolio_value_at i ;;
              Ok (portfolio_values ++ [portfolio_value]))
           [].

End PortfolioReturns.

(** [max(d, key=d.get)] together with [max(d.values())]: the first entry
    with the largest value. *)
Definition max_by_value (d : dict Q) : option (string * Q) :=
  match d with
  | [] => None
  | first :: rest =>
      Some (fold_left (fun best kv => if Qltb (snd best) (snd kv) then kv else best)
                      rest first)
  end.

(** [calculate_portfolio_metrics], portfolio.py lines 353-451, called
    without benchmark data (the default), so that the benchmark comparison
    is the empty dict and is left out.  The value loop and the allocations
    are those of the rebalancing computation. *)
Record portfolio_performance : Type := {
  total_return : Q;
  annualized_return : Q;
  volatility : R;
  sharpe_ratio : R;
  max_drawdown : Q
}.

Record portfolio_statistics : Type := {
  number_of_positions : nat;
  largest_position : option string;
  largest_allocation : Q;
  concentration_risk : nat
}.

Record portfolio_metrics : Type := {
  portfolio_value : Q;
  total_cost : Q;
  unrealized_pnl : Q;
  unrealized_pnl_percent : Q;
  metrics_allocations : dict Q;
  position_values : dict Q;
  performance : option portfolio_performance;
  statistics : portfolio_statistics
}.

Section PortfolioMetrics.
Variable positions : list PortfolioPosition.
Variable current_prices : dict Q.
Variable historical_data : dict (list Q).

(** The performance block.  [calculate_returns] is called once for each of
    the three entries that use it; it has no effect, so one call stands for
    the three. *)
Definition portfolio_performance_of : result (option portfolio_performance) :=
  match historical_data with
  | [] => Ok None
  | _ =>
      portfolio_returns <- calculate_portfolio_returns positions historical_data ;;
      match portfolio_returns with
      | [] => Ok None
      | _ =>
          total <- PerformanceAnalyzer.calculate_total_return portfolio_returns ;;
          returns <- PerformanceAnalyzer.calculate_returns portfolio_returns ;;
          max_dd <- PerformanceAnalyzer.calculate_max_drawdown portfolio_returns ;;
          Ok (Some {| total_return := total;
                      annualized_return :=
                        PerformanceAnalyzer.calculate_annualized_return returns 252;
                      volatility := PerformanceAnalyzer.calculate_volatility returns true;
                      sharpe_ratio := PerformanceAnalyzer.calculate_sharpe_ratio returns;
                      max_drawdown := max_dd |})
      end
  end.

Definition calculate_portfolio_metrics : result portfolio_metrics :=
  let total_value := total_value positions current_prices in
  let position_values := current_values positions current_prices in
  let allocations := allocations positions current_prices in
  let total_cost := py_sum (map (fun pos => quantity pos * avg_cost pos) positions) in
  let unrealized_pnl := total_value - total_cost in
  let unrealized_pnl_percent :=
    if Qgtb total_cost 0 then unrealized_pnl / total_cost * 100 else 0 in
  portfolio_performance <- portfolio_performance_of ;;
  Ok {| portfolio_value := total_value;
        total_cost := total_cost;
        unrealized_pnl := unrealized_pnl;
        unrealized_pnl_percent := unrealized_pnl_percent;
        metrics_allocations := allocations;
        position_values := position_values;
        performance := portfolio_performance;
        statistics :=
          {| number_of_positions := length positions;
             largest_position := option_map fst (max_by_value allocations);
             largest_allocation :=
               match max_by_value allocations with
               | Some best => snd best
               | None => 0
               end;
             concentration_risk :=
               length (filter (fun kv => Qgtb (snd kv) 20) allocations) |} |}.

End PortfolioMetrics.

End Portfolio.

(** ** VaR and CVaR on binary64 numbers

    The same two methods with Python's own numbers: every operation below
    is the IEEE-754 binary64 one, rounded to nearest even, as CPython and
    numpy perform it.  [np.mean] is summed left to right (numpy sums long
    arrays pairwise, which can differ in the last bits). *)

Module Binary64.

Local Open Scope float_scope.

Fixpoint of_nat (n : nat) : float :=
  match n with
  | O => 0
  | S k => of_nat k + 1
  end.

(** [np.floor(v)] as an index, for [0 <= v] below [bound]: the largest
    [k <= bound] with [k <= v]. *)
Fixpoint floor_index (v : float) (bound : nat) : nat :=
  match bound with
  | O => O
  | S k => if PrimFloat.leb (of_nat bound) v then bound else floor_index v k
  end.

Fixpoint insert (v : float) (l : list float) : list float :=
  match l with
  | [] => [v]
  | h :: t => if PrimFloat.leb v h then v :: l else h :: insert v t
  end.

Definition sort (l : list float) : list float := fold_right insert [] l.

Definition lerp (a b t : float) : float :=
  let diff_b_a := b - a in
  if PrimFloat.leb 0.5 t then b - diff_b_a * (1 - t)
  else a + diff_b_a * t.

Definition np_percentile (a : list float) (q : float) : result float :=
  let quantile := q / 100 in
  if negb (PrimFloat.leb 0 quantile && PrimFloat.leb quantile 1) then Raise ValueError
  else
    let arr := sort a in
    let values_count := length arr in
    let virtual_index := of_nat (values_count - 1) * quantile in
    if PrimFloat.leb (of_nat (values_count - 1)) virtual_index then
      previous <- getlast arr ;;
      Ok (lerp previous previous (virtual_index - (-1)))
    else
      let previous_index := floor_index virtual_index (values_count - 1) in
      previous <- getitem arr previous_index ;;
      next <- getitem arr (previous_index + 1) ;;
      Ok (lerp previous next (virtual_index - of_nat previous_index)).

Definition np_mean (x : list float) : float :=
  fold_left PrimFloat.add x 0 / of_nat (length x).

Definition calculate_var (returns : list float) (confidence_level : float)
  : result float :=
  if (length returns <? 2)%nat then Ok 0
  else
    p <- np_percentile returns ((1 - confidence_level) * 100) ;;
    Ok (p * 100).

Definition tail_returns (returns : list float) (var : float) : list float :=
  filter (fun r => PrimFloat.leb r var) returns.

Definition calculate_cvar (returns : list float) (confidence_level : float)
  : result float :=
  if (length returns <? 2)%nat then Ok 0
  else
    v <- calculate_var returns confidence_level ;;
    let var := v / 100 in
    match tail_returns returns var with
    | [] => Ok 0
    | tail => Ok (np_mean tail * 100)
    end.

(** The binary64 numbers nearest to 0.0007 and to 0.95. *)
Definition r_0_0007 : float := 0x1.6f0068db8bac7p-11.
Definition c_0_95 : float := 0x1.e666666666666p-1.

(** [np.var(x, ddof=1)] as numpy computes it: the sum over the count, the
    deviations from that mean, their squares, the sum of the squares over
    [N - 1].  The sums run left to right, which gives numpy's result on the
    short arrays evaluated below (numpy adds long arrays in blocks). *)
Definition np_sum (x : list float) : float := fold_left PrimFloat.add x 0.

Definition np_var_ddof1 (x : list float) : float :=
  let arrmean := np_sum x / of_nat (length x) in
  let dev := map (fun v => v - arrmean) x in
  np_sum (map (fun d => d * d) dev) / of_nat (length x - 1).

(** [np.cov(x, y)[0, 1]]: both rows are centred on their means, the dot
    product of the centred rows is taken and multiplied by
    [1 / (N - 1)]. *)
Definition np_cov (x y : list float) : float :=
  let centre r := let avg := np_sum r / of_nat (length r) in
                  map (fun v => v - avg) r in
  np_sum (map (fun p => fst p * snd p) (combine (centre x) (centre y)))
  * (1 / of_nat (length x - 1)).

(** [calculate_beta], analyzer.py lines 631-647, on floats. *)
Definition calculate_beta (asset_returns market_returns : list float) : float :=
  if negb (length asset_returns =? length market_returns)%nat
     || (length asset_returns <? 2)%nat
  then 1
  else
    let covariance := np_cov asset_returns market_returns in
    let market_variance := np_var_ddof1 market_returns in
    if PrimFloat.eqb market_variance 0 then 1
    else covariance / market_variance.

(** [calculate_volatility], analyzer.py lines 58-68, on floats;
    [np.std(x, ddof=1)] is the square root of the variance. *)
Definition calculate_volatility (returns : list float) (annualized : bool) : float :=
  if (length returns <? 2)%nat then 0
  else
    let vol := PrimFloat.sqrt (np_var_ddof1 returns) in
    let vol := if annualized then vol * PrimFloat.sqrt 252 else vol in
    vol * 100.

(** The binary64 numbers nearest to 0.1 and to 0.2. *)
Definition r_0_1 : float := 0x1.999999999999ap-4.

End Binary64.

(** ** [RiskAnalyzer] *)

Module RiskAnalyzer.

(** [calculate_beta], analyzer.py lines 631-647. *)
Definition calculate_beta (asset_returns market_returns : list Q) : Q :=
  if negb (length asset_returns =? length market_returns)%nat
     || (length asset_returns <? 2)%nat
  then 1
  else
    let covariance := np_cov asset_returns market_returns in
    let market_variance := np_var_ddof1 market_returns in
    if Qeq_bool market_variance 0 then 1
    else covariance / market_variance.



(** [np.var(x)] and [np.std(x)] with numpy's default [ddof=0]: the sum of
    squared deviations is divided by [N]. *)
Definition np_var (x : list Q) : Q :=
  let m := np_mean x in
  Qsum (map (fun v => (v - m) * (v - m)) x) / Qnat (length x).

Definition np_std (x : list Q) : R := R_sqrt.sqrt (Q2R (np_var x)).

(** [min(l)] for a list: [ValueError] when it is empty, else the first of
    the smallest entries. *)
Definition min_of (l : list Q) : result Q :=
  match l with
  | [] => Raise ValueError
  | x :: t => Ok (fold_left (fun m v => if Qltb v m then v else m) t x)
  end.

(** [assess_risk_profile], analyzer.py lines 649-681. *)
Record risk_factors : Type := {
  volatility_risk : string;
  tail_risk : string;
  extreme_loss_risk : string
}.

Record risk_profile : Type := {
  risk_level : string;
  volatility : R;
  var_95 : Q;
  maximum_loss : Q;
  risk_score : R;
  factors : risk_factors
}.

Inductive risk_assessment : Type :=
| InsufficientData
| Profile (p : risk_profile).

Definition assess_risk_profile (returns : list Q) : result risk_assessment :=
  if (length returns <? 10)%nat then Ok InsufficientData
  else
    let volatility := (np_std returns * R_sqrt.sqrt 252 * 100)%R in
    percentile <- np_percentile returns 5 ;;
    let var_95 := percentile * 100 in
    smallest <- min_of returns ;;
    let max_loss := smallest * 100 in
    let risk_level :=
      if Rgt_dec volatility 50 then "very_high"%string
      else if Rgt_dec volatility 30 then "high"%string
      else if Rgt_dec volatility 15 then "medium"%string
      else if Rgt_dec volatility 8 then "low"%string
      else "very_low"%string in
    Ok (Profile
          {| risk_level := risk_level;
             volatility := volatility;
             var_95 := var_95;
             maximum_loss := max_loss;
             risk_score := Rmin (volatility / 10) 10;
             factors :=
               {| volatility_risk :=
                    if Rgt_dec volatility 30 then "high"%string
                    else if Rgt_dec volatility 15 then "moderate"%string
                    else "low"%string;
                  tail_risk :=
                    if Qltb var_95 (-5) then "high"%string
                    else if Qltb var_95 (-2) then "moderate"%string
                    else "low"%string;
                  extreme_loss_risk :=
                    if Qltb max_loss (-20) then "high"%string
                    else if Qltb max_loss (-10) then "moderate"%string
                    else "low"%string |} |}).

End RiskAnalyzer.

(** ** Facts about the Python layer *)

Lemma Qgtb_lt (a b : Q) : Py.Qgtb a b = true <-> b < a.
Proof.
  unfold Py.Qgtb. rewrite negb_true_iff.
  split; intro H.
  - apply Qnot_le_lt. intro Hle. apply Qle_bool_iff in Hle. congruence.
  - destruct (Qle_bool a b) eqn:E; [|reflexivity].
    apply Qle_bool_iff in E. exfalso. apply (Qlt_not_le _ _ H E).
Qed.

Lemma Qgtb_le (a b : Q) : Py.Qgtb a b = false <-> a <= b.
Proof.
  unfold Py.Qgtb. rewrite negb_false_iff. apply Qle_bool_iff.
Qed.

Lemma Qltb_lt (a b : Q) : Py.Qltb a b = true <-> a < b.
Proof. apply Qgtb_lt. Qed.

Lemma Qltb_le (a b : Q) : Py.Qltb a b = false <-> b <= a.
Proof. apply Qgtb_le. Qed.

Lemma Qeq_bool_false_iff (a b : Q) : Qeq_bool a b = false <-> ~ a == b.
Proof.
  split; intro H.
  - intro E. apply Qeq_bool_iff in E. congruence.
  - destruct (Qeq_bool a b) eqn:E; [|reflexivity].
    apply Qeq_bool_iff in E. contradiction.
Qed.

Lemma nth_error_skipn_cons {A : Type} (l : list A) (i : nat) (x : A) :
  nth_error l i = Some x -> skipn i l = x :: skipn (S i) l.
Proof.
  revert i. induction l as [|y l IH]; intros [|i] H; simpl in *; try discriminate.
  - injection H as ->. reflexivity.
  - apply IH in H. rewrite H. reflexivity.
Qed.

Lemma skipn_cons_nth_error {A : Type} (l : list A) (i : nat) (x : A) (t : list A) :
  skipn i l = x :: t -> nth_error l i = Some x /\ t = skipn (S i) l.
Proof.
  revert i. induction l as [|y l IH]; intros [|i] H; simpl in *; try discriminate.
  - injection H as -> ->. split; reflexivity.
  - apply IH in H. exact H.
Qed.

Lemma getitem_Ok {A : Type} (l : list A) (i : nat) :
  (i < length l)%nat -> exists x, nth_error l i = Some x /\ getitem l i = Ok x.
Proof.
  intro H. unfold getitem.
  destruct (nth_error l i) as [x|] eqn:E.
  - exists x. split; reflexivity.
  - apply nth_error_None in E. lia.
Qed.

(** ** Simple returns *)

Section Returns.
Import PerformanceAnalyzer.

Lemma simple_returns_length (P : list Q) :
  length (simple_returns P) = (length P - 1)%nat.
Proof.
  induction P as [|a [|b t] IH]; try reflexivity.
  change (simple_returns (a :: b :: t))
    with (simple_return a b :: simple_returns (b :: t)).
  simpl length in *. rewrite IH. lia.
Qed.

Lemma simple_returns_nth (P : list Q) (i : nat) :
  (1 <= i < length P)%nat ->
  nth (i - 1) (simple_returns P) 0
  = simple_return (nth (i - 1) P 0) (nth i P 0).
Proof.
  revert i. induction P as [|a [|b t] IH]; intros i Hi; simpl length in Hi; try lia.
  change (simple_returns (a :: b :: t))
    with (simple_return a b :: simple_returns (b :: t)).
  destruct i as [|[|i]]; try lia.
  - reflexivity.
  - specialize (IH (S i)). simpl length in IH.
    replace (S (S i) - 1)%nat with (S i) by lia.
    replace (S i - 1)%nat with i in IH by lia.
    change (nth (S i) (simple_return a b :: simple_returns (b :: t)) 0)
      with (nth i (simple_returns (b :: t)) 0).
    rewrite IH by lia. reflexivity.
Qed.

(** The loop of [calculate_returns], started at index [k] with the returns
    collected so far, appends the returns of the remaining price pairs. *)
Lemma returns_loop (P : list Q) (m k : nat) (acc : list Q) :
  (1 <= k)%nat -> (k + m = length P)%nat ->
  for_in (seq k m)
    (fun i returns =>
       prev <- getitem P (i - 1) ;;
       if negb (Qeq_bool prev 0) then
         cur <- getitem P i ;;
         ret <- truediv (cur - prev) prev ;;
         Ok (returns ++ [ret])
       else
         Ok (returns ++ [0]))
    acc
  = Ok (acc ++ simple_returns (skipn (k - 1) P)).
Proof.
  revert k acc. induction m as [|m IH]; intros k acc Hk Hlen.
  - simpl.
    destruct (skipn (k - 1) P) as [|a [|b t]] eqn:E.
    + rewrite app_nil_r. reflexivity.
    + rewrite app_nil_r. reflexivity.
    + apply skipn_cons_nth_error in E. destruct E as [_ E].
      replace (S (k - 1)) with k in E by lia.
      assert (L : (length (skipn k P) = 0)%nat) by (rewrite length_skipn; lia).
      rewrite <- E in L. discriminate.
  - simpl for_in.
    destruct (@getitem_Ok Q P (k - 1)) as [a [Ea Ga]]; [lia|].
    destruct (@getitem_Ok Q P k) as [b [Eb Gb]]; [lia|].
    rewrite Ga. simpl bind.
    apply nth_error_skipn_cons in Ea. apply nth_error_skipn_cons in Eb.
    replace (S (k - 1)) with k in Ea by lia.
    rewrite Ea, Eb.
    change (simple_returns (a :: b :: skipn (S k) P))
      with (simple_return a b :: simple_returns (b :: skipn (S k) P)).
    rewrite <- Eb.
    unfold simple_return.
    destruct (Qeq_bool a 0) eqn:Ez; simpl negb; cbv iota.
    + simpl bind. rewrite (IH (S k)) by lia.
      replace (S k - 1)%nat with k by lia.
      rewrite <- app_assoc. reflexivity.
    + rewrite Gb. simpl bind. unfold truediv. rewrite Ez. simpl bind.
      rewrite (IH (S k)) by lia.
      replace (S k - 1)%nat with k by lia.
      rewrite <- app_assoc. reflexivity.
Qed.

Lemma calculate_returns_simple (P : list Q) :
  calculate_returns P = Ok (simple_returns P).
Proof.
  unfold calculate_returns.
  destruct (length P <? 2)%nat eqn:E.
  - apply Nat.ltb_lt in E. destruct P as [|a [|b t]]; simpl in E; try lia; reflexivity.
  - apply Nat.ltb_ge in E. unfold range.
    rewrite returns_loop by lia. reflexivity.
Qed.

End Returns.

(** C1: for a price list with at least two entries [calculate_returns]
    returns (without raising) a list of [len(P) - 1] entries whose entry for
    index [i] in [1, len(P)) is [(P_i - P_{i-1}) / P_{i-1}] when
    [P_{i-1} != 0] and [0] when [P_{i-1} == 0]; for a shorter list it
    returns the empty list. *)
Theorem calculate_returns_entries (P : list Q) :
  ((2 <= length P)%nat ->
   exists R,
     PerformanceAnalyzer.calculate_returns P = Ok R /\
     length R = (length P - 1)%nat /\
     forall i, (1 <= i < length P)%nat ->
       (~ nth (i - 1) P 0 == 0 ->
        nth (i - 1) R 0 = (nth i P 0 - nth (i - 1) P 0) / nth (i - 1) P 0) /\
       (nth (i - 1) P 0 == 0 -> nth (i - 1) R 0 = 0)) /\
  ((length P < 2)%nat -> PerformanceAnalyzer.calculate_returns P = Ok []).
Proof.
  split.
  - intros _. exists (PerformanceAnalyzer.simple_returns P).
    split; [apply calculate_returns_simple|].
    split; [apply simple_returns_length|].
    intros i Hi. rewrite simple_returns_nth by exact Hi.
    unfold PerformanceAnalyzer.simple_return.
    split; intro H.
    + apply Qeq_bool_false_iff in H. rewrite H. reflexivity.
    + apply Qeq_bool_iff in H. rewrite H. reflexivity.
  - intro H. rewrite calculate_returns_simple.
    destruct P as [|a [|b t]]; simpl in H; try lia; reflexivity.
Qed.

Lemma calculate_returns_entries_witness :
  exists R,
    PerformanceAnalyzer.calculate_returns [100; 110; 121] = Ok R /\
    length R = 2%nat /\
    nth 0 R 0 = (110 - 100) / 100 /\ nth 1 R 0 = (121 - 110) / 110.
Proof.
  destruct (calculate_returns_entries [100; 110; 121]) as [H _].
  destruct (H ltac:(simpl; lia)) as [R [HR [HL HE]]].
  exists R. split; [exact HR|]. split; [exact HL|].
  split.
  - apply (HE 1%nat ltac:(simpl; lia)). simpl. discriminate.
  - apply (HE 2%nat ltac:(simpl; lia)). simpl. discriminate.
Defined.

(** ** Total return *)

Lemma getlast_last {A : Type} (l : list A) (d : A) :
  l <> [] -> getlast l = Ok (last l d).
Proof.
  intro H. unfold getlast.
  destruct (exists_last H) as [l' [x ->]].
  rewrite rev_app_distr, last_last. reflexivity.
Qed.

Lemma compound_simple_returns (a : Q) (t : list Q) :
  Forall (fun p => ~ p == 0) (a :: t) ->
  PerformanceAnalyzer.compound (PerformanceAnalyzer.simple_returns (a :: t)) * a
  == last (a :: t) 0.
Proof.
  revert a. induction t as [|b t IH]; intros a H.
  - simpl. ring.
  - inversion H as [|? ? Ha Ht]; subst.
    change (PerformanceAnalyzer.simple_returns (a :: b :: t))
      with (PerformanceAnalyzer.simple_return a b
            :: PerformanceAnalyzer.simple_returns (b :: t)).
    change (last (a :: b :: t) 0) with (last (b :: t) 0).
    rewrite <- (IH b Ht).
    change (PerformanceAnalyzer.compound
              (PerformanceAnalyzer.simple_return a b
               :: PerformanceAnalyzer.simple_returns (b :: t)))
      with ((1 + PerformanceAnalyzer.simple_return a b)
            * PerformanceAnalyzer.compound
                (PerformanceAnalyzer.simple_returns (b :: t))).
    set (c := PerformanceAnalyzer.compound
                (PerformanceAnalyzer.simple_returns (b :: t))).
    unfold PerformanceAnalyzer.simple_return.
    apply Qeq_bool_false_iff in Ha. rewrite Ha.
    apply Qeq_bool_false_iff in Ha.
    field. exact Ha.
Qed.

(** C2: for a price list with at least two entries and no zero price, the
    total return is the compounded product of [1 + r] over the returns of
    the list, minus 1, times 100 (exactly, in rational arithmetic). *)
Theorem total_return_compounds_returns (P : list Q) :
  (2 <= length P)%nat ->
  Forall (fun p => ~ p == 0) P ->
  exists R T,
    PerformanceAnalyzer.calculate_returns P = Ok R /\
    PerformanceAnalyzer.calculate_total_return P = Ok T /\
    T == (PerformanceAnalyzer.compound R - 1) * 100.
Proof.
  intros Hlen Hnz.
  destruct P as [|a t]; [simpl in Hlen; lia|].
  exists (PerformanceAnalyzer.simple_returns (a :: t)).
  exists ((last (a :: t) 0 - a) / a * 100).
  split; [apply calculate_returns_simple|].
  pose proof (Forall_inv Hnz) as Ha. simpl in Ha.
  split.
  - unfold PerformanceAnalyzer.calculate_total_return.
    destruct (length (a :: t) <? 2)%nat eqn:E; [apply Nat.ltb_lt in E; lia|].
    simpl getitem. simpl bind.
    apply Qeq_bool_false_iff in Ha. rewrite Ha.
    rewrite (getlast_last 0) by discriminate.
    simpl bind. unfold truediv. rewrite Ha. reflexivity.
  - rewrite <- (compound_simple_returns Hnz). field. exact Ha.
Qed.

Lemma total_return_compounds_returns_witness :
  exists R T,
    PerformanceAnalyzer.calculate_returns [100; 110; 121] = Ok R /\
    PerformanceAnalyzer.calculate_total_return [100; 110; 121] = Ok T /\
    T == (PerformanceAnalyzer.compound R - 1) * 100.
Proof.
  apply (@total_return_compounds_returns [100; 110; 121]).
  - simpl. lia.
  - repeat constructor; discriminate.
Defined.

Example total_return_scenario_1 :
  exists T, PerformanceAnalyzer.calculate_total_return [100; 110; 121] = Ok T /\ T == 21.
Proof. eexists. split; [reflexivity|reflexivity]. Qed.

(** ** Logarithmic returns *)

Section LogReturnsFacts.
Variable F : Type.
Variable np_log : Q -> F.

Lemma log_returns_loop (P : list Q) (m k : nat) (acc : list F) :
  (1 <= k)%nat -> (k + m <= length P)%nat ->
  for_in (seq k m)
    (fun i out =>
       prev <- getitem P (i - 1) ;;
       if Qgtb prev 0 then
         cur <- getitem P i ;;
         ratio <- truediv cur prev ;;
         Ok (out ++ [np_log ratio])
       else
         Ok out)
    acc
  = Ok (acc ++ map (fun i => np_log (nth i P 0 / nth (i - 1) P 0))
                 (filter (fun i => Qgtb (nth (i - 1) P 0) 0) (seq k m))).
Proof.
  revert k acc. induction m as [|m IH]; intros k acc Hk Hlen.
  - simpl. rewrite app_nil_r. reflexivity.
  - simpl for_in. simpl seq. simpl filter.
    destruct (@getitem_Ok Q P (k - 1)) as [a [Ea Ga]]; [lia|].
    destruct (@getitem_Ok Q P k) as [b [Eb Gb]]; [lia|].
    rewrite Ga. simpl bind.
    rewrite (nth_error_nth P (k - 1) 0 Ea).
    destruct (Qgtb a 0) eqn:Epos.
    + rewrite Gb. simpl bind. unfold truediv.
      assert (Hz : Qeq_bool a 0 = false).
      { apply Qeq_bool_false_iff. apply Qgtb_lt in Epos. intro Ha. lra. }
      rewrite Hz. simpl bind.
      rewrite (IH (S k)) by lia.
      simpl map. rewrite (nth_error_nth P k 0 Eb), (nth_error_nth P (k - 1) 0 Ea).
      rewrite <- app_assoc. reflexivity.
    + simpl bind. rewrite (IH (S k)) by lia. reflexivity.
Qed.

End LogReturnsFacts.

(** C6: [calculate_log_returns] returns exactly the logarithms of
    [P_i / P_{i-1}] for the indices [i] in [1, len(P)) with [P_{i-1} > 0],
    in order; the other indices contribute nothing, so the result has at
    most [len(P) - 1] entries; a list shorter than 2 gives the empty list. *)
Theorem log_returns_drop_nonpositive (F : Type) (np_log : Q -> F) (P : list Q) :
  PerformanceAnalyzer.calculate_log_returns np_log P
  = Ok (map (fun i => np_log (nth i P 0 / nth (i - 1) P 0)) (PerformanceAnalyzer.positive_prior P)) /\
  (length (PerformanceAnalyzer.positive_prior P) <= length P - 1)%nat /\
  ((length P < 2)%nat ->
   PerformanceAnalyzer.calculate_log_returns np_log P = Ok []).
Proof.
  assert (E : PerformanceAnalyzer.calculate_log_returns np_log P
              = Ok (map (fun i => np_log (nth i P 0 / nth (i - 1) P 0))
                      (PerformanceAnalyzer.positive_prior P))).
  { unfold PerformanceAnalyzer.calculate_log_returns, PerformanceAnalyzer.positive_prior.
    destruct (length P <? 2)%nat eqn:L.
    - apply Nat.ltb_lt in L.
      destruct P as [|a [|b t]]; simpl in L; try lia; reflexivity.
    - apply Nat.ltb_ge in L. unfold range.
      rewrite log_returns_loop by lia. reflexivity. }
  split; [exact E|]. split.
  - unfold PerformanceAnalyzer.positive_prior.
    pose proof (filter_length_le (fun i => Qgtb (nth (i - 1) P 0) 0)
                  (seq 1 (length P - 1))) as H.
    rewrite length_seq in H. exact H.
  - intro H. unfold PerformanceAnalyzer.calculate_log_returns.
    apply Nat.ltb_lt in H. rewrite H. reflexivity.
Qed.

(** The rational stand-in [x - 1] for the logarithm is enough to run the
    function: which entries are kept does not depend on [np.log]. *)
Lemma log_returns_drop_nonpositive_witness :
  PerformanceAnalyzer.calculate_log_returns (fun x => x - 1) [5] = Ok [].
Proof.
  apply (@log_returns_drop_nonpositive Q (fun x => x - 1) [5]).
  simpl. lia.
Defined.

(** A zero prior price removes the entry from the log returns and puts a
    zero into the simple returns. *)
Example log_returns_shorter (F : Type) (np_log : Q -> F) :
  PerformanceAnalyzer.calculate_log_returns np_log [0; 1; 2] = Ok [np_log (2 / 1)] /\
  PerformanceAnalyzer.calculate_returns [0; 1; 2] = Ok [0; (2 - 1) / 1].
Proof. split; reflexivity. Qed.

(** ** Maximum drawdown *)

Lemma drawdown_step_bounds (peak price : Q) :
  0 < peak -> 0 <= price -> price <= peak ->
  0 <= (peak - price) / peak /\ (peak - price) / peak <= 1.
Proof.
  intros Hp H0 Hle. split.
  - apply Qle_shift_div_l; [exact Hp|]. lra.
  - apply Qle_shift_div_r; [exact Hp|]. lra.
Qed.

(** Loop invariant of [calculate_max_drawdown]: on non-negative prices a
    positive peak stays positive and the running maximum stays in [0, 1]. *)
Lemma max_drawdown_loop (l : list Q) (peak dd : Q) :
  Forall (fun p => 0 <= p) l ->
  0 < peak -> 0 <= dd -> dd <= 1 ->
  exists peak' dd',
    for_in l PerformanceAnalyzer.drawdown_step (peak, dd)
    = Ok (peak', dd') /\ 0 < peak' /\ 0 <= dd' /\ dd' <= 1.
Proof.
  intro Hl. revert peak dd.
  induction Hl as [|price l Hprice Hl IH]; intros peak dd Hpeak Hdd0 Hdd1.
  - exists peak, dd. simpl. auto.
  - simpl for_in. unfold PerformanceAnalyzer.drawdown_step at 1.
    cbv zeta. simpl fst. simpl snd.
    set (pk := if Qgtb price peak then price else peak).
    assert (Hpk : 0 < pk /\ price <= pk).
    { unfold pk. destruct (Qgtb price peak) eqn:E.
      - apply Qgtb_lt in E. split; lra.
      - apply Qgtb_le in E. split; lra. }
    destruct Hpk as [Hpk Hle].
    unfold truediv.
    assert (Hz : Qeq_bool pk 0 = false)
      by (apply Qeq_bool_false_iff; intro Hpk0; lra).
    rewrite Hz. simpl bind.
    destruct (drawdown_step_bounds Hpk Hprice Hle) as [D0 D1].
    apply IH.
    + exact Hpk.
    + destruct (Qgtb ((pk - price) / pk) dd); assumption.
    + destruct (Qgtb ((pk - price) / pk) dd); assumption.
Qed.

(** C7, amended: when the first price is positive and no price is negative,
    [calculate_max_drawdown] returns a percentage between 0 and 100; for
    every list shorter than 2 it returns 0. *)
Theorem max_drawdown_bounds (P : list Q) :
  (0 < hd 0 P -> Forall (fun p => 0 <= p) P ->
   exists v,
     PerformanceAnalyzer.calculate_max_drawdown P = Ok v /\ 0 <= v /\ v <= 100) /\
  ((length P < 2)%nat -> PerformanceAnalyzer.calculate_max_drawdown P = Ok 0).
Proof.
  split.
  - intros Hfirst Hall.
    unfold PerformanceAnalyzer.calculate_max_drawdown.
    destruct (length P <? 2)%nat eqn:L.
    + exists 0. split; [reflexivity|]. split; lra.
    + destruct P as [|a t]; [discriminate L|].
      simpl getitem. simpl bind. simpl skipn. simpl in Hfirst.
      inversion Hall as [|? ? _ Ht]; subst.
      destruct (@max_drawdown_loop t a 0 Ht Hfirst) as [pk [dd [E [_ [D0 D1]]]]];
        try lra.
      rewrite E. simpl bind.
      exists (dd * 100). split; [reflexivity|]. split; lra.
  - intro H. unfold PerformanceAnalyzer.calculate_max_drawdown.
    apply Nat.ltb_lt in H. rewrite H. reflexivity.
Qed.

Lemma max_drawdown_bounds_witness :
  exists v,
    PerformanceAnalyzer.calculate_max_drawdown [100; 120; 90; 0; 130] = Ok v /\
    0 <= v /\ v <= 100.
Proof.
  apply (@max_drawdown_bounds [100; 120; 90; 0; 130]).
  - reflexivity.
  - repeat constructor; discriminate.
Defined.

(** C7 as stated fails: a negative price after a positive peak gives a
    drawdown of 200 percent. *)
Lemma max_drawdown_above_100 :
  exists v,
    PerformanceAnalyzer.calculate_max_drawdown [1; -1] = Ok v /\
    v == 200 /\ ~ v <= 100.
Proof.
  eexists. split; [reflexivity|]. split; [reflexivity|].
  intro H. vm_compute in H. apply H. reflexivity.
Qed.

(** A zero running peak makes the division raise: the guard that
    [calculate_returns] and [calculate_total_return] have is missing here. *)
Example max_drawdown_zero_peak :
  PerformanceAnalyzer.calculate_max_drawdown [0; 0] = Raise ZeroDivisionError.
Proof. reflexivity. Qed.

Example max_drawdown_full_loss :
  exists v, PerformanceAnalyzer.calculate_max_drawdown [50; 0] = Ok v /\ v == 100.
Proof. eexists. split; reflexivity. Qed.

(** ** Beta *)





Example calculate_beta_value :
  RiskAnalyzer.calculate_beta [1; 2; 3] [2; 4; 6] == 1 # 2 /\
  RiskAnalyzer.calculate_beta [1; 2; 3] [5; 5; 5] = 1 /\
  RiskAnalyzer.calculate_beta [1; 2; 3] [2; 4] = 1 /\
  RiskAnalyzer.calculate_beta [7] [3] = 1.
Proof. repeat split; reflexivity. Qed.


(** On floats the third case is decided by the variance as computed: when
    that is 0 the result is 1, whatever the asset returns are, and a
    market series of constant returns that are sums of few powers of two,
    such as 0.5, does have a computed variance of 0. *)
Lemma binary64_beta_guard (asset market : list float) :
  PrimFloat.eqb (Binary64.np_var_ddof1 market) 0 = true ->
  Binary64.calculate_beta asset market = 1%float.
Proof.
  intro H. unfold Binary64.calculate_beta. rewrite H.
  destruct (negb _ || _); reflexivity.
Qed.

Example binary64_beta_constant_halves :
  Binary64.calculate_beta [0.25; 0.5; 0.75]%float [0.5; 0.5; 0.5]%float = 1%float.
Proof. vm_compute. reflexivity. Qed.

(** ** Value at risk and its tail *)

Lemma insert_In (v x : Q) (l : list Q) : In x (insert v l) <-> x = v \/ In x l.
Proof.
  induction l as [|h t IH]; simpl.
  - intuition.
  - destruct (Qle_bool v h); simpl; rewrite ?IH; intuition.
Qed.

Lemma sort_In (x : Q) (l : list Q) : In x (sort l) <-> In x l.
Proof.
  induction l as [|h t IH]; simpl.
  - reflexivity.
  - rewrite insert_In, IH. intuition.
Qed.

Lemma insert_length (v : Q) (l : list Q) : length (insert v l) = S (length l).
Proof.
  induction l as [|h t IH]; simpl; [reflexivity|].
  destruct (Qle_bool v h); simpl; [reflexivity|]. rewrite IH. reflexivity.
Qed.

Lemma sort_length (l : list Q) : length (sort l) = length l.
Proof.
  induction l as [|h t IH]; simpl; [reflexivity|].
  rewrite insert_length, IH. reflexivity.
Qed.

Lemma getitem_In {A : Type} (l : list A) (i : nat) :
  (i < length l)%nat -> exists x, getitem l i = Ok x /\ In x l.
Proof.
  intro H. destruct (getitem_Ok l H) as [x [E G]].
  exists x. split; [exact G|]. eapply nth_error_In. exact E.
Qed.

Lemma getitem_int_In {A : Type} (l : list A) (i : Z) :
  (- Z.of_nat (length l) <= i < Z.of_nat (length l))%Z ->
  exists x, getitem_int l i = Ok x /\ In x l.
Proof.
  intro H. unfold getitem_int.
  destruct (i <? 0)%Z eqn:E.
  - apply Z.ltb_lt in E.
    destruct (Z.of_nat (length l) <? - i)%Z eqn:E2.
    + apply Z.ltb_lt in E2. lia.
    + apply getitem_In. lia.
  - apply Z.ltb_ge in E. apply getitem_In. lia.
Qed.

Lemma lerp_lower_bound (lo a b t : Q) :
  lo <= a -> lo <= b -> (0 <= t /\ t <= 1) \/ a == b ->
  lo <= lerp a b t.
Proof.
  intros Ha Hb Ht. unfold lerp. cbv zeta.
  destruct Ht as [[T0 T1]|E].
  - assert (P1 : 0 <= (b - lo) * t) by (apply Qmult_le_0_compat; lra).
    assert (P2 : 0 <= (a - lo) * (1 - t)) by (apply Qmult_le_0_compat; lra).
    destruct (Qle_bool (1 # 2) t); lra.
  - destruct (Qle_bool (1 # 2) t); rewrite E; lra.
Qed.

Lemma Qnat_nonneg (n : nat) : 0 <= Qnat n.
Proof.
  unfold Qnat. change 0 with (inject_Z 0). rewrite <- Zle_Qle. lia.
Qed.

(** The percentile of a non-empty list, for [q] in [0, 100], exists and is
    not below any lower bound of the list. *)
Lemma np_percentile_lower_bound (a : list Q) (q lo : Q) :
  a <> [] -> 0 <= q -> q <= 100 ->
  (forall x, In x a -> lo <= x) ->
  exists p, np_percentile a q = Ok p /\ lo <= p.
Proof.
  intros Hne Hq0 Hq100 Hlo.
  unfold np_percentile.
  assert (G1 : Qltb q 0 = false) by (apply Qltb_le; exact Hq0).
  assert (G2 : Qgtb q 100 = false) by (apply Qgtb_le; exact Hq100).
  rewrite G1, G2. simpl orb. cbv zeta.
  assert (Hn : (1 <= length (sort a))%nat).
  { rewrite sort_length. destruct a; [congruence|simpl; lia]. }
  set (n := length (sort a)) in *.
  set (vi := Qnat (n - 1) * (q / 100)).
  assert (Hvi : 0 <= vi).
  { unfold vi. apply Qmult_le_0_compat; [apply Qnat_nonneg|].
    apply Qle_shift_div_l; lra. }
  assert (Hsorted : forall x, In x (sort a) -> lo <= x).
  { intros x Hx. apply Hlo. apply sort_In. exact Hx. }
  destruct (Qle_bool (Qnat (n - 1)) vi) eqn:Above.
  - destruct (@getitem_int_In Q (sort a) (-1)%Z) as [x [Gx Ix]]; [fold n; lia|].
    rewrite Gx. cbn [bind].
    eexists. split; [reflexivity|].
    apply lerp_lower_bound; auto. right. reflexivity.
  - assert (Hlt : vi < Qnat (n - 1)).
    { apply Qnot_le_lt. intro H. apply Qle_bool_iff in H. congruence. }
    assert (F0 : (0 <= Qfloor vi)%Z).
    { change 0%Z with (Qfloor 0). apply Qfloor_resp_le. exact Hvi. }
    assert (F1 : (Qfloor vi < Z.of_nat (n - 1))%Z).
    { rewrite Zlt_Qlt. eapply Qle_lt_trans; [apply Qfloor_le|exact Hlt]. }
    destruct (@getitem_int_In Q (sort a) (Qfloor vi)) as [x [Gx Ix]];
      [fold n; lia|].
    destruct (@getitem_int_In Q (sort a) (Qfloor vi + 1)%Z) as [y [Gy Iy]];
      [fold n; lia|].
    rewrite Gx. cbn [bind]. rewrite Gy. cbn [bind].
    eexists. split; [reflexivity|].
    apply lerp_lower_bound; auto. left.
    pose proof (Qfloor_le vi) as L1. pose proof (Qlt_floor vi) as L2.
    rewrite inject_Z_plus in L2. change (inject_Z 1) with 1 in L2.
    split; lra.
Qed.

Lemma list_minimum (l : list Q) :
  l <> [] -> exists m, In m l /\ forall x, In x l -> m <= x.
Proof.
  induction l as [|h t IH]; intro H; [congruence|].
  destruct t as [|h' t'].
  - exists h. split; [left; reflexivity|].
    intros x [<-|[]]. lra.
  - destruct IH as [m [Im Hm]]; [discriminate|].
    destruct (Qlt_le_dec h m) as [Hlt|Hle].
    + exists h. split; [left; reflexivity|].
      intros x [<-|Hx]; [lra|]. specialize (Hm x Hx). lra.
    + exists m. split; [right; exact Im|].
      intros x [<-|Hx]; [exact Hle|]. apply Hm. exact Hx.
Qed.

(** C10, in exact arithmetic: for a return list with at least two entries
    and a confidence level in [0, 1], the tail set of [calculate_cvar]
    contains a minimum element of the list, so it is not empty and
    [calculate_cvar] returns the mean of the tail times 100. *)
Theorem cvar_tail_contains_minimum (R : list Q) (confidence : Q) :
  (2 <= length R)%nat -> 0 <= confidence -> confidence <= 1 ->
  exists v m,
    PerformanceAnalyzer.calculate_var R confidence = Ok v /\
    In m R /\ (forall r, In r R -> m <= r) /\
    In m (PerformanceAnalyzer.tail_returns R (v / 100)) /\
    PerformanceAnalyzer.calculate_cvar R confidence
    = Ok (np_mean (PerformanceAnalyzer.tail_returns R (v / 100)) * 100).
Proof.
  intros Hlen Hc0 Hc1.
  assert (Hne : R <> []) by (destruct R; [simpl in Hlen; lia|discriminate]).
  destruct (list_minimum Hne) as [m [Im Hm]].
  destruct (@np_percentile_lower_bound R ((1 - confidence) * 100) m Hne)
    as [p [Ep Hp]]; [lra|lra|exact Hm|].
  assert (L : (length R <? 2)%nat = false) by (apply Nat.ltb_ge; exact Hlen).
  assert (Ev : PerformanceAnalyzer.calculate_var R confidence = Ok (p * 100)).
  { unfold PerformanceAnalyzer.calculate_var. rewrite L, Ep. reflexivity. }
  assert (Itail : In m (PerformanceAnalyzer.tail_returns R (p * 100 / 100))).
  { unfold PerformanceAnalyzer.tail_returns. apply filter_In.
    split; [exact Im|]. apply Qle_bool_iff.
    assert (E : p * 100 / 100 == p) by field. rewrite E. exact Hp. }
  exists (p * 100), m.
  split; [exact Ev|]. split; [exact Im|]. split; [exact Hm|].
  split; [exact Itail|].
  unfold PerformanceAnalyzer.calculate_cvar. rewrite L, Ev. simpl bind. cbv zeta.
  destruct (PerformanceAnalyzer.tail_returns R (p * 100 / 100)) as [|r t] eqn:T.
  - destruct Itail.
  - reflexivity.
Qed.

Lemma cvar_tail_contains_minimum_witness :
  exists v m,
    PerformanceAnalyzer.calculate_var [3 # 100; -5 # 100; 1 # 100] (95 # 100) = Ok v /\
    In m [3 # 100; -5 # 100; 1 # 100] /\
    (forall r, In r [3 # 100; -5 # 100; 1 # 100] -> m <= r) /\
    In m (PerformanceAnalyzer.tail_returns [3 # 100; -5 # 100; 1 # 100] (v / 100)) /\
    PerformanceAnalyzer.calculate_cvar [3 # 100; -5 # 100; 1 # 100] (95 # 100)
    = Ok (np_mean (PerformanceAnalyzer.tail_returns
                     [3 # 100; -5 # 100; 1 # 100] (v / 100)) * 100).
Proof.
  apply (@cvar_tail_contains_minimum [3 # 100; -5 # 100; 1 # 100] (95 # 100)).
  - simpl. lia.
  - discriminate.
  - discriminate.
Defined.

(** On binary64 numbers the threshold is the percentile multiplied by 100
    and divided by 100 again, and that round trip can land one unit in the
    last place below the percentile. *)
Example binary64_round_trip :
  PrimFloat.ltb ((Binary64.r_0_0007 * 100) / 100) Binary64.r_0_0007 = true.
Proof. vm_compute. reflexivity. Qed.

(** C10 as stated fails on the numbers the code runs on: for the return list
    [0.0007, 0.0007] and the default confidence level 0.95 the percentile is
    the minimum 0.0007 itself, the threshold [var / 100] is below it, the
    tail is empty and [calculate_cvar] returns 0.0 through the fallback
    branch. *)
Lemma cvar_fallback_reached :
  let R := [Binary64.r_0_0007; Binary64.r_0_0007] in
  exists v,
    Binary64.np_percentile R ((1 - Binary64.c_0_95) * 100)%float
      = Ok Binary64.r_0_0007 /\
    Binary64.calculate_var R Binary64.c_0_95 = Ok v /\
    PrimFloat.ltb (v / 100) Binary64.r_0_0007 = true /\
    Binary64.tail_returns R (v / 100)%float = [] /\
    Binary64.calculate_cvar R Binary64.c_0_95 = Ok 0%float.
Proof.
  vm_compute. eexists. repeat split; reflexivity.
Qed.

(** The same happens with distinct returns when the confidence level is 1,
    where the percentile is the minimum for every interpolation rule. *)
Example cvar_distinct_returns_fallback :
  Binary64.calculate_cvar [Binary64.r_0_0007; 0.5%float] 1%float = Ok 0%float.
Proof. vm_compute. reflexivity. Qed.

(** ** Relative strength index *)

Lemma last_default {A : Type} (l : list A) (d d' : A) :
  l <> [] -> last l d = last l d'.
Proof.
  induction l as [|x [|y t] IH]; intro H; [congruence|reflexivity|].
  change (last (y :: t) d = last (y :: t) d'). apply IH. discriminate.
Qed.

Lemma last_map_ne {A B : Type} (f : A -> B) (l : list A) (d : A) (d' : B) :
  l <> [] -> last (map f l) d' = f (last l d).
Proof.
  induction l as [|x [|y t] IH]; intro H; [congruence|reflexivity|].
  change (last (map f (y :: t)) d' = f (last (y :: t) d)).
  apply IH. discriminate.
Qed.

Lemma last_combine_ne {A B : Type} (a : list A) (b : list B)
      (da : A) (db : B) (d : A * B) :
  length a = length b -> a <> [] ->
  last (combine a b) d = (last a da, last b db).
Proof.
  revert b. induction a as [|x a IH]; intros [|y b] Hlen Hne;
    try congruence; try discriminate.
  destruct a as [|x' a']; destruct b as [|y' b']; try discriminate.
  - reflexivity.
  - change (last (combine (x' :: a') (y' :: b')) d
            = (last (x' :: a') da, last (y' :: b') db)).
    apply IH; [simpl in *; lia|discriminate].
Qed.

Lemma rolling_mean_length (period : nat) (s : list fl) :
  length (TechnicalAnalyzer.rolling_mean period s) = length s.
Proof.
  unfold TechnicalAnalyzer.rolling_mean. rewrite length_map, length_seq.
  reflexivity.
Qed.

Lemma avg_gain_loss_length (close : list Q) (period : nat) :
  length (TechnicalAnalyzer.avg_gain close period)
  = length (TechnicalAnalyzer.avg_loss close period).
Proof.
  unfold TechnicalAnalyzer.avg_gain, TechnicalAnalyzer.avg_loss.
  rewrite !rolling_mean_length.
  unfold TechnicalAnalyzer.gain, TechnicalAnalyzer.loss,
    TechnicalAnalyzer.where_positive, TechnicalAnalyzer.where_negative.
  rewrite !length_map. reflexivity.
Qed.

(** The current RSI is the formula applied to the last average gain over
    the last average loss, as soon as there is a row. *)
Lemma current_rsi_last (close : list Q) (period : nat) :
  TechnicalAnalyzer.avg_loss close period <> [] ->
  TechnicalAnalyzer.current_value (TechnicalAnalyzer.calculate_rsi close period)
  = TechnicalAnalyzer.rsi_of_rs
      (fdiv (last (TechnicalAnalyzer.avg_gain close period) NaN)
            (last (TechnicalAnalyzer.avg_loss close period) NaN)).
Proof.
  intro Hne.
  pose proof (avg_gain_loss_length close period) as Hlen.
  assert (Hg : TechnicalAnalyzer.avg_gain close period <> []).
  { intro E. rewrite E in Hlen. destruct (TechnicalAnalyzer.avg_loss close period);
      [congruence|discriminate]. }
  unfold TechnicalAnalyzer.calculate_rsi. cbv zeta.
  unfold TechnicalAnalyzer.current_value.
  set (ag := TechnicalAnalyzer.avg_gain close period) in *.
  set (al := TechnicalAnalyzer.avg_loss close period) in *.
  assert (Hc : combine ag al <> []).
  { destruct ag; [congruence|]. destruct al; [congruence|]. discriminate. }
  set (rs := map (fun p => fdiv (fst p) (snd p)) (combine ag al)).
  assert (Hrs : rs <> []).
  { unfold rs. destruct (combine ag al); [congruence|discriminate]. }
  destruct (map TechnicalAnalyzer.rsi_of_rs rs) as [|r0 rt] eqn:E.
  - destruct rs; [congruence|discriminate].
  - rewrite <- E.
    rewrite (@last_map_ne _ _ TechnicalAnalyzer.rsi_of_rs rs NaN NaN Hrs).
    unfold rs.
    rewrite (@last_map_ne _ _ (fun p => fdiv (fst p) (snd p)) _ (NaN, NaN) NaN Hc).
    rewrite (@last_combine_ne _ _ ag al NaN NaN (NaN, NaN) Hlen Hg).
    reflexivity.
Qed.

Lemma signal_of_current (close : list Q) (period : nat) :
  TechnicalAnalyzer.signal (TechnicalAnalyzer.calculate_rsi close period)
  = if fgt (TechnicalAnalyzer.current_value
              (TechnicalAnalyzer.calculate_rsi close period)) (Fin 70)
    then "overbought"%string
    else if flt (TechnicalAnalyzer.current_value
                   (TechnicalAnalyzer.calculate_rsi close period)) (Fin 30)
         then "oversold"%string
         else "neutral"%string.
Proof. reflexivity. Qed.

(** C5, amended: when at the final position the rolling average loss is 0
    and the rolling average gain is positive, the current RSI is exactly
    100 and the signal is "overbought". *)
Theorem rsi_saturates_at_100 (close : list Q) (period : nat) (g z : Q) :
  last (TechnicalAnalyzer.avg_loss close period) NaN = Fin z -> z == 0 ->
  last (TechnicalAnalyzer.avg_gain close period) NaN = Fin g -> 0 < g ->
  TechnicalAnalyzer.current_value (TechnicalAnalyzer.calculate_rsi close period)
  = Fin 100 /\
  TechnicalAnalyzer.signal (TechnicalAnalyzer.calculate_rsi close period)
  = "overbought"%string.
Proof.
  intros Hl Hz Hg Hpos.
  assert (Hne : TechnicalAnalyzer.avg_loss close period <> []).
  { intro E. rewrite E in Hl. discriminate Hl. }
  assert (Hcur : TechnicalAnalyzer.current_value
                   (TechnicalAnalyzer.calculate_rsi close period) = Fin 100).
  { rewrite (@current_rsi_last close period Hne), Hl, Hg.
    unfold fdiv. apply Qeq_bool_iff in Hz. rewrite Hz.
    apply Qltb_lt in Hpos. rewrite Hpos. reflexivity. }
  split; [exact Hcur|].
  rewrite signal_of_current, Hcur. reflexivity.
Qed.

Lemma rsi_saturates_at_100_witness :
  TechnicalAnalyzer.current_value
    (TechnicalAnalyzer.calculate_rsi [10; 11; 12; 14; 15; 17] 3) = Fin 100 /\
  TechnicalAnalyzer.signal
    (TechnicalAnalyzer.calculate_rsi [10; 11; 12; 14; 15; 17] 3)
  = "overbought"%string.
Proof.
  apply (@rsi_saturates_at_100 [10; 11; 12; 14; 15; 17] 3 (5 # 3) (0 # 3)).
  - reflexivity.
  - reflexivity.
  - reflexivity.
  - reflexivity.
Defined.

(** C5 as stated fails: on a flat series the average loss at the final
    position is 0 and so is the average gain; 0/0 is NaN, the current RSI is
    NaN and the signal is "neutral". *)
Lemma rsi_flat_series_is_nan :
  (exists z, last (TechnicalAnalyzer.avg_loss (repeat 5 15) 14) NaN = Fin z /\ z == 0) /\
  TechnicalAnalyzer.current_value (TechnicalAnalyzer.calculate_rsi (repeat 5 15) 14)
  = NaN /\
  TechnicalAnalyzer.signal (TechnicalAnalyzer.calculate_rsi (repeat 5 15) 14)
  = "neutral"%string.
Proof.
  split; [|split].
  - eexists. split; [vm_compute; reflexivity|reflexivity].
  - vm_compute. reflexivity.
  - vm_compute. reflexivity.
Qed.

(** Scenario: fifteen strictly increasing closes with the default period. *)
Example rsi_increasing_series :
  let close := map (fun n => inject_Z (Z.of_nat n)) (seq 1 15) in
  TechnicalAnalyzer.current_value (TechnicalAnalyzer.calculate_rsi close 14) = Fin 100 /\
  TechnicalAnalyzer.signal (TechnicalAnalyzer.calculate_rsi close 14)
  = "overbought"%string.
Proof. split; vm_compute; reflexivity. Qed.

(** The sign of the infinity does not matter to the formula. *)
Example rsi_of_infinite_rs :
  TechnicalAnalyzer.rsi_of_rs PInf = Fin 100 /\
  TechnicalAnalyzer.rsi_of_rs NInf = Fin 100.
Proof. split; reflexivity. Qed.

Section IncreasingCloses.
Import TechnicalAnalyzer.

Lemma Forall_skipn_firstn {A : Type} (P : A -> Prop) (l : list A) (i n : nat) :
  Forall P l -> Forall P (firstn n (skipn i l)).
Proof.
  intro H.
  assert (Hs : Forall P (skipn i l)).
  { clear n. revert i. induction H as [|x l Hx Hl IH]; intros [|i];
      cbn [skipn]; auto. }
  clear H. revert n. induction Hs as [|x t Hx Ht IH]; intros [|n];
    cbn [firstn]; auto.
Qed.

Lemma diff_rest_positive (a : Q) (rest : list Q) :
  strictly_increasing (a :: rest) ->
  Forall positive (map (fun p => Fin (snd p - fst p)) (combine (a :: rest) rest)).
Proof.
  revert a. induction rest as [|b rest IH]; intros a H.
  - constructor.
  - destruct H as [Hab Hrest].
    cbn [combine map fst snd]. constructor.
    + exists (b - a). split; [reflexivity|lra].
    + apply IH. exact Hrest.
Qed.

Lemma gain_rest_positive (close : list Q) :
  strictly_increasing close -> Forall positive (skipn 1 (gain close)).
Proof.
  intro H. unfold gain, where_positive, diff.
  destruct close as [|a rest]; [constructor|].
  cbn [map skipn].
  pose proof (diff_rest_positive a rest H) as D.
  induction D as [|x l [d [-> Hd]] _ IH]; [constructor|].
  cbn [map]. constructor; [|exact IH].
  exists d. split; [|exact Hd].
  unfold fgt. apply Qltb_lt in Hd. rewrite Hd. reflexivity.
Qed.

Lemma loss_zero (close : list Q) :
  strictly_increasing close -> Forall zero (loss close).
Proof.
  intro H. unfold loss, where_negative, diff.
  destruct close as [|a rest]; [constructor|].
  cbn [map]. constructor.
  - exists (- 0). split; reflexivity.
  - pose proof (diff_rest_positive a rest H) as D.
    induction D as [|x l [d [-> Hd]] _ IH]; [constructor|].
    cbn [map]. constructor; [|exact IH].
    exists (- 0). split; [|reflexivity].
    unfold flt, fgt.
    assert (E : Qltb d 0 = false) by (apply Qltb_le; lra).
    rewrite E. reflexivity.
Qed.

Lemma finite_sum_positive (w : list fl) :
  Forall positive w -> w <> [] ->
  exists t, finite_sum w = Some t /\ 0 < t.
Proof.
  induction 1 as [|x l [d [-> Hd]] Hl IH]; intro Hne; [congruence|].
  cbn [finite_sum]. destruct l as [|y l'].
  - exists (d + 0). split; [reflexivity|lra].
  - destruct IH as [t [E Ht]]; [discriminate|].
    rewrite E. exists (d + t). split; [reflexivity|lra].
Qed.

Lemma finite_sum_zero (w : list fl) :
  Forall zero w -> exists t, finite_sum w = Some t /\ t == 0.
Proof.
  induction 1 as [|x l [d [-> Hd]] Hl [t [E Ht]]].
  - exists 0. split; reflexivity.
  - cbn [finite_sum]. rewrite E. exists (d + t). split; [reflexivity|lra].
Qed.

Lemma rolling_mean_last (period : nat) (s : list fl) :
  (1 <= period)%nat -> (period <= length s)%nat ->
  last (rolling_mean period s) NaN
  = window_mean (firstn period (skipn (length s - period) s)).
Proof.
  intros Hp Hs. unfold rolling_mean.
  destruct (length s) as [|n] eqn:En; [lia|].
  rewrite seq_S, map_app. cbn [map]. rewrite last_last. cbn [plus].
  assert (E1 : (period =? 0)%nat = false) by (apply Nat.eqb_neq; lia).
  assert (E2 : (n + 1 <? period)%nat = false) by (apply Nat.ltb_ge; lia).
  rewrite E1, E2. cbn [orb].
  replace (n + 1 - period)%nat with (S n - period)%nat by lia. reflexivity.
Qed.

Lemma gain_length (close : list Q) : length (gain close) = length close.
Proof.
  unfold gain, where_positive, diff. rewrite length_map.
  destruct close as [|a rest]; [reflexivity|].
  cbn [length]. rewrite length_map, length_combine. cbn [length]. lia.
Qed.

Lemma loss_length (close : list Q) : length (loss close) = length close.
Proof.
  unfold loss, where_negative, diff. rewrite !length_map.
  destruct close as [|a rest]; [reflexivity|].
  cbn [length]. rewrite length_map, length_combine. cbn [length]. lia.
Qed.

(** Scenario 5 in general: on a strictly increasing close series with more
    closes than the period, the last average loss is 0, the last average
    gain is positive, the current RSI is exactly 100 and the signal is
    "overbought". *)
Theorem rsi_strictly_increasing (close : list Q) (period : nat) :
  strictly_increasing close ->
  (1 <= period)%nat -> (period < length close)%nat ->
  (exists z, last (avg_loss close period) NaN = Fin z /\ z == 0) /\
  (exists g, last (avg_gain close period) NaN = Fin g /\ 0 < g) /\
  current_value (calculate_rsi close period) = Fin 100 /\
  signal (calculate_rsi close period) = "overbought"%string.
Proof.
  intros Hinc Hp Hlen.
  set (n := length close) in *.
  assert (Hloss : exists z, last (avg_loss close period) NaN = Fin z /\ z == 0).
  { unfold avg_loss.
    rewrite rolling_mean_last by (rewrite ?loss_length; fold n; lia).
    set (w := firstn period (skipn (length (loss close) - period) (loss close))).
    destruct (@finite_sum_zero w) as [t [E Ht]].
    { apply Forall_skipn_firstn. apply loss_zero. exact Hinc. }
    unfold window_mean. rewrite E.
    exists (t / Qnat (length w)). split; [reflexivity|].
    rewrite Ht. unfold Qdiv. ring. }
  assert (Hgain : exists g, last (avg_gain close period) NaN = Fin g /\ 0 < g).
  { unfold avg_gain.
    rewrite rolling_mean_last by (rewrite ?gain_length; fold n; lia).
    rewrite gain_length. fold n.
    set (w := firstn period (skipn (n - period) (gain close))).
    assert (Hw : length w = period).
    { unfold w. rewrite length_firstn, length_skipn, gain_length. fold n. lia. }
    destruct (@finite_sum_positive w) as [t [E Ht]].
    { unfold w. replace (n - period)%nat with ((n - period - 1) + 1)%nat by lia.
      rewrite <- skipn_skipn. apply Forall_skipn_firstn.
      apply gain_rest_positive. exact Hinc. }
    { intro E. rewrite E in Hw. simpl in Hw. lia. }
    unfold window_mean. rewrite E, Hw.
    exists (t / Qnat period). split; [reflexivity|].
    apply Qlt_shift_div_l; [|lra].
    unfold Qnat. change 0 with (inject_Z 0). rewrite <- Zlt_Qlt. lia. }
  split; [exact Hloss|]. split; [exact Hgain|].
  destruct Hloss as [z [Ez Hz]]. destruct Hgain as [g [Eg Hg]].
  assert (Hne : avg_loss close period <> []).
  { intro E. rewrite E in Ez. discriminate Ez. }
  assert (Hcur : current_value (calculate_rsi close period) = Fin 100).
  { rewrite (@current_rsi_last close period Hne), Ez, Eg.
    unfold fdiv. apply Qeq_bool_iff in Hz. rewrite Hz.
    apply Qltb_lt in Hg. rewrite Hg. reflexivity. }
  split; [exact Hcur|].
  rewrite signal_of_current, Hcur. reflexivity.
Qed.

End IncreasingCloses.

(** ** Rebalancing trades *)

Section RebalanceFacts.
Import Portfolio.
Variable positions : list PortfolioPosition.
Variable current_prices : dict Q.
Variable targets : dict Q.

Lemma trades_for_symbol (s : string) (t : trade) :
  In t (trades_for positions current_prices targets s) -> trade_symbol t = s.
Proof.
  unfold trades_for.
  destruct (Qgtb _ _); [|intros []].
  destruct (dict_get current_prices s) as [p|]; [|intros []].
  destruct (negb _ && _); [|intros []].
  intros [<-|[]]. reflexivity.
Qed.

Lemma trades_for_nonempty (s : string) :
  trades_for positions current_prices targets s <> [] <->
  threshold positions current_prices < Qabs (difference positions current_prices targets s) /\
  exists p, dict_get current_prices s = Some p /\ 0 < p.
Proof.
  unfold trades_for.
  destruct (Qgtb (Qabs (difference positions current_prices targets s))
                 (threshold positions current_prices)) eqn:T.
  - apply Qgtb_lt in T.
    destruct (dict_get current_prices s) as [p|].
    + destruct (negb (Qeq_bool p 0) && Qgtb p 0) eqn:G.
      * apply andb_true_iff in G. destruct G as [_ G]. apply Qgtb_lt in G.
        split; [|discriminate].
        intros _. split; [exact T|]. exists p. split; [reflexivity|exact G].
      * split; [congruence|].
        intros [_ [p' [E Hp]]]. injection E as <-.
        apply andb_false_iff in G. destruct G as [G|G].
        -- apply negb_false_iff, Qeq_bool_iff in G. lra.
        -- apply Qgtb_le in G. lra.
    + split; [congruence|]. intros [_ [p [E _]]]. discriminate E.
  - apply Qgtb_le in T. split; [congruence|]. intros [H _]. lra.
Qed.

(** C4, amended: a trade is generated for a symbol of the current positions
    or of the target allocations exactly when the absolute difference
    between its target value and its current value exceeds 1% of the total
    portfolio value and a positive current price is known for it; at or
    below the threshold no trade is generated. *)
Theorem rebalance_trade_iff (s : string) :
  let summary := rebalance_portfolio positions current_prices targets in
  let traded := map trade_symbol (required_trades summary) in
  let gap := Qabs (get_default (target_values positions current_prices targets) s 0
                   - get_default (current_values positions current_prices) s 0) in
  let dead_band := total_portfolio_value summary * (1 # 100) in
  (In s traded <->
   (In s (keys (current_values positions current_prices))
    \/ In s (keys targets)) /\
   dead_band < gap /\
   exists p, dict_get current_prices s = Some p /\ 0 < p) /\
  (gap <= dead_band -> ~ In s traded).
Proof.
  cbv zeta.
  change (required_trades (rebalance_portfolio positions current_prices targets))
    with (rebalancing_trades positions current_prices targets).
  change (total_portfolio_value (rebalance_portfolio positions current_prices targets))
    with (total_value positions current_prices).
  assert (Hiff :
    In s (map trade_symbol (rebalancing_trades positions current_prices targets)) <->
    (In s (keys (current_values positions current_prices)) \/ In s (keys targets)) /\
    threshold positions current_prices
      < Qabs (difference positions current_prices targets s) /\
    exists p, dict_get current_prices s = Some p /\ 0 < p).
  { unfold rebalancing_trades. rewrite in_map_iff. split.
    - intros [t [Ht Hin]]. apply in_flat_map in Hin.
      destruct Hin as [s' [Hs' Hin]].
      pose proof (trades_for_symbol _ _ Hin) as E. rewrite Ht in E. subst s'.
      split.
      + unfold all_symbols in Hs'. apply nodup_In in Hs'.
        apply in_app_iff in Hs'. destruct Hs' as [H|H]; [left; exact H|right].
        unfold keys, target_values in H. rewrite map_map in H. exact H.
      + apply trades_for_nonempty. intro E. rewrite E in Hin. destruct Hin.
    - intros [Hkeys Htr]. apply trades_for_nonempty in Htr.
      destruct (trades_for positions current_prices targets s) as [|t l] eqn:E;
        [congruence|].
      exists t. split.
      + apply (trades_for_symbol s). rewrite E. left. reflexivity.
      + apply in_flat_map. exists s. split.
        * unfold all_symbols. apply nodup_In. apply in_app_iff.
          destruct Hkeys as [H|H]; [left; exact H|right].
          unfold keys, target_values. rewrite map_map. exact H.
        * rewrite E. left. reflexivity. }
  split; [exact Hiff|].
  intros Hle Hin. apply Hiff in Hin. destruct Hin as [_ [Hlt _]].
  unfold threshold, difference in Hlt. lra.
Qed.

End RebalanceFacts.

Lemma rebalance_trade_iff_witness :
  let positions := [ {| Portfolio.symbol := "A"; Portfolio.quantity := 10;
                        Portfolio.avg_cost := 10 |} ] in
  let current_prices := [("A"%string, 10)] in
  In "A"%string
     (map Portfolio.trade_symbol
        (Portfolio.required_trades
           (Portfolio.rebalance_portfolio positions current_prices
              [("A"%string, 60); ("B"%string, 40)]))) /\
  ~ In "A"%string
      (map Portfolio.trade_symbol
         (Portfolio.required_trades
            (Portfolio.rebalance_portfolio positions current_prices
               [("A"%string, 100)]))).
Proof.
  cbv zeta. split.
  - apply (proj1 (rebalance_trade_iff
                    [ {| Portfolio.symbol := "A"; Portfolio.quantity := 10;
                         Portfolio.avg_cost := 10 |} ]
                    [("A"%string, 10)]
                    [("A"%string, 60); ("B"%string, 40)] "A")).
    split; [left; simpl; auto|].
    split; [vm_compute; reflexivity|].
    exists 10. split; reflexivity.
  - apply (proj2 (rebalance_trade_iff
                    [ {| Portfolio.symbol := "A"; Portfolio.quantity := 10;
                         Portfolio.avg_cost := 10 |} ]
                    [("A"%string, 10)]
                    [("A"%string, 100)] "A")).
    vm_compute. discriminate.
Defined.

(** Scenario: everything in A, target 60% A and 40% B.  The one trade sells
    4 units of A for 40, which is 40% of the portfolio. *)
Example rebalance_scenario_4 :
  let summary :=
    Portfolio.rebalance_portfolio
      [ {| Portfolio.symbol := "A"; Portfolio.quantity := 10;
           Portfolio.avg_cost := 10 |} ]
      [("A"%string, 10)]
      [("A"%string, 60); ("B"%string, 40)] in
  map (fun t => (Portfolio.trade_symbol t, Portfolio.action t))
      (Portfolio.required_trades summary) = [("A"%string, "sell"%string)] /\
  Forall (fun t => Portfolio.trade_value t == 40 /\ Portfolio.trade_quantity t == 4)
         (Portfolio.required_trades summary) /\
  Portfolio.total_portfolio_value summary == 100.
Proof.
  cbv zeta. split; [vm_compute; reflexivity|].
  split; [|vm_compute; reflexivity].
  vm_compute. repeat constructor.
Qed.

(** C4 as stated fails: with everything held in A and a target of 60% A and
    40% B, the gap of B is 40% of the portfolio, far above the 1% band, and
    yet the only trade is the one on A, because no price was fetched for B,
    which is not among the positions. *)
Lemma rebalance_no_trade_without_price :
  let positions := [ {| Portfolio.symbol := "A"; Portfolio.quantity := 10;
                        Portfolio.avg_cost := 10 |} ] in
  let current_prices := [("A"%string, 10)] in
  let targets := [("A"%string, 60); ("B"%string, 40)] in
  let summary := Portfolio.rebalance_portfolio positions current_prices targets in
  forallb Portfolio.position_valid positions = true /\
  Portfolio.allocations_sum_to_100 targets = true /\
  Portfolio.total_portfolio_value summary * (1 # 100)
    < Qabs (get_default
              (Portfolio.target_values positions current_prices targets) "B" 0
            - get_default
                (Portfolio.current_values positions current_prices) "B" 0) /\
  map Portfolio.trade_symbol (Portfolio.required_trades summary) = ["A"%string] /\
  ~ In "B"%string (map Portfolio.trade_symbol (Portfolio.required_trades summary)).
Proof.
  cbv zeta. split; [reflexivity|]. split; [reflexivity|].
  split; [vm_compute; reflexivity|].
  split; [vm_compute; reflexivity|].
  vm_compute. intros [H|[]]. discriminate H.
Qed.

(** The same guard applies to a held symbol whose quote could not be
    fetched: it is valued at its average cost and never traded. *)
Example rebalance_no_trade_when_quote_missing :
  let summary :=
    Portfolio.rebalance_portfolio
      [ {| Portfolio.symbol := "A"; Portfolio.quantity := 10;
           Portfolio.avg_cost := 10 |} ]
      []
      [("A"%string, 50); ("B"%string, 50)] in
  Portfolio.total_portfolio_value summary == 100 /\
  Portfolio.required_trades summary = [].
Proof. cbv zeta. split; vm_compute; reflexivity. Qed.

(** ** Correlation *)

Section PairSums.
Import CorrelationAnalyzer.

Lemma Qsum_map_ext {A : Type} (f g : A -> Q) (l : list A) :
  (forall a, f a == g a) -> Qsum (map f l) == Qsum (map g l).
Proof.
  intro H. unfold Qsum.
  induction l as [|a l IH]; cbn [map fold_right]; [reflexivity|].
  rewrite IH, H. reflexivity.
Qed.

Lemma Qsquare_nonneg (x : Q) : 0 <= x * x.
Proof.
  destruct (Qlt_le_dec x 0) as [H|H].
  - assert (E : x * x == (- x) * (- x)) by ring. rewrite E.
    apply Qmult_le_0_compat; lra.
  - apply Qmult_le_0_compat; exact H.
Qed.

Lemma sum_uu_nonneg (l : list (Q * Q)) : 0 <= sum_uu l.
Proof.
  unfold sum_uu, Qsum. induction l as [|p l IH]; cbn [map fold_right]; [lra|].
  pose proof (Qsquare_nonneg (fst p)) as H. lra.
Qed.

(** The quadratic form [sum (u*s + v*t)^2] is never negative. *)
Lemma quadratic_form_nonneg (l : list (Q * Q)) (s t : Q) :
  0 <= sum_uu l * (s * s) + 2 * sum_uv l * (s * t) + sum_vv l * (t * t).
Proof.
  unfold sum_uu, sum_vv, sum_uv, Qsum.
  induction l as [|[u v] l IH]; cbn [map fold_right fst snd]; [lra|].
  pose proof (Qsquare_nonneg (u * s + v * t)) as H.
  nra.
Qed.

(** Cauchy-Schwarz. *)
Lemma cauchy_schwarz (l : list (Q * Q)) :
  sum_uv l * sum_uv l <= sum_uu l * sum_vv l.
Proof.
  pose proof (sum_uu_nonneg l) as HA.
  destruct (Qlt_le_dec 0 (sum_uu l)) as [Hpos|Hzero].
  - pose proof (quadratic_form_nonneg l (sum_uv l) (- sum_uu l)) as H.
    nra.
  - assert (E : sum_uu l == 0) by lra.
    pose proof (quadratic_form_nonneg l (- (sum_vv l + 1)) (2 * sum_uv l)) as H.
    rewrite E in H. rewrite E.
    nra.
Qed.

End PairSums.

Section PearsonFacts.
Import CorrelationAnalyzer.

Lemma combine_fst_snd {A B : Type} (l : list (A * B)) :
  combine (map fst l) (map snd l) = l.
Proof.
  induction l as [|[a b] l IH]; simpl; [reflexivity|]. rewrite IH. reflexivity.
Qed.

Lemma sq_dev_fst (obs : list (Q * Q)) : sq_dev (map fst obs) = sum_uu (centred obs).
Proof.
  unfold sq_dev, sum_uu, centred. rewrite !map_map. reflexivity.
Qed.

Lemma sq_dev_snd (obs : list (Q * Q)) : sq_dev (map snd obs) = sum_vv (centred obs).
Proof.
  unfold sq_dev, sum_vv, centred. rewrite !map_map. reflexivity.
Qed.

Lemma co_dev_pairs (obs : list (Q * Q)) :
  co_dev (map fst obs) (map snd obs) = sum_uv (centred obs).
Proof.
  unfold co_dev, sum_uv, centred. rewrite combine_fst_snd, !map_map. reflexivity.
Qed.

Lemma sum_vv_nonneg (l : list (Q * Q)) : 0 <= sum_vv l.
Proof.
  unfold sum_vv, Qsum. induction l as [|p l IH]; cbn [map fold_right]; [lra|].
  pose proof (Qsquare_nonneg (snd p)) as H. lra.
Qed.

Lemma sq_dev_nonneg (xs : list Q) : 0 <= sq_dev xs.
Proof.
  unfold sq_dev, Qsum. generalize (np_mean xs) as m. intro m.
  induction xs as [|x xs IH]; cbn [map fold_right]; [lra|].
  pose proof (Qsquare_nonneg (x - m)) as H. lra.
Qed.

(** A coefficient that is a number lies between -1 and 1. *)
Lemma pearson_range (x y : list fl) (v : R) :
  pearson x y = Corr v -> (-1 <= v <= 1)%R.
Proof.
  unfold pearson. cbv zeta.
  set (obs := finite_pairs x y).
  destruct (Qeq_bool (sq_dev (map fst obs) * sq_dev (map snd obs)) 0) eqn:E;
    [discriminate|].
  intro H. injection H as <-.
  apply Qeq_bool_false_iff in E.
  pose proof (cauchy_schwarz (centred obs)) as CS.
  rewrite <- sq_dev_fst, <- sq_dev_snd, <- co_dev_pairs in CS.
  pose proof (sq_dev_nonneg (map fst obs)) as HA.
  pose proof (sq_dev_nonneg (map snd obs)) as HB.
  set (A := sq_dev (map fst obs)) in *.
  set (B := sq_dev (map snd obs)) in *.
  set (C := co_dev (map fst obs) (map snd obs)) in *.
  assert (Hpos : 0 < A * B).
  { assert (0 <= A * B) by (apply Qmult_le_0_compat; assumption).
    destruct (Qlt_le_dec 0 (A * B)) as [L|L]; [exact L|].
    exfalso. apply E. lra. }
  apply Qlt_Rlt in Hpos. apply Qle_Rle in CS.
  rewrite Q2R_mult in CS. change (Q2R 0) with (Q2R (0 # 1)) in Hpos.
  replace (Q2R (0 # 1)) with 0%R in Hpos by (unfold Q2R; simpl; Lra.lra).
  set (c := Q2R C) in *. set (p := Q2R (A * B)) in *.
  pose proof (sqrt_lt_R0 p Hpos) as Hs.
  pose proof (sqrt_sqrt p (Rlt_le _ _ Hpos)) as Hss.
  set (s := R_sqrt.sqrt p) in *.
  assert (Hc : (- s <= c <= s)%R) by (split; Lra.nra).
  pose proof (Rinv_0_lt_compat s Hs) as Hi.
  assert (Hone : (s * / s = 1)%R) by (apply Rinv_r; Lra.lra).
  unfold Rdiv. split; Lra.nra.
Qed.

Lemma finite_pairs_swap (x y : list fl) :
  finite_pairs y x = map (fun p => (snd p, fst p)) (finite_pairs x y).
Proof.
  unfold finite_pairs.
  revert y. induction x as [|a x IH]; intros [|b y]; try reflexivity.
  cbn [combine flat_map]. rewrite map_app, IH.
  destruct a, b; reflexivity.
Qed.

Lemma co_dev_sym (xs ys : list Q) : co_dev ys xs == co_dev xs ys.
Proof.
  unfold co_dev.
  generalize (np_mean xs) as mx, (np_mean ys) as my. intros mx my.
  revert ys. induction xs as [|a xs IH]; intros [|b ys]; try reflexivity.
  unfold Qsum in *. cbn [combine map fold_right fst snd].
  rewrite IH. ring.
Qed.

(** The coefficient of a pair does not depend on the order of the pair. *)
Lemma pearson_sym (x y : list fl) : pearson y x = pearson x y.
Proof.
  unfold pearson. cbv zeta.
  rewrite finite_pairs_swap, !map_map. cbn [fst snd].
  set (obs := finite_pairs x y).
  change (map (fun p : Q * Q => snd p) obs) with (map snd obs).
  change (map (fun p : Q * Q => fst p) obs) with (map fst obs).
  set (A := sq_dev (map fst obs)). set (B := sq_dev (map snd obs)).
  assert (EP : B * A == A * B) by ring.
  assert (ET : Qeq_bool (B * A) 0 = Qeq_bool (A * B) 0).
  { destruct (Qeq_bool (A * B) 0) eqn:E.
    - apply Qeq_bool_iff. apply Qeq_bool_iff in E. rewrite EP. exact E.
    - apply Qeq_bool_false_iff. apply Qeq_bool_false_iff in E.
      rewrite EP. exact E. }
  rewrite ET. destruct (Qeq_bool (A * B) 0); [reflexivity|].
  rewrite (Qeq_eqR _ _ EP), (Qeq_eqR _ _ (co_dev_sym (map fst obs) (map snd obs))).
  reflexivity.
Qed.

Lemma finite_pairs_diag (x : list fl) :
  map snd (finite_pairs x x) = map fst (finite_pairs x x).
Proof.
  unfold finite_pairs.
  induction x as [|a x IH]; [reflexivity|].
  cbn [combine flat_map]. rewrite !map_app, IH.
  destruct a; reflexivity.
Qed.

Lemma co_dev_diag (xs : list Q) : co_dev xs xs == sq_dev xs.
Proof.
  unfold co_dev, sq_dev.
  generalize (np_mean xs) as m. intro m.
  induction xs as [|a xs IH]; [reflexivity|].
  unfold Qsum in *. cbn [combine map fold_right fst snd].
  rewrite IH. reflexivity.
Qed.

(** A column against itself: 1 when its finite entries have a non-zero
    squared deviation, NaN when they have none. *)
Lemma pearson_diag (x : list fl) :
  (~ sq_dev (observed x) == 0 -> pearson x x = Corr 1) /\
  (sq_dev (observed x) == 0 -> pearson x x = CorrNaN).
Proof.
  unfold pearson, observed. cbv zeta.
  rewrite finite_pairs_diag.
  set (xs := map fst (finite_pairs x x)).
  pose proof (sq_dev_nonneg xs) as HA.
  set (A := sq_dev xs) in *.
  split; intro H.
  - assert (Hpos : 0 < A).
    { destruct (Qlt_le_dec 0 A) as [L|L]; [exact L|]. exfalso. apply H. lra. }
    assert (E : Qeq_bool (A * A) 0 = false).
    { apply Qeq_bool_false_iff. intro E. nra. }
    rewrite E. f_equal.
    rewrite (Qeq_eqR _ _ (co_dev_diag xs)). fold A.
    rewrite Q2R_mult.
    apply Qlt_Rlt in Hpos.
    replace (Q2R 0) with 0%R in Hpos by (unfold Q2R; simpl; Lra.lra).
    rewrite sqrt_square by (apply Rlt_le; exact Hpos).
    unfold Rdiv. apply Rinv_r. Lra.lra.
  - assert (E : Qeq_bool (A * A) 0 = true).
    { apply Qeq_bool_iff. rewrite H. ring. }
    rewrite E. reflexivity.
Qed.

End PearsonFacts.

(** ** The correlation matrix *)

Lemma dict_get_map_values {V W : Type} (g : V -> W) (d : dict V) (k : string) :
  dict_get (map (fun kv => (fst kv, g (snd kv))) d) k = option_map g (dict_get d k).
Proof.
  induction d as [|[k' v] d IH]; [reflexivity|].
  cbn [map dict_get fst snd]. destruct (String.eqb k k'); [reflexivity|exact IH].
Qed.

Lemma dict_get_keys {V : Type} (d : dict V) (k : string) :
  In k (keys d) -> exists v, dict_get d k = Some v.
Proof.
  induction d as [|[k' v] d IH]; intro H; [destruct H|].
  cbn [dict_get]. destruct (String.eqb k k') eqn:E.
  - exists v. reflexivity.
  - destruct H as [H|H].
    + simpl in H. subst k'. rewrite String.eqb_refl in E. discriminate.
    + apply IH. exact H.
Qed.

Lemma DataFrame_columns (price_data : dict (list Q)) (df : CorrelationAnalyzer.frame) :
  CorrelationAnalyzer.DataFrame price_data = Ok df ->
  df = map (fun kv => (fst kv, map Fin (snd kv))) price_data.
Proof.
  unfold CorrelationAnalyzer.DataFrame.
  destruct price_data as [|[k c] t]; [intro H; injection H as <-; reflexivity|].
  destruct (forallb _ _); [|discriminate].
  intro H. injection H as <-. reflexivity.
Qed.

(** Every symbol of the input has a column in the return frame. *)
Lemma returns_column_exists (price_data : dict (list Q))
      (df : CorrelationAnalyzer.frame) (a : string) :
  CorrelationAnalyzer.DataFrame price_data = Ok df ->
  In a (keys price_data) ->
  exists xa,
    dict_get (CorrelationAnalyzer.dropna (CorrelationAnalyzer.pct_change df)) a
    = Some xa.
Proof.
  intros Hdf Ha.
  apply DataFrame_columns in Hdf. subst df.
  destruct (dict_get_keys price_data a Ha) as [pa Hpa].
  unfold CorrelationAnalyzer.dropna. cbv zeta.
  rewrite (dict_get_map_values
             (fun c => map (fun i => nth i c NaN)
                         (filter (CorrelationAnalyzer.row_complete
                                    (CorrelationAnalyzer.pct_change
                                       (map (fun kv => (fst kv, map Fin (snd kv)))
                                            price_data)))
                                 (seq 0 (CorrelationAnalyzer.nrows
                                           (CorrelationAnalyzer.pct_change
                                              (map (fun kv => (fst kv, map Fin (snd kv)))
                                                   price_data))))))).
  unfold CorrelationAnalyzer.pct_change at 3.
  rewrite (dict_get_map_values CorrelationAnalyzer.pct_change_column).
  rewrite (dict_get_map_values (map Fin)), Hpa.
  eexists. reflexivity.
Qed.

Lemma corr_entry (df : CorrelationAnalyzer.frame) (a b : string) (xa xb : list fl) :
  dict_get df a = Some xa -> dict_get df b = Some xb ->
  match dict_get (CorrelationAnalyzer.corr df) a with
  | Some row => dict_get row b
  | None => None
  end = Some (CorrelationAnalyzer.pearson xa xb).
Proof.
  intros Ha Hb. unfold CorrelationAnalyzer.corr.
  rewrite (dict_get_map_values
             (fun x => map (fun c2 => (fst c2, CorrelationAnalyzer.pearson x (snd c2))) df)).
  rewrite Ha. cbn [option_map].
  rewrite (dict_get_map_values (CorrelationAnalyzer.pearson xa)), Hb.
  reflexivity.
Qed.

(** C3, amended: for at least two symbols and a non-empty aligned return
    frame the matrix is symmetric; a diagonal entry is exactly 1 when the
    finite returns of the symbol have a non-zero squared deviation and NaN
    when they have none; every other entry is NaN or lies in [-1, 1]. *)
Theorem correlation_matrix_shape
        (price_data : dict (list Q)) (df : CorrelationAnalyzer.frame) (a b : string) :
  (2 <= length price_data)%nat ->
  CorrelationAnalyzer.DataFrame price_data = Ok df ->
  CorrelationAnalyzer.empty
    (CorrelationAnalyzer.dropna (CorrelationAnalyzer.pct_change df)) = false ->
  In a (keys price_data) -> In b (keys price_data) ->
  exists r xa cab caa,
    CorrelationAnalyzer.calculate_correlation_matrix price_data
    = Ok (CorrelationAnalyzer.Report r) /\
    dict_get (CorrelationAnalyzer.dropna (CorrelationAnalyzer.pct_change df)) a
    = Some xa /\
    CorrelationAnalyzer.entry r a b = Some cab /\
    CorrelationAnalyzer.entry r b a = Some cab /\
    CorrelationAnalyzer.entry r a a = Some caa /\
    (~ CorrelationAnalyzer.sq_dev (CorrelationAnalyzer.observed xa) == 0 ->
     caa = CorrelationAnalyzer.Corr 1) /\
    (CorrelationAnalyzer.sq_dev (CorrelationAnalyzer.observed xa) == 0 ->
     caa = CorrelationAnalyzer.CorrNaN) /\
    (cab = CorrelationAnalyzer.CorrNaN \/
     exists v, cab = CorrelationAnalyzer.Corr v /\ (-1 <= v <= 1)%R).
Proof.
  intros Hlen Hdf Hne Ha Hb.
  destruct (returns_column_exists price_data a Hdf Ha) as [xa Hxa].
  destruct (returns_column_exists price_data b Hdf Hb) as [xb Hxb].
  set (rdf := CorrelationAnalyzer.dropna (CorrelationAnalyzer.pct_change df)) in *.
  exists {| CorrelationAnalyzer.correlation_matrix := CorrelationAnalyzer.corr rdf;
            CorrelationAnalyzer.strong :=
              CorrelationAnalyzer.strong_correlations (CorrelationAnalyzer.corr rdf);
            CorrelationAnalyzer.average :=
              CorrelationAnalyzer.average_correlation (CorrelationAnalyzer.corr rdf) |}.
  exists xa, (CorrelationAnalyzer.pearson xa xb), (CorrelationAnalyzer.pearson xa xa).
  split.
  { unfold CorrelationAnalyzer.calculate_correlation_matrix.
    apply Nat.ltb_ge in Hlen. rewrite Hlen, Hdf. cbn [bind]. cbv zeta.
    fold rdf. rewrite Hne. reflexivity. }
  split; [exact Hxa|].
  unfold CorrelationAnalyzer.entry. cbn [CorrelationAnalyzer.correlation_matrix].
  split; [apply corr_entry; assumption|].
  split; [rewrite (pearson_sym xb xa); apply corr_entry; assumption|].
  split; [apply corr_entry; assumption|].
  split; [apply pearson_diag|]. split; [apply pearson_diag|].
  destruct (CorrelationAnalyzer.pearson xa xb) as [|v] eqn:E; [left; reflexivity|].
  right. exists v. split; [reflexivity|]. exact (pearson_range xa xb E).
Qed.

Lemma correlation_matrix_shape_witness :
  exists r xa cab caa,
    CorrelationAnalyzer.calculate_correlation_matrix
      [("A"%string, [1; 2; 3]); ("B"%string, [2; 3; 6])]
    = Ok (CorrelationAnalyzer.Report r) /\
    dict_get (CorrelationAnalyzer.dropna
                (CorrelationAnalyzer.pct_change
                   [("A"%string, [Fin 1; Fin 2; Fin 3]);
                    ("B"%string, [Fin 2; Fin 3; Fin 6])])) "A"
    = Some xa /\
    CorrelationAnalyzer.entry r "A" "B" = Some cab /\
    CorrelationAnalyzer.entry r "B" "A" = Some cab /\
    CorrelationAnalyzer.entry r "A" "A" = Some caa /\
    (~ CorrelationAnalyzer.sq_dev (CorrelationAnalyzer.observed xa) == 0 ->
     caa = CorrelationAnalyzer.Corr 1) /\
    (CorrelationAnalyzer.sq_dev (CorrelationAnalyzer.observed xa) == 0 ->
     caa = CorrelationAnalyzer.CorrNaN) /\
    (cab = CorrelationAnalyzer.CorrNaN \/
     exists v, cab = CorrelationAnalyzer.Corr v /\ (-1 <= v <= 1)%R).
Proof.
  apply (@correlation_matrix_shape
           [("A"%string, [1; 2; 3]); ("B"%string, [2; 3; 6])]
           [("A"%string, [Fin 1; Fin 2; Fin 3]); ("B"%string, [Fin 2; Fin 3; Fin 6])]
           "A" "B").
  - simpl. lia.
  - reflexivity.
  - reflexivity.
  - simpl. auto.
  - simpl. auto.
Defined.

(** C3 as stated fails: a symbol whose returns are all equal has no
    deviation, the divisor of its coefficients is 0 and its entries,
    the diagonal one included, are NaN instead of 1. *)
Lemma correlation_diagonal_nan :
  exists r,
    CorrelationAnalyzer.calculate_correlation_matrix
      [("A"%string, [1; 1; 1]); ("B"%string, [1; 2; 3])]
    = Ok (CorrelationAnalyzer.Report r) /\
    CorrelationAnalyzer.entry r "A" "A" = Some CorrelationAnalyzer.CorrNaN /\
    CorrelationAnalyzer.entry r "A" "A" <> Some (CorrelationAnalyzer.Corr 1).
Proof.
  eexists. split; [reflexivity|]. split; [reflexivity|]. discriminate.
Qed.

(** Two prices per symbol leave one return row and no deviation at all:
    every entry of the matrix is NaN. *)
Example correlation_single_row :
  exists r,
    CorrelationAnalyzer.calculate_correlation_matrix
      [("A"%string, [1; 2]); ("B"%string, [1; 3])]
    = Ok (CorrelationAnalyzer.Report r) /\
    CorrelationAnalyzer.entry r "A" "A" = Some CorrelationAnalyzer.CorrNaN /\
    CorrelationAnalyzer.entry r "A" "B" = Some CorrelationAnalyzer.CorrNaN /\
    CorrelationAnalyzer.entry r "B" "B" = Some CorrelationAnalyzer.CorrNaN.
Proof.
  eexists. repeat split; reflexivity.
Qed.







(** Columns of different lengths do not make a frame: the constructor raises
    before any return is computed, also when one of two lists is empty. *)
Example correlation_ragged_input :
  CorrelationAnalyzer.calculate_correlation_matrix
    [("A"%string, [1; 2; 3]); ("B"%string, [1; 2])]
  = Raise ValueError /\
  CorrelationAnalyzer.calculate_correlation_matrix
    [("A"%string, [1; 2]); ("B"%string, [])]
  = Raise ValueError.
Proof. split; reflexivity. Qed.

(** Two symbols without any price give an empty frame and the empty dict. *)
Example correlation_no_prices :
  CorrelationAnalyzer.calculate_correlation_matrix
    [("A"%string, []); ("B"%string, [])]
  = Ok CorrelationAnalyzer.EmptyDict.
Proof. reflexivity. Qed.

(** Scenario: two return series that mirror each other around their common
    mean, [1, 1/2] and [1/2, 1], have the coefficient -1. *)
Example correlation_mirrored_returns :
  exists r,
    CorrelationAnalyzer.calculate_correlation_matrix
      [("A"%string, [1; 2; 3]); ("B"%string, [2; 3; 6])]
    = Ok (CorrelationAnalyzer.Report r) /\
    CorrelationAnalyzer.entry r "A" "B" = Some (CorrelationAnalyzer.Corr (-1)) /\
    CorrelationAnalyzer.entry r "A" "A" = Some (CorrelationAnalyzer.Corr 1).
Proof.
  eexists. split; [reflexivity|]. split.
  - unfold CorrelationAnalyzer.entry. cbn [CorrelationAnalyzer.correlation_matrix].
    rewrite (@corr_entry _ "A" "B"
               [Fin (2 / 1 + - (1)); Fin (3 / 2 + - (1))]
               [Fin (3 / 2 + - (1)); Fin (6 / 3 + - (1))]);
      [|reflexivity|reflexivity].
    unfold CorrelationAnalyzer.pearson. cbv zeta.
    set (obs := CorrelationAnalyzer.finite_pairs _ _).
    assert (EC : CorrelationAnalyzer.co_dev (map fst obs) (map snd obs) == - (1 # 8))
      by (vm_compute; reflexivity).
    assert (EP : CorrelationAnalyzer.sq_dev (map fst obs)
                 * CorrelationAnalyzer.sq_dev (map snd obs) == (1 # 8) * (1 # 8))
      by (vm_compute; reflexivity).
    assert (ET : Qeq_bool (CorrelationAnalyzer.sq_dev (map fst obs)
                           * CorrelationAnalyzer.sq_dev (map snd obs)) 0 = false)
      by (vm_compute; reflexivity).
    rewrite ET, (Qeq_eqR _ _ EC), (Qeq_eqR _ _ EP), Q2R_mult.
    rewrite sqrt_square by (unfold Q2R; simpl; Lra.lra).
    do 2 f_equal. unfold Q2R. simpl. Lra.lra.
  - unfold CorrelationAnalyzer.entry. cbn [CorrelationAnalyzer.correlation_matrix].
    rewrite (@corr_entry _ "A" "A"
               [Fin (2 / 1 + - (1)); Fin (3 / 2 + - (1))]
               [Fin (2 / 1 + - (1)); Fin (3 / 2 + - (1))]);
      [|reflexivity|reflexivity].
    f_equal. apply pearson_diag. vm_compute. discriminate.
Qed.

(** * Further properties of the analyzers *)

(** ** Drawdown of a series that never falls, and of a longer series *)

Section DrawdownFacts.
Import PerformanceAnalyzer.

Lemma for_in_app {A S : Type} (l1 l2 : list A) (body : A -> S -> result S) (s : S) :
  for_in (l1 ++ l2) body s = bind (for_in l1 body s) (for_in l2 body).
Proof.
  revert s. induction l1 as [|x l1 IH]; intro s; [reflexivity|].
  cbn [app for_in]. destruct (body x s) as [s'|e]; [|reflexivity].
  cbn [bind]. apply IH.
Qed.

(** One step of the loop on a positive price and a positive peak. *)
Lemma drawdown_step_positive (price peak dd : Q) :
  0 < price -> 0 < peak -> 0 <= dd ->
  exists peak' dd',
    drawdown_step price (peak, dd) = Ok (peak', dd') /\
    0 < peak' /\ price <= peak' /\ peak <= peak' /\ dd <= dd' /\
    (peak <= price -> peak' == price /\ dd' = dd) /\
    (price < peak -> 0 < dd').
Proof.
  intros Hprice Hpeak Hdd.
  unfold drawdown_step. cbv zeta. cbn [fst snd].
  destruct (Qgtb price peak) eqn:E.
  - apply Qgtb_lt in E.
    unfold truediv.
    assert (Hz : Qeq_bool price 0 = false)
      by (apply Qeq_bool_false_iff; intro H0; lra).
    rewrite Hz. cbn [bind].
    assert (Hd : (price - price) / price == 0) by (field; intro H0; lra).
    assert (G : Qgtb ((price - price) / price) dd = false).
    { apply Qgtb_le. rewrite Hd. exact Hdd. }
    rewrite G.
    exists price, dd. split; [reflexivity|].
    split; [lra|]. split; [lra|]. split; [lra|]. split; [lra|].
    split.
    + intros _. split; reflexivity.
    + intro Hlt. exfalso. lra.
  - apply Qgtb_le in E.
    unfold truediv.
    assert (Hz : Qeq_bool peak 0 = false)
      by (apply Qeq_bool_false_iff; intro H0; lra).
    rewrite Hz. cbn [bind].
    destruct (Qgtb ((peak - price) / peak) dd) eqn:G.
    + apply Qgtb_lt in G.
      exists peak, ((peak - price) / peak). split; [reflexivity|].
      split; [lra|]. split; [lra|]. split; [lra|]. split; [lra|].
      split.
      * intro Hle. exfalso.
        assert (Hd : (peak - price) / peak == 0).
        { assert (Ep : price == peak) by lra. rewrite Ep. field. intro H0. lra. }
        lra.
      * intros _. lra.
    + apply Qgtb_le in G.
      exists peak, dd. split; [reflexivity|].
      split; [lra|]. split; [lra|]. split; [lra|]. split; [lra|].
      split.
      * intro Hle. split; [lra|reflexivity].
      * intro Hlt.
        assert (Hd : 0 < (peak - price) / peak).
        { apply Qlt_shift_div_l; lra. }
        lra.
Qed.

(** On positive prices the loop ends, and its maximum is not below the one
    it started with. *)
Lemma drawdown_loop_grows (l : list Q) (peak dd : Q) :
  Forall (fun p => 0 < p) l -> 0 < peak -> 0 <= dd ->
  exists peak' dd',
    for_in l drawdown_step (peak, dd) = Ok (peak', dd') /\
    0 < peak' /\ peak <= peak' /\ dd <= dd'.
Proof.
  intro Hl. revert peak dd.
  induction Hl as [|price l Hprice Hl IH]; intros peak dd Hpeak Hdd.
  - exists peak, dd. repeat split; try reflexivity; lra.
  - cbn [for_in].
    destruct (drawdown_step_positive Hprice Hpeak Hdd)
      as [pk [d [E [Hpk [_ [Hle [Hd _]]]]]]].
    rewrite E. cbn [bind].
    destruct (IH pk d Hpk ltac:(lra)) as [pk' [d' [E' [Hpk' [Hle' Hd']]]]].
    exists pk', d'. split; [exact E'|]. repeat split; lra.
Qed.

Lemma never_falls_dec (P : list Q) : never_falls P \/ ~ never_falls P.
Proof.
  induction P as [|a [|b t] IH]; [left; exact I|left; exact I|].
  destruct (Qlt_le_dec b a) as [H|H].
  - right. intros [Hab _]. lra.
  - destruct IH as [IH|IH].
    + left. split; assumption.
    + right. intros [_ Hn]. contradiction.
Qed.

(** While the series does not fall, the peak follows the last price and the
    maximum stays where it is. *)
Lemma drawdown_loop_never_falls (l : list Q) (last_price peak dd : Q) :
  Forall (fun p => 0 < p) l -> 0 < peak -> 0 <= dd ->
  peak == last_price -> never_falls (last_price :: l) ->
  exists peak', for_in l drawdown_step (peak, dd) = Ok (peak', dd).
Proof.
  intro Hl. revert last_price peak.
  induction Hl as [|price l Hprice Hl IH]; intros last_price peak Hpeak Hdd Heq Hnf.
  - exists peak. reflexivity.
  - destruct Hnf as [Hle Hnf]. cbn [for_in].
    destruct (drawdown_step_positive Hprice Hpeak Hdd)
      as [pk [d [E [Hpk [_ [_ [_ [Hsame _]]]]]]]].
    destruct Hsame as [Hpk' ->]; [lra|].
    rewrite E. cbn [bind].
    apply (IH price pk Hpk Hdd Hpk' Hnf).
Qed.

(** After a fall the maximum is positive. *)
Lemma drawdown_loop_falls (l : list Q) (last_price peak dd : Q) :
  Forall (fun p => 0 < p) l -> 0 < peak -> 0 <= dd ->
  last_price <= peak -> ~ never_falls (last_price :: l) ->
  exists peak' dd',
    for_in l drawdown_step (peak, dd) = Ok (peak', dd') /\ 0 < dd'.
Proof.
  intro Hl. revert last_price peak dd.
  induction Hl as [|price l Hprice Hl IH]; intros last_price peak dd Hpeak Hdd Hle Hnf.
  - exfalso. apply Hnf. exact I.
  - cbn [for_in].
    destruct (drawdown_step_positive Hprice Hpeak Hdd)
      as [pk [d [E [Hpk [Hprice_le [_ [Hd [_ Hfall]]]]]]]].
    rewrite E. cbn [bind].
    destruct (Qlt_le_dec price last_price) as [Hlt|Hge].
    + assert (Hd0 : 0 < d) by (apply Hfall; lra).
      destruct (@drawdown_loop_grows l pk d Hl Hpk ltac:(lra))
        as [pk' [d' [E' [_ [_ Hd']]]]].
      exists pk', d'. split; [exact E'|lra].
    + apply (IH price pk d Hpk ltac:(lra) Hprice_le).
      intro Hrest. apply Hnf. split; assumption.
Qed.

End DrawdownFacts.

(** X1: on positive prices the maximum drawdown is returned without an
    exception, and it is 0 exactly when no price is below the one before. *)
Theorem max_drawdown_zero_iff_never_falls (P : list Q) :
  Forall (fun p => 0 < p) P ->
  exists v,
    PerformanceAnalyzer.calculate_max_drawdown P = Ok v /\
    (v == 0 <-> PerformanceAnalyzer.never_falls P).
Proof.
  intro Hpos.
  unfold PerformanceAnalyzer.calculate_max_drawdown.
  destruct (length P <? 2)%nat eqn:L.
  - exists 0. split; [reflexivity|].
    apply Nat.ltb_lt in L.
    destruct P as [|a [|b t]]; simpl in L; try lia; split; intros; try exact I; reflexivity.
  - destruct P as [|a t]; [discriminate L|].
    cbn [getitem nth_error bind skipn].
    inversion Hpos as [|? ? Ha Ht]; subst.
    destruct (never_falls_dec (a :: t)) as [Hnf|Hnf].
    + destruct (@drawdown_loop_never_falls t a a 0 Ht Ha) as [pk E];
        try lra; try reflexivity; [exact Hnf|].
      rewrite E. cbn [bind snd].
      exists (0 * 100). split; [reflexivity|].
      split; intros; [exact Hnf|ring].
    + destruct (@drawdown_loop_falls t a a 0 Ht Ha) as [pk [dd [E Hdd]]];
        try lra; [exact Hnf|].
      rewrite E. cbn [bind snd].
      exists (dd * 100). split; [reflexivity|].
      split; intro H; [exfalso; lra|contradiction].
Qed.

Lemma max_drawdown_zero_iff_never_falls_witness :
  exists v,
    PerformanceAnalyzer.calculate_max_drawdown [100; 100; 105; 130] = Ok v /\
    (v == 0 <-> PerformanceAnalyzer.never_falls [100; 100; 105; 130]).
Proof.
  apply (@max_drawdown_zero_iff_never_falls [100; 100; 105; 130]).
  repeat constructor.
Defined.

Lemma max_drawdown_short (P : list Q) :
  (length P < 2)%nat -> PerformanceAnalyzer.calculate_max_drawdown P = Ok 0.
Proof.
  intro H. unfold PerformanceAnalyzer.calculate_max_drawdown.
  apply Nat.ltb_lt in H. rewrite H. reflexivity.
Qed.

Lemma max_drawdown_as_loop (a : Q) (t : list Q) :
  (1 <= length t)%nat ->
  PerformanceAnalyzer.calculate_max_drawdown (a :: t)
  = (st <- for_in t PerformanceAnalyzer.drawdown_step (a, 0) ;; Ok (snd st * 100)).
Proof.
  intro H. unfold PerformanceAnalyzer.calculate_max_drawdown.
  assert (L : (length (a :: t) <? 2)%nat = false)
    by (apply Nat.ltb_ge; simpl; lia).
  rewrite L. reflexivity.
Qed.

Lemma max_drawdown_positive_ok (P : list Q) :
  Forall (fun p => 0 < p) P ->
  exists v, PerformanceAnalyzer.calculate_max_drawdown P = Ok v /\ 0 <= v.
Proof.
  intro HP. destruct P as [|a [|b t]].
  - exists 0. split; [reflexivity|lra].
  - exists 0. split; [reflexivity|lra].
  - inversion HP as [|? ? Ha Ht]; subst.
    rewrite max_drawdown_as_loop by (simpl; lia).
    destruct (@drawdown_loop_grows (b :: t) a 0 Ht Ha) as [pk [dd [E [_ [_ Hd]]]]];
      [lra|].
    rewrite E. cbn [bind snd]. exists (dd * 100). split; [reflexivity|lra].
Qed.

(** X2: on positive prices, appending further prices never lowers the
    maximum drawdown. *)
Theorem max_drawdown_extension (P more : list Q) :
  Forall (fun p => 0 < p) P -> Forall (fun p => 0 < p) more ->
  exists v v',
    PerformanceAnalyzer.calculate_max_drawdown P = Ok v /\
    PerformanceAnalyzer.calculate_max_drawdown (P ++ more) = Ok v' /\
    v <= v'.
Proof.
  intros HP Hmore.
  assert (Hall : Forall (fun p => 0 < p) (P ++ more))
    by (apply Forall_app; split; assumption).
  destruct (max_drawdown_positive_ok Hall) as [v' [E' Hv']].
  destruct P as [|a [|b t]].
  - exists 0, v'. split; [reflexivity|]. split; [exact E'|exact Hv'].
  - exists 0, v'. split; [reflexivity|]. split; [exact E'|exact Hv'].
  - clear v' E' Hv'.
    inversion HP as [|? ? Ha Ht]; subst.
    destruct (@drawdown_loop_grows (b :: t) a 0 Ht Ha) as [pk [dd [E [Hpk [_ Hd]]]]];
      [lra|].
    destruct (@drawdown_loop_grows more pk dd Hmore Hpk Hd)
      as [pk' [dd' [E' [_ [_ Hd']]]]].
    exists (dd * 100), (dd' * 100).
    split.
    + rewrite max_drawdown_as_loop by (simpl; lia). rewrite E. reflexivity.
    + split; [|lra].
      change ((a :: b :: t) ++ more) with (a :: ((b :: t) ++ more)).
      rewrite max_drawdown_as_loop by (rewrite length_app; simpl; lia).
      rewrite for_in_app, E. cbn [bind]. rewrite E'. reflexivity.
Qed.

Lemma max_drawdown_extension_witness :
  exists v v',
    PerformanceAnalyzer.calculate_max_drawdown [100; 90] = Ok v /\
    PerformanceAnalyzer.calculate_max_drawdown ([100; 90] ++ [120; 60]) = Ok v' /\
    v <= v'.
Proof.
  apply (@max_drawdown_extension [100; 90] [120; 60]); repeat constructor.
Defined.

(** X3: on non-negative prices [calculate_max_drawdown] raises
    [ZeroDivisionError] exactly when the list has at least two prices and
    the first two are both 0; in every other case it returns a value. *)
Theorem max_drawdown_raises_iff (P : list Q) :
  Forall (fun p => 0 <= p) P ->
  (PerformanceAnalyzer.calculate_max_drawdown P = Raise ZeroDivisionError <->
   (2 <= length P)%nat /\ nth 0 P 0 == 0 /\ nth 1 P 0 == 0) /\
  ((exists v, PerformanceAnalyzer.calculate_max_drawdown P = Ok v) \/
   PerformanceAnalyzer.calculate_max_drawdown P = Raise ZeroDivisionError).
Proof.
  intro HP.
  destruct P as [|a [|b t]].
  - split; [|left; exists 0; reflexivity].
    split; [discriminate|]. simpl. intros [H _]. lia.
  - split; [|left; exists 0; reflexivity].
    split; [discriminate|]. simpl. intros [H _]. lia.
  - inversion HP as [|? ? Ha Hbt]; subst.
    inversion Hbt as [|? ? Hb Ht]; subst.
    rewrite max_drawdown_as_loop by (simpl; lia).
    cbn [for_in nth].
    destruct (Qgtb b a) eqn:G.
    + (* the second price becomes the peak, and it is positive *)
      assert (Hstep : PerformanceAnalyzer.drawdown_step b (a, 0) = Ok (b, 0)).
      { unfold PerformanceAnalyzer.drawdown_step. cbv zeta. cbn [fst snd].
        rewrite G. apply Qgtb_lt in G.
        assert (Hz : Qeq_bool b 0 = false)
          by (apply Qeq_bool_false_iff; intro H0; lra).
        unfold truediv. rewrite Hz. cbn [bind].
        assert (Hd : (b - b) / b == 0) by (field; intro H0; lra).
        assert (G2 : Qgtb ((b - b) / b) 0 = false)
          by (apply Qgtb_le; rewrite Hd; lra).
        rewrite G2. reflexivity. }
      rewrite Hstep. cbn [bind].
      apply Qgtb_lt in G.
      destruct (@max_drawdown_loop t b 0 Ht) as [pk [dd [E _]]]; try lra.
      rewrite E. cbn [bind].
      split; [|left; eexists; reflexivity].
      split; [discriminate|]. intros [_ [_ Hb0]]. lra.
    + destruct (Qeq_bool a 0) eqn:Hz.
      * assert (Hstep : PerformanceAnalyzer.drawdown_step b (a, 0)
                        = Raise ZeroDivisionError).
        { unfold PerformanceAnalyzer.drawdown_step. cbv zeta. cbn [fst snd].
          rewrite G. unfold truediv. rewrite Hz. reflexivity. }
        rewrite Hstep. cbn [bind].
        split; [|right; reflexivity].
        split; [|reflexivity].
        intros _. apply Qeq_bool_iff in Hz. apply Qgtb_le in G.
        split; [simpl; lia|]. split; [exact Hz|lra].
      * apply Qgtb_le in G.
        pose proof Hz as Hz'. apply Qeq_bool_false_iff in Hz'.
        assert (Ha' : 0 < a).
        { destruct (Qlt_le_dec 0 a) as [L|L]; [exact L|]. exfalso. apply Hz'. lra. }
        destruct (drawdown_step_bounds Ha' Hb G) as [D0 D1].
        assert (Hstep : exists dd,
                  PerformanceAnalyzer.drawdown_step b (a, 0) = Ok (a, dd) /\
                  0 <= dd /\ dd <= 1).
        { unfold PerformanceAnalyzer.drawdown_step. cbv zeta. cbn [fst snd].
          apply Qgtb_le in G. rewrite G. unfold truediv. rewrite Hz. cbn [bind].
          destruct (Qgtb ((a - b) / a) 0); eexists; split;
            try reflexivity; split; lra. }
        destruct Hstep as [dd [Hstep [Hd0 Hd1]]].
        rewrite Hstep. cbn [bind].
        destruct (@max_drawdown_loop t a dd Ht Ha' Hd0 Hd1) as [pk [dd' [E _]]].
        rewrite E. cbn [bind].
        split; [|left; eexists; reflexivity].
        split; [discriminate|]. intros [_ [Ha0 _]]. contradiction.
Qed.

Lemma max_drawdown_raises_iff_witness :
  PerformanceAnalyzer.calculate_max_drawdown [0; 0; 5] = Raise ZeroDivisionError /\
  exists v, PerformanceAnalyzer.calculate_max_drawdown [0; 5; 0] = Ok v.
Proof.
  split.
  - apply (proj1 (@max_drawdown_raises_iff [0; 0; 5] ltac:(repeat constructor; discriminate))).
    split; [simpl; lia|]. split; reflexivity.
  - destruct (proj2 (@max_drawdown_raises_iff [0; 5; 0] ltac:(repeat constructor; discriminate)))
      as [H|H]; [exact H|discriminate H].
Defined.

(** ** Changing the unit of the prices *)

Section ScaleFacts.
Import PerformanceAnalyzer.
Variable k : Q.

Lemma Qeq_bool_compat (a a' b b' : Q) :
  a == a' -> b == b' -> Qeq_bool a b = Qeq_bool a' b'.
Proof.
  intros Ha Hb. destruct (Qeq_bool a' b') eqn:E.
  - apply Qeq_bool_iff. apply Qeq_bool_iff in E. rewrite Ha, Hb. exact E.
  - apply Qeq_bool_false_iff. apply Qeq_bool_false_iff in E.
    rewrite Ha, Hb. exact E.
Qed.

Lemma Qgtb_compat (a a' b b' : Q) :
  a == a' -> b == b' -> Qgtb a b = Qgtb a' b'.
Proof.
  intros Ha Hb. destruct (Qgtb a' b') eqn:E.
  - apply Qgtb_lt. apply Qgtb_lt in E. rewrite Ha, Hb. exact E.
  - apply Qgtb_le. apply Qgtb_le in E. rewrite Ha, Hb. exact E.
Qed.

Lemma Qeq_bool_scaled (a : Q) : ~ k == 0 -> Qeq_bool (k * a) 0 = Qeq_bool a 0.
Proof.
  intro Hk. destruct (Qeq_bool a 0) eqn:E.
  - apply Qeq_bool_iff. apply Qeq_bool_iff in E. rewrite E. ring.
  - apply Qeq_bool_false_iff. apply Qeq_bool_false_iff in E.
    intro H. apply Qmult_integral in H. tauto.
Qed.

Lemma simple_returns_scaled (P : list Q) :
  ~ k == 0 ->
  Forall2 Qeq (simple_returns (map (Qmult k) P)) (simple_returns P).
Proof.
  intro Hk. induction P as [|a [|b t] IH]; [constructor|constructor|].
  - change (Forall2 Qeq
              (simple_return (k * a) (k * b) :: simple_returns (map (Qmult k) (b :: t)))
              (simple_return a b :: simple_returns (b :: t))).
    constructor; [|exact IH].
    unfold simple_return. rewrite (Qeq_bool_scaled a Hk).
    destruct (Qeq_bool a 0) eqn:E; [reflexivity|].
    apply Qeq_bool_false_iff in E. field. split; assumption.
Qed.

End ScaleFacts.

(** X4: multiplying every price by the same non-zero factor changes neither
    the returns nor the total return. *)
Theorem returns_scale_invariant (k : Q) (P : list Q) :
  ~ k == 0 ->
  exists R R' T T',
    PerformanceAnalyzer.calculate_returns P = Ok R /\
    PerformanceAnalyzer.calculate_returns (map (Qmult k) P) = Ok R' /\
    Forall2 Qeq R' R /\
    PerformanceAnalyzer.calculate_total_return P = Ok T /\
    PerformanceAnalyzer.calculate_total_return (map (Qmult k) P) = Ok T' /\
    T' == T.
Proof.
  intro Hk.
  exists (PerformanceAnalyzer.simple_returns P),
         (PerformanceAnalyzer.simple_returns (map (Qmult k) P)).
  assert (HT : exists T T',
             PerformanceAnalyzer.calculate_total_return P = Ok T /\
             PerformanceAnalyzer.calculate_total_return (map (Qmult k) P) = Ok T' /\
             T' == T).
  { unfold PerformanceAnalyzer.calculate_total_return. rewrite length_map.
    destruct (length P <? 2)%nat eqn:L.
    - exists 0, 0. repeat split; reflexivity.
    - destruct P as [|a t]; [discriminate L|].
      cbn [map getitem nth_error bind].
      rewrite (Qeq_bool_scaled a Hk).
      destruct (Qeq_bool a 0) eqn:Ez.
      + exists 0, 0. repeat split; reflexivity.
      + rewrite (getlast_last 0) by discriminate.
        change (k * a :: map (Qmult k) t) with (map (Qmult k) (a :: t)).
        rewrite (getlast_last (k * 0)) by discriminate.
        rewrite (@last_map_ne _ _ (Qmult k) (a :: t) 0 (k * 0)) by discriminate.
        cbn [bind]. unfold truediv.
        rewrite (Qeq_bool_scaled a Hk), Ez. cbn [bind].
        eexists. eexists. split; [reflexivity|]. split; [reflexivity|].
        apply Qeq_bool_false_iff in Ez. field. split; assumption. }
  destruct HT as [T [T' [E1 [E2 E3]]]].
  exists T, T'.
  split; [apply calculate_returns_simple|].
  split; [apply calculate_returns_simple|].
  split; [apply simple_returns_scaled; exact Hk|].
  split; [exact E1|]. split; [exact E2|exact E3].
Qed.

Lemma returns_scale_invariant_witness :
  exists R R' T T',
    PerformanceAnalyzer.calculate_returns [100; 110; 0; 5] = Ok R /\
    PerformanceAnalyzer.calculate_returns (map (Qmult (1 # 100)) [100; 110; 0; 5]) = Ok R' /\
    Forall2 Qeq R' R /\
    PerformanceAnalyzer.calculate_total_return [100; 110; 0; 5] = Ok T /\
    PerformanceAnalyzer.calculate_total_return (map (Qmult (1 # 100)) [100; 110; 0; 5]) = Ok T' /\
    T' == T.
Proof.
  apply (@returns_scale_invariant (1 # 100) [100; 110; 0; 5]). discriminate.
Defined.

(** One step of the drawdown loop on a rescaled price. *)
Lemma drawdown_step_scaled (k price peak dd peak2 dd2 : Q) :
  0 < k -> peak2 == k * peak -> dd2 == dd ->
  (exists p d p2 d2,
     PerformanceAnalyzer.drawdown_step price (peak, dd) = Ok (p, d) /\
     PerformanceAnalyzer.drawdown_step (k * price) (peak2, dd2) = Ok (p2, d2) /\
     p2 == k * p /\ d2 == d) \/
  (PerformanceAnalyzer.drawdown_step price (peak, dd) = Raise ZeroDivisionError /\
   PerformanceAnalyzer.drawdown_step (k * price) (peak2, dd2) = Raise ZeroDivisionError).
Proof.
  intros Hk Hp Hd.
  unfold PerformanceAnalyzer.drawdown_step. cbv zeta. cbn [fst snd].
  assert (G : Qgtb (k * price) peak2 = Qgtb price peak).
  { destruct (Qgtb price peak) eqn:E.
    - apply Qgtb_lt. apply Qgtb_lt in E. rewrite Hp. nra.
    - apply Qgtb_le. apply Qgtb_le in E. rewrite Hp. nra. }
  rewrite G.
  set (pk := if Qgtb price peak then price else peak).
  set (pk2 := if Qgtb price peak then k * price else peak2).
  assert (Hpk : pk2 == k * pk).
  { unfold pk, pk2. destruct (Qgtb price peak); [reflexivity|exact Hp]. }
  unfold truediv.
  assert (Hz : Qeq_bool pk2 0 = Qeq_bool pk 0).
  { rewrite <- (@Qeq_bool_scaled k pk) by (intro H0; lra).
    apply Qeq_bool_compat; [exact Hpk|reflexivity]. }
  rewrite Hz.
  destruct (Qeq_bool pk 0) eqn:Ez; cbn [bind].
  - right. split; reflexivity.
  - left. apply Qeq_bool_false_iff in Ez.
    assert (Hq : (pk2 - k * price) / pk2 == (pk - price) / pk).
    { rewrite Hpk. field. split; [exact Ez|intro H0; lra]. }
    rewrite (Qgtb_compat Hq Hd).
    do 4 eexists. split; [reflexivity|]. split; [reflexivity|].
    split; [exact Hpk|].
    destruct (Qgtb ((pk - price) / pk) dd); assumption.
Qed.

(** The drawdown loop on rescaled prices runs in step with the loop on the
    original prices. *)
Lemma drawdown_loop_scaled (k : Q) (l : list Q) (peak dd peak2 dd2 : Q) :
  0 < k -> peak2 == k * peak -> dd2 == dd ->
  match for_in l PerformanceAnalyzer.drawdown_step (peak, dd),
        for_in (map (Qmult k) l) PerformanceAnalyzer.drawdown_step (peak2, dd2) with
  | Ok st, Ok st2 => fst st2 == k * fst st /\ snd st2 == snd st
  | Raise e, Raise e2 => e = e2
  | _, _ => False
  end.
Proof.
  intro Hk. revert peak dd peak2 dd2.
  induction l as [|price l IH]; intros peak dd peak2 dd2 Hp Hd.
  - cbn [map for_in fst snd]. split; assumption.
  - cbn [map for_in].
    destruct (@drawdown_step_scaled k price peak dd peak2 dd2 Hk Hp Hd)
      as [[p [d [p2 [d2 [E1 [E2 [Hp' Hd']]]]]]]|[E1 E2]];
      rewrite E1, E2; cbn [bind].
    + apply IH; assumption.
    + reflexivity.
Qed.

(** X5: multiplying every price by the same positive factor leaves the
    maximum drawdown unchanged, exception included. *)
Theorem max_drawdown_scale_invariant (k : Q) (P : list Q) :
  0 < k ->
  match PerformanceAnalyzer.calculate_max_drawdown P,
        PerformanceAnalyzer.calculate_max_drawdown (map (Qmult k) P) with
  | Ok v, Ok v' => v' == v
  | Raise e, Raise e' => e = e'
  | _, _ => False
  end.
Proof.
  intro Hk.
  unfold PerformanceAnalyzer.calculate_max_drawdown. rewrite length_map.
  destruct (length P <? 2)%nat eqn:L; [reflexivity|].
  destruct P as [|a t]; [discriminate L|].
  cbn [map getitem nth_error bind skipn].
  pose proof (@drawdown_loop_scaled k t a 0 (k * a) 0 Hk
                ltac:(reflexivity) ltac:(reflexivity)) as H.
  destruct (for_in t PerformanceAnalyzer.drawdown_step (a, 0)) as [st|e];
    destruct (for_in (map (Qmult k) t) PerformanceAnalyzer.drawdown_step (k * a, 0))
      as [st2|e2]; cbn [bind]; try contradiction.
  - destruct H as [_ H]. rewrite H. reflexivity.
  - exact H.
Qed.

Lemma max_drawdown_scale_invariant_witness :
  match PerformanceAnalyzer.calculate_max_drawdown [100; 80; 120],
        PerformanceAnalyzer.calculate_max_drawdown (map (Qmult 3) [100; 80; 120]) with
  | Ok v, Ok v' => v' == v
  | Raise e, Raise e' => e = e'
  | _, _ => False
  end.
Proof.
  apply (@max_drawdown_scale_invariant 3 [100; 80; 120]). reflexivity.
Defined.

(** ** Value at risk between the worst and the best return *)

Lemma lerp_upper_bound (hi a b t : Q) :
  a <= hi -> b <= hi -> (0 <= t /\ t <= 1) \/ a == b ->
  lerp a b t <= hi.
Proof.
  intros Ha Hb Ht. unfold lerp. cbv zeta.
  destruct Ht as [[T0 T1]|E].
  - assert (P1 : 0 <= (hi - b) * t) by (apply Qmult_le_0_compat; lra).
    assert (P2 : 0 <= (hi - a) * (1 - t)) by (apply Qmult_le_0_compat; lra).
    destruct (Qle_bool (1 # 2) t); lra.
  - destruct (Qle_bool (1 # 2) t); rewrite E; lra.
Qed.

(** The percentile of a non-empty list, for [q] in [0, 100], lies between
    any two bounds of the list. *)
Lemma np_percentile_bounds (a : list Q) (q lo hi : Q) :
  a <> [] -> 0 <= q -> q <= 100 ->
  (forall x, In x a -> lo <= x /\ x <= hi) ->
  exists p, np_percentile a q = Ok p /\ lo <= p /\ p <= hi.
Proof.
  intros Hne Hq0 Hq100 Hb.
  unfold np_percentile.
  assert (G1 : Qltb q 0 = false) by (apply Qltb_le; exact Hq0).
  assert (G2 : Qgtb q 100 = false) by (apply Qgtb_le; exact Hq100).
  rewrite G1, G2. cbn [orb]. cbv zeta.
  assert (Hn : (1 <= length (sort a))%nat).
  { rewrite sort_length. destruct a; [congruence|simpl; lia]. }
  set (n := length (sort a)) in *.
  set (vi := Qnat (n - 1) * (q / 100)).
  assert (Hvi : 0 <= vi).
  { unfold vi. apply Qmult_le_0_compat; [apply Qnat_nonneg|].
    apply Qle_shift_div_l; lra. }
  assert (Hsorted : forall x, In x (sort a) -> lo <= x /\ x <= hi).
  { intros x Hx. apply Hb. apply sort_In. exact Hx. }
  destruct (Qle_bool (Qnat (n - 1)) vi) eqn:Above.
  - destruct (@getitem_int_In Q (sort a) (-1)%Z) as [x [Gx Ix]]; [fold n; lia|].
    rewrite Gx. cbn [bind].
    eexists. split; [reflexivity|].
    destruct (Hsorted x Ix).
    split; [apply lerp_lower_bound|apply lerp_upper_bound]; auto;
      right; reflexivity.
  - assert (Hlt : vi < Qnat (n - 1)).
    { apply Qnot_le_lt. intro H. apply Qle_bool_iff in H. congruence. }
    assert (F0 : (0 <= Qfloor vi)%Z).
    { change 0%Z with (Qfloor 0). apply Qfloor_resp_le. exact Hvi. }
    assert (F1 : (Qfloor vi < Z.of_nat (n - 1))%Z).
    { rewrite Zlt_Qlt. eapply Qle_lt_trans; [apply Qfloor_le|exact Hlt]. }
    destruct (@getitem_int_In Q (sort a) (Qfloor vi)) as [x [Gx Ix]];
      [fold n; lia|].
    destruct (@getitem_int_In Q (sort a) (Qfloor vi + 1)%Z) as [y [Gy Iy]];
      [fold n; lia|].
    rewrite Gx. cbn [bind]. rewrite Gy. cbn [bind].
    eexists. split; [reflexivity|].
    destruct (Hsorted x Ix). destruct (Hsorted y Iy).
    pose proof (Qfloor_le vi) as L1. pose proof (Qlt_floor vi) as L2.
    rewrite inject_Z_plus in L2. change (inject_Z 1) with 1 in L2.
    split; [apply lerp_lower_bound|apply lerp_upper_bound]; auto;
      left; split; lra.
Qed.

Lemma Qnat_positive (n : nat) : (1 <= n)%nat -> 0 < Qnat n.
Proof.
  intro H. unfold Qnat. change 0 with (inject_Z 0). rewrite <- Zlt_Qlt. lia.
Qed.

Lemma Qsum_bounds (l : list Q) (lo hi : Q) :
  (forall x, In x l -> lo <= x /\ x <= hi) ->
  lo * Qnat (length l) <= Qsum l /\ Qsum l <= hi * Qnat (length l).
Proof.
  intro H. unfold Qsum. induction l as [|x l IH].
  - cbn [fold_right length]. unfold Qnat. change (inject_Z (Z.of_nat 0)) with 0.
    split; lra.
  - assert (E : Qnat (length (x :: l)) == 1 + Qnat (length l)).
    { unfold Qnat. cbn [length]. rewrite Nat2Z.inj_succ, <- Z.add_1_l.
      rewrite inject_Z_plus. reflexivity. }
    rewrite E. cbn [fold_right].
    destruct (H x (or_introl eq_refl)) as [Hlo Hhi].
    destruct IH as [IH1 IH2]; [intros y Hy; apply H; right; exact Hy|].
    split; lra.
Qed.

(** The mean of a non-empty list lies between any two bounds of it. *)
Lemma np_mean_bounds (l : list Q) (lo hi : Q) :
  l <> [] -> (forall x, In x l -> lo <= x /\ x <= hi) ->
  lo <= np_mean l /\ np_mean l <= hi.
Proof.
  intros Hne H. unfold np_mean.
  assert (Hn : 0 < Qnat (length l)).
  { apply Qnat_positive. destruct l; [congruence|simpl; lia]. }
  destruct (Qsum_bounds l H) as [H1 H2].
  split.
  - apply Qle_shift_div_l; assumption.
  - apply Qle_shift_div_r; assumption.
Qed.

(** X6: for at least two returns and a confidence level in [0, 1] the value
    at risk is 100 times a number between the worst and the best return. *)
Theorem var_between_worst_and_best (R : list Q) (confidence lo hi : Q) :
  (2 <= length R)%nat -> 0 <= confidence -> confidence <= 1 ->
  (forall r, In r R -> lo <= r /\ r <= hi) ->
  exists v,
    PerformanceAnalyzer.calculate_var R confidence = Ok v /\
    100 * lo <= v /\ v <= 100 * hi.
Proof.
  intros Hlen Hc0 Hc1 Hb.
  assert (Hne : R <> []) by (destruct R; [simpl in Hlen; lia|discriminate]).
  destruct (@np_percentile_bounds R ((1 - confidence) * 100) lo hi Hne)
    as [p [Ep [Hp1 Hp2]]]; [lra|lra|exact Hb|].
  unfold PerformanceAnalyzer.calculate_var.
  apply Nat.ltb_ge in Hlen. rewrite Hlen, Ep. cbn [bind].
  exists (p * 100). split; [reflexivity|]. split; lra.
Qed.

Lemma var_between_worst_and_best_witness :
  exists v,
    PerformanceAnalyzer.calculate_var [3 # 100; -5 # 100; 1 # 100] (95 # 100) = Ok v /\
    100 * (-5 # 100) <= v /\ v <= 100 * (3 # 100).
Proof.
  apply (@var_between_worst_and_best [3 # 100; -5 # 100; 1 # 100] (95 # 100)).
  - simpl. lia.
  - discriminate.
  - discriminate.
  - intros r [<-|[<-|[<-|[]]]]; split; discriminate.
Defined.

(** X7: in exact arithmetic the conditional value at risk is never above the
    value at risk and never below 100 times the worst return. *)
Theorem cvar_not_above_var (R : list Q) (confidence lo : Q) :
  (2 <= length R)%nat -> 0 <= confidence -> confidence <= 1 ->
  (forall r, In r R -> lo <= r) ->
  exists v cv,
    PerformanceAnalyzer.calculate_var R confidence = Ok v /\
    PerformanceAnalyzer.calculate_cvar R confidence = Ok cv /\
    100 * lo <= cv /\ cv <= v.
Proof.
  intros Hlen Hc0 Hc1 Hlo.
  assert (Hne : R <> []) by (destruct R; [simpl in Hlen; lia|discriminate]).
  destruct (list_minimum Hne) as [m [Im Hm]].
  destruct (@np_percentile_lower_bound R ((1 - confidence) * 100) m Hne)
    as [p [Ep Hp]]; [lra|lra|exact Hm|].
  assert (L : (length R <? 2)%nat = false) by (apply Nat.ltb_ge; exact Hlen).
  assert (Ev : PerformanceAnalyzer.calculate_var R confidence = Ok (p * 100)).
  { unfold PerformanceAnalyzer.calculate_var. rewrite L, Ep. reflexivity. }
  assert (Evar : p * 100 / 100 == p) by field.
  set (tail := PerformanceAnalyzer.tail_returns R (p * 100 / 100)).
  assert (Itail : In m tail).
  { unfold tail, PerformanceAnalyzer.tail_returns. apply filter_In.
    split; [exact Im|]. apply Qle_bool_iff. rewrite Evar. exact Hp. }
  assert (Htail : forall x, In x tail -> lo <= x /\ x <= p).
  { intros x Hx. unfold tail, PerformanceAnalyzer.tail_returns in Hx.
    apply filter_In in Hx. destruct Hx as [Hx Hle].
    apply Qle_bool_iff in Hle. rewrite Evar in Hle.
    split; [apply Hlo; exact Hx|exact Hle]. }
  assert (Hnt : tail <> []) by (intro E; rewrite E in Itail; destruct Itail).
  destruct (np_mean_bounds Hnt Htail) as [M1 M2].
  exists (p * 100), (np_mean tail * 100).
  split; [exact Ev|]. split.
  - unfold PerformanceAnalyzer.calculate_cvar. rewrite L, Ev. cbn [bind]. cbv zeta.
    fold tail. destruct tail; [congruence|reflexivity].
  - split; lra.
Qed.

Lemma cvar_not_above_var_witness :
  exists v cv,
    PerformanceAnalyzer.calculate_var [3 # 100; -5 # 100; 1 # 100; -2 # 100] (90 # 100) = Ok v /\
    PerformanceAnalyzer.calculate_cvar [3 # 100; -5 # 100; 1 # 100; -2 # 100] (90 # 100) = Ok cv /\
    100 * (-5 # 100) <= cv /\ cv <= v.
Proof.
  apply (@cvar_not_above_var [3 # 100; -5 # 100; 1 # 100; -2 # 100] (90 # 100)).
  - simpl. lia.
  - discriminate.
  - discriminate.
  - intros r [<-|[<-|[<-|[<-|[]]]]]; discriminate.
Defined.

(** X8: a confidence level outside [0, 1] makes [calculate_var] and
    [calculate_cvar] raise [ValueError] as soon as there are two returns;
    with fewer returns both give 0 whatever the level. *)
Theorem var_confidence_out_of_range (R : list Q) (confidence : Q) :
  confidence < 0 \/ 1 < confidence ->
  ((2 <= length R)%nat ->
   PerformanceAnalyzer.calculate_var R confidence = Raise ValueError /\
   PerformanceAnalyzer.calculate_cvar R confidence = Raise ValueError) /\
  ((length R < 2)%nat ->
   PerformanceAnalyzer.calculate_var R confidence = Ok 0 /\
   PerformanceAnalyzer.calculate_cvar R confidence = Ok 0).
Proof.
  intro Hc.
  unfold PerformanceAnalyzer.calculate_cvar, PerformanceAnalyzer.calculate_var.
  split; intro Hlen.
  - apply Nat.ltb_ge in Hlen. rewrite Hlen.
    assert (Ep : np_percentile R ((1 - confidence) * 100) = Raise ValueError).
    { unfold np_percentile.
      assert (G : Qltb ((1 - confidence) * 100) 0
                  || Qgtb ((1 - confidence) * 100) 100 = true).
      { apply orb_true_iff. destruct Hc as [Hc|Hc].
        - right. apply Qgtb_lt. lra.
        - left. apply Qltb_lt. lra. }
      rewrite G. reflexivity. }
    rewrite Ep. split; reflexivity.
  - apply Nat.ltb_lt in Hlen. rewrite Hlen. split; reflexivity.
Qed.

Lemma var_confidence_out_of_range_witness :
  PerformanceAnalyzer.calculate_var [1 # 100; 2 # 100] 95 = Raise ValueError /\
  PerformanceAnalyzer.calculate_cvar [1 # 100; 2 # 100] 95 = Raise ValueError.
Proof.
  apply (@var_confidence_out_of_range [1 # 100; 2 # 100] 95).
  - right. reflexivity.
  - simpl. lia.
Defined.

Lemma sort_head_min (l : list Q) (h : Q) (t : list Q) (x : Q) :
  sort l = h :: t -> In x l -> h <= x.
Proof.
  revert h t x. induction l as [|a l IH]; intros h t x Hs Hx; [destruct Hx|].
  cbn [sort fold_right] in Hs. fold (sort l) in Hs.
  destruct (sort l) as [|h' t'] eqn:Es.
  - cbn [insert] in Hs. injection Hs as <- <-.
    destruct Hx as [<-|Hx]; [lra|].
    apply sort_In in Hx. rewrite Es in Hx. destruct Hx.
  - cbn [insert] in Hs. destruct (Qle_bool a h') eqn:E.
    + apply Qle_bool_iff in E. injection Hs as <- <-.
      destruct Hx as [<-|Hx]; [lra|].
      pose proof (IH h' t' x eq_refl Hx). lra.
    + assert (Hlt : h' < a).
      { apply Qnot_le_lt. intro H. apply Qle_bool_iff in H. congruence. }
      injection Hs as <- <-.
      destruct Hx as [<-|Hx]; [lra|].
      apply (IH h' t' x eq_refl Hx).
Qed.

(** X9: at confidence level 1 the value at risk is 100 times the worst
    return of the list. *)
Theorem var_at_full_confidence (R : list Q) :
  (2 <= length R)%nat ->
  exists v m,
    PerformanceAnalyzer.calculate_var R 1 = Ok v /\
    In m R /\ (forall r, In r R -> m <= r) /\
    v == 100 * m.
Proof.
  intro Hlen.
  assert (Hn : length (sort R) = length R) by apply sort_length.
  destruct (sort R) as [|h [|h2 t]] eqn:Es;
    try (simpl in Hn; lia).
  assert (Hh : In h R) by (apply sort_In; rewrite Es; left; reflexivity).
  assert (Hmin : forall r, In r R -> h <= r)
    by (intros r Hr; exact (@sort_head_min R h (h2 :: t) r Es Hr)).
  unfold PerformanceAnalyzer.calculate_var.
  apply Nat.ltb_ge in Hlen. rewrite Hlen.
  unfold np_percentile.
  assert (Eq : (1 - 1) * 100 == 0) by ring.
  assert (G1 : Qltb ((1 - 1) * 100) 0 = false) by (apply Qltb_le; lra).
  assert (G2 : Qgtb ((1 - 1) * 100) 100 = false) by (apply Qgtb_le; lra).
  rewrite G1, G2. cbn [orb]. cbv zeta. rewrite Es.
  set (n1 := (length (h :: h2 :: t) - 1)%nat).
  assert (Hn1 : 0 < Qnat n1) by (apply Qnat_positive; unfold n1; simpl; lia).
  set (vi := Qnat n1 * ((1 - 1) * 100 / 100)).
  assert (Hvi : vi == 0) by (unfold vi; field).
  assert (Above : Qle_bool (Qnat n1) vi = false).
  { destruct (Qle_bool (Qnat n1) vi) eqn:E; [|reflexivity].
    apply Qle_bool_iff in E. lra. }
  rewrite Above.
  assert (Hf : Qfloor vi = 0%Z) by (rewrite Hvi; reflexivity).
  rewrite Hf. cbn [getitem_int Z.ltb Z.compare getitem Z.to_nat nth_error bind
                   Z.add Pos.to_nat Pos.iter_op Nat.add].
  eexists. exists h. split; [reflexivity|].
  split; [exact Hh|]. split; [exact Hmin|].
  unfold lerp. cbv zeta.
  assert (Hg : vi - inject_Z 0 == 0) by (rewrite Hvi; reflexivity).
  assert (Hb : Qle_bool (1 # 2) (vi - inject_Z 0) = false).
  { destruct (Qle_bool (1 # 2) (vi - inject_Z 0)) eqn:E; [|reflexivity].
    apply Qle_bool_iff in E. lra. }
  rewrite Hb. rewrite Hg. ring.
Qed.

Lemma var_at_full_confidence_witness :
  exists v m,
    PerformanceAnalyzer.calculate_var [3 # 100; -5 # 100; 1 # 100] 1 = Ok v /\
    In m [3 # 100; -5 # 100; 1 # 100] /\
    (forall r, In r [3 # 100; -5 # 100; 1 # 100] -> m <= r) /\
    v == 100 * m.
Proof.
  apply (@var_at_full_confidence [3 # 100; -5 # 100; 1 # 100]). simpl. lia.
Defined.

(** ** Annualised return and Calmar ratio *)

Lemma Qpower_nat_succ (a : Q) (n : nat) :
  a ^ Z.of_nat (S n) == a * a ^ Z.of_nat n.
Proof.
  rewrite Nat2Z.inj_succ, <- Z.add_1_l.
  rewrite Qpower_plus' by lia. rewrite Qpower_1_r. reflexivity.
Qed.

Lemma Qpower_nat_below_one (a : Q) (n : nat) :
  0 <= a -> a < 1 -> (1 <= n)%nat ->
  0 <= a ^ Z.of_nat n /\ a ^ Z.of_nat n < 1.
Proof.
  intros H0 H1 Hn. induction n as [|n IH]; [lia|].
  rewrite Qpower_nat_succ.
  destruct n as [|n].
  - change (a ^ Z.of_nat 0) with 1. split; lra.
  - destruct IH as [I0 I1]; [lia|].
    set (b := a ^ Z.of_nat (S n)) in *. split; nra.
Qed.

Lemma Qpower_nat_above_one (a : Q) (n : nat) :
  1 < a -> (1 <= n)%nat -> 1 < a ^ Z.of_nat n.
Proof.
  intros H1 Hn. induction n as [|n IH]; [lia|].
  rewrite Qpower_nat_succ.
  destruct n as [|n].
  - change (a ^ Z.of_nat 0) with 1. lra.
  - assert (I : 1 < a ^ Z.of_nat (S n)) by (apply IH; lia).
    set (b := a ^ Z.of_nat (S n)) in *. nra.
Qed.

(** X10: for a non-empty return list whose mean is at least -1 and at least
    one period per year, the annualised return is at least -1 and has the
    sign of the mean return. *)
Theorem annualized_return_sign (returns : list Q) (periods : nat) :
  returns <> [] -> (1 <= periods)%nat -> -1 <= np_mean returns ->
  let annual := PerformanceAnalyzer.calculate_annualized_return returns periods in
  -1 <= annual /\
  (0 < np_mean returns <-> 0 < annual) /\
  (np_mean returns == 0 <-> annual == 0).
Proof.
  intros Hne Hp Hm. cbv zeta.
  unfold PerformanceAnalyzer.calculate_annualized_return.
  destruct returns as [|r0 rest] eqn:Er; [congruence|]. rewrite <- Er in *.
  cbv zeta.
  set (m := np_mean returns) in *.
  destruct (Qlt_le_dec 0 m) as [Hpos|Hnp].
  - assert (H : 1 < (1 + m) ^ Z.of_nat periods)
      by (apply Qpower_nat_above_one; [lra|exact Hp]).
    split; [lra|]. split; split; intro; lra.
  - destruct (Qlt_le_dec m 0) as [Hneg|Hz].
    + destruct (@Qpower_nat_below_one (1 + m) periods) as [H0 H1];
        [lra|lra|exact Hp|].
      split; [lra|]. split; split; intro; lra.
    + assert (E : m == 0) by lra.
      assert (H : (1 + m) ^ Z.of_nat periods == 1).
      { rewrite E. assert (E1 : 1 + 0 == 1) by ring. rewrite E1. apply Qpower_1. }
      split; [lra|]. split; split; intro; lra.
Qed.

Lemma annualized_return_sign_witness :
  let annual := PerformanceAnalyzer.calculate_annualized_return [1 # 100; -3 # 100] 252 in
  -1 <= annual /\
  (0 < np_mean [1 # 100; -3 # 100] <-> 0 < annual) /\
  (np_mean [1 # 100; -3 # 100] == 0 <-> annual == 0).
Proof.
  apply (@annualized_return_sign [1 # 100; -3 # 100] 252).
  - discriminate.
  - lia.
  - discriminate.
Defined.

(** The maximum drawdown of a positive series: 0 when the series never
    falls, positive when it does. *)
Lemma max_drawdown_positive_value (P : list Q) :
  Forall (fun p => 0 < p) P ->
  exists v,
    PerformanceAnalyzer.calculate_max_drawdown P = Ok v /\
    (PerformanceAnalyzer.never_falls P -> v == 0) /\
    (~ PerformanceAnalyzer.never_falls P -> 0 < v).
Proof.
  intro Hpos.
  destruct P as [|a [|b t]].
  - exists 0. split; [reflexivity|]. split; intro H; [reflexivity|].
    exfalso. apply H. exact I.
  - exists 0. split; [reflexivity|]. split; intro H; [reflexivity|].
    exfalso. apply H. exact I.
  - inversion Hpos as [|? ? Ha Ht]; subst.
    rewrite max_drawdown_as_loop by (simpl; lia).
    destruct (never_falls_dec (a :: b :: t)) as [Hnf|Hnf].
    + destruct (@drawdown_loop_never_falls (b :: t) a a 0 Ht Ha) as [pk E];
        try lra; try reflexivity; [exact Hnf|].
      rewrite E. cbn [bind snd].
      exists (0 * 100). split; [reflexivity|].
      split; intro H; [ring|contradiction].
    + destruct (@drawdown_loop_falls (b :: t) a a 0 Ht Ha) as [pk [dd [E Hdd]]];
        try lra; [exact Hnf|].
      rewrite E. cbn [bind snd].
      exists (dd * 100). split; [reflexivity|].
      split; intro H; [contradiction|lra].
Qed.

(** X11: on positive prices, with at least two returns and two prices, the
    Calmar ratio is returned without an exception; it is 0 when the prices
    never fall, and otherwise it has the sign of the annualised return. *)
Theorem calmar_ratio_sign (returns prices : list Q) :
  (2 <= length returns)%nat -> (2 <= length prices)%nat ->
  Forall (fun p => 0 < p) prices ->
  let annual := PerformanceAnalyzer.calculate_annualized_return returns 252 in
  exists c,
    PerformanceAnalyzer.calculate_calmar_ratio returns prices = Ok c /\
    (PerformanceAnalyzer.never_falls prices -> c = 0) /\
    (~ PerformanceAnalyzer.never_falls prices ->
     (0 < c <-> 0 < annual) /\ (c == 0 <-> annual == 0)).
Proof.
  intros Hr Hp Hpos. cbv zeta.
  unfold PerformanceAnalyzer.calculate_calmar_ratio.
  apply Nat.ltb_ge in Hr. apply Nat.ltb_ge in Hp. rewrite Hr, Hp. cbn [orb].
  cbv zeta.
  destruct (max_drawdown_positive_value Hpos) as [v [E [Hnf Hf]]].
  rewrite E. cbn [bind].
  set (annual := PerformanceAnalyzer.calculate_annualized_return returns 252).
  destruct (Qeq_bool v 0) eqn:Ez.
  - exists 0. split; [reflexivity|]. split; [reflexivity|].
    intro H. apply Hf in H. apply Qeq_bool_iff in Ez. lra.
  - exists (annual / (v / 100)). split; [reflexivity|].
    apply Qeq_bool_false_iff in Ez.
    split.
    + intro H. apply Hnf in H. contradiction.
    + intro H. apply Hf in H.
      assert (Hd : 0 < v / 100) by (apply Qlt_shift_div_l; lra).
      assert (Hc : annual / (v / 100) * (v / 100) == annual)
        by (field; repeat split; try discriminate; intro H0; lra).
      set (c := annual / (v / 100)) in *. set (d := v / 100) in *.
      split; split; intro Hx; nra.
Qed.

Lemma calmar_ratio_sign_witness :
  exists c,
    PerformanceAnalyzer.calculate_calmar_ratio [1 # 10; -2 # 11] [100; 110; 90] = Ok c /\
    (PerformanceAnalyzer.never_falls [100; 110; 90] -> c = 0) /\
    (~ PerformanceAnalyzer.never_falls [100; 110; 90] ->
     (0 < c <-> 0 < PerformanceAnalyzer.calculate_annualized_return [1 # 10; -2 # 11] 252) /\
     (c == 0 <-> PerformanceAnalyzer.calculate_annualized_return [1 # 10; -2 # 11] 252 == 0)).
Proof.
  apply (@calmar_ratio_sign [1 # 10; -2 # 11] [100; 110; 90]).
  - simpl. lia.
  - simpl. lia.
  - repeat constructor.
Defined.

(** ** Market regime *)

Section RegimeFacts.
Import PerformanceAnalyzer.

Lemma get_default_set_same {V : Type} (d : dict V) (k : string) (v dflt : V) :
  get_default (dict_set d k v) k dflt = v.
Proof.
  unfold get_default. induction d as [|[k' v'] d IH]; cbn [dict_set dict_get].
  - rewrite String.eqb_refl. reflexivity.
  - destruct (String.eqb k k') eqn:E; cbn [dict_get].
    + rewrite String.eqb_refl. reflexivity.
    + rewrite E. exact IH.
Qed.

Lemma get_default_set_other {V : Type} (d : dict V) (k x : string) (v dflt : V) :
  x <> k -> get_default (dict_set d k v) x dflt = get_default d x dflt.
Proof.
  intro Hne. unfold get_default.
  induction d as [|[k' v'] d IH]; cbn [dict_set dict_get].
  - apply String.eqb_neq in Hne. rewrite Hne. reflexivity.
  - destruct (String.eqb k k') eqn:E; cbn [dict_get].
    + apply String.eqb_eq in E. subst k'.
      apply String.eqb_neq in Hne. rewrite Hne. reflexivity.
    + destruct (String.eqb x k'); [reflexivity|exact IH].
Qed.

Lemma keys_dict_set {V : Type} (d : dict V) (k x : string) (v : V) :
  In x (keys (dict_set d k v)) <-> x = k \/ In x (keys d).
Proof.
  unfold keys. induction d as [|[k' v'] d IH]; cbn [dict_set map fst In].
  - intuition.
  - destruct (String.eqb k k') eqn:E; cbn [map fst In].
    + apply String.eqb_eq in E. subst k'. intuition.
    + rewrite IH. intuition.
Qed.

Lemma NoDup_keys_dict_set {V : Type} (d : dict V) (k : string) (v : V) :
  NoDup (keys d) -> NoDup (keys (dict_set d k v)).
Proof.
  unfold keys. induction d as [|[k' v'] d IH]; intro H; cbn [dict_set map fst].
  - constructor; [intros []|constructor].
  - inversion H as [|? ? Hnin Hnd]; subst. cbn [fst] in *.
    destruct (String.eqb k k') eqn:E; cbn [map fst].
    + apply String.eqb_eq in E. subst k'. constructor; assumption.
    + constructor; [|apply IH; exact Hnd].
      intro Hin. apply (keys_dict_set d k k' v) in Hin.
      destruct Hin as [Hin|Hin]; [|contradiction].
      subst k'. rewrite String.eqb_refl in E. discriminate.
Qed.

Lemma dict_get_In {V : Type} (d : dict V) (k : string) (v : V) :
  NoDup (keys d) -> In (k, v) d -> dict_get d k = Some v.
Proof.
  unfold keys. induction d as [|[k' v'] d IH]; intros Hnd Hin; [destruct Hin|].
  inversion Hnd as [|? ? Hnin Hnd']; subst. cbn [fst] in *.
  cbn [dict_get]. destruct Hin as [Hin|Hin].
  - injection Hin as -> ->. rewrite String.eqb_refl. reflexivity.
  - destruct (String.eqb k k') eqn:E.
    + apply String.eqb_eq in E. subst k'. exfalso. apply Hnin.
      apply in_map_iff. exists (k, v). split; [reflexivity|exact Hin].
    + apply IH; assumption.
Qed.

(** The counting loop adds the occurrences of each regime to what the dict
    held before. *)
Lemma count_loop_spec (regimes : list string) (acc : dict nat) (x : string) :
  get_default
    (fold_left (fun counts regime =>
                  dict_set counts regime (get_default counts regime 0%nat + 1)%nat)
               regimes acc) x 0%nat
  = (get_default acc x 0%nat + count_occ string_dec regimes x)%nat.
Proof.
  revert acc. induction regimes as [|r regimes IH]; intro acc.
  - cbn [fold_left count_occ]. lia.
  - cbn [fold_left count_occ]. rewrite IH.
    destruct (string_dec r x) as [->|Hne].
    + rewrite get_default_set_same. lia.
    + rewrite get_default_set_other by congruence. lia.
Qed.

Lemma count_loop_keys (regimes : list string) (acc : dict nat) (x : string) :
  In x (keys (fold_left (fun counts regime =>
                  dict_set counts regime (get_default counts regime 0%nat + 1)%nat)
               regimes acc))
  <-> In x (keys acc) \/ In x regimes.
Proof.
  revert acc. induction regimes as [|r regimes IH]; intro acc.
  - cbn [fold_left In]. tauto.
  - cbn [fold_left In]. rewrite IH, keys_dict_set. intuition.
Qed.

Lemma count_loop_NoDup (regimes : list string) (acc : dict nat) :
  NoDup (keys acc) ->
  NoDup (keys (fold_left (fun counts regime =>
                  dict_set counts regime (get_default counts regime 0%nat + 1)%nat)
               regimes acc)).
Proof.
  revert acc. induction regimes as [|r regimes IH]; intros acc H; [exact H|].
  cbn [fold_left]. apply IH. apply NoDup_keys_dict_set. exact H.
Qed.

(** The running maximum is an entry of the dict and no entry has a larger
    count. *)
Lemma max_loop_spec (rest : list (string * nat)) (first : string * nat) :
  let best := fold_left (fun best kv => if (snd best <? snd kv)%nat then kv else best)
                        rest first in
  In best (first :: rest) /\
  forall kv, In kv (first :: rest) -> (snd kv <= snd best)%nat.
Proof.
  revert first. induction rest as [|kv rest IH]; intro first; cbv zeta.
  - cbn [fold_left]. split; [left; reflexivity|].
    intros kv [<-|[]]. lia.
  - cbn [fold_left].
    destruct (snd first <? snd kv)%nat eqn:E.
    + apply Nat.ltb_lt in E. destruct (IH kv) as [Hin Hmax].
      split; [right; exact Hin|].
      intros kv' [<-|Hin'].
      * pose proof (Hmax kv (or_introl eq_refl)). lia.
      * apply Hmax. exact Hin'.
    + apply Nat.ltb_ge in E. destruct (IH first) as [Hin Hmax].
      split.
      * destruct Hin as [Hin|Hin]; [left; exact Hin|right; right; exact Hin].
      * intros kv' [<-|[<-|Hin']].
        -- apply Hmax. left. reflexivity.
        -- pose proof (Hmax first (or_introl eq_refl)). lia.
        -- apply Hmax. right. exact Hin'.
Qed.

End RegimeFacts.

(** X12: for a non-empty mapping, [assess_market_regime] reports a regime
    that occurs among the assets and occurs at least as often as any other;
    the distribution counts every regime exactly; the confidence is the
    share of the dominant regime, above 0 and at most 1. *)
Theorem market_regime_dominant (volatility_results : dict (option string)) :
  volatility_results <> [] ->
  let regimes := map (fun kv => PerformanceAnalyzer.regime_of (snd kv)) volatility_results in
  let r := PerformanceAnalyzer.assess_market_regime volatility_results in
  exists counts,
    PerformanceAnalyzer.regime_distribution r = Some counts /\
    (forall x, get_default counts x 0%nat = count_occ string_dec regimes x) /\
    In (PerformanceAnalyzer.regime r) regimes /\
    (forall x, (count_occ string_dec regimes x
                <= count_occ string_dec regimes (PerformanceAnalyzer.regime r))%nat) /\
    PerformanceAnalyzer.regime_confidence r
    == Qnat (count_occ string_dec regimes (PerformanceAnalyzer.regime r))
       / Qnat (length regimes) /\
    0 < PerformanceAnalyzer.regime_confidence r /\
    PerformanceAnalyzer.regime_confidence r <= 1.
Proof.
  intro Hne. cbv zeta.
  set (regimes := map (fun kv => PerformanceAnalyzer.regime_of (snd kv)) volatility_results).
  set (counts := PerformanceAnalyzer.count_regimes regimes).
  assert (Hspec : forall x, get_default counts x 0%nat = count_occ string_dec regimes x).
  { intro x. unfold counts, PerformanceAnalyzer.count_regimes.
    rewrite count_loop_spec. reflexivity. }
  assert (Hkeys : forall x, In x (keys counts) <-> In x regimes).
  { intro x. unfold counts, PerformanceAnalyzer.count_regimes.
    rewrite count_loop_keys. cbn [keys map In]. tauto. }
  assert (Hnd : NoDup (keys counts)).
  { unfold counts, PerformanceAnalyzer.count_regimes.
    apply count_loop_NoDup. constructor. }
  assert (Hlen : (1 <= length regimes)%nat).
  { unfold regimes. rewrite length_map.
    destruct volatility_results; [congruence|simpl; lia]. }
  assert (Hunfold :
    PerformanceAnalyzer.assess_market_regime volatility_results
    = match PerformanceAnalyzer.max_by_count counts with
      | Some (dominant_regime, _) =>
          {| PerformanceAnalyzer.regime := dominant_regime;
             PerformanceAnalyzer.regime_confidence :=
               Qnat (get_default counts dominant_regime 0%nat) / Qnat (length regimes);
             PerformanceAnalyzer.regime_distribution := Some counts |}
      | None =>
          {| PerformanceAnalyzer.regime := "unknown";
             PerformanceAnalyzer.regime_confidence := 0;
             PerformanceAnalyzer.regime_distribution := None |}
      end).
  { unfold PerformanceAnalyzer.assess_market_regime.
    destruct volatility_results; [congruence|reflexivity]. }
  rewrite Hunfold. clear Hunfold.
  destruct counts as [|first rest] eqn:Ec.
  { exfalso. destruct regimes as [|r0 rs] eqn:Er; [simpl in Hlen; lia|].
    assert (H : In r0 (keys (@nil (string * nat)))) by (apply Hkeys; left; reflexivity).
    destruct H. }
  cbn [PerformanceAnalyzer.max_by_count].
  destruct (max_loop_spec rest first) as [Hin Hmax].
  set (best := fold_left (fun best kv => if (snd best <? snd kv)%nat then kv else best)
                         rest first) in *.
  destruct best as [dom c] eqn:Eb.
  cbn [PerformanceAnalyzer.regime PerformanceAnalyzer.regime_confidence
       PerformanceAnalyzer.regime_distribution].
  assert (Hdom : In dom regimes).
  { apply Hkeys. unfold keys. apply in_map_iff. exists (dom, c).
    split; [reflexivity|exact Hin]. }
  assert (Hc : get_default (first :: rest) dom 0%nat = c).
  { unfold get_default. rewrite (dict_get_In (first :: rest) dom c Hnd Hin).
    reflexivity. }
  assert (Hcount : count_occ string_dec regimes dom = c)
    by (rewrite <- Hspec; exact Hc).
  assert (Hge : forall x, (count_occ string_dec regimes x <= c)%nat).
  { intro x. destruct (in_dec string_dec x regimes) as [Hx|Hx].
    - apply Hkeys in Hx. unfold keys in Hx. apply in_map_iff in Hx.
      destruct Hx as [[x' cx] [Ex Hx]]. cbn [fst] in Ex. subst x'.
      pose proof (Hmax (x, cx) Hx) as Hle. cbn [snd] in Hle.
      rewrite <- Hspec. unfold get_default.
      rewrite (dict_get_In (first :: rest) x cx Hnd Hx). exact Hle.
    - apply (count_occ_not_In string_dec) in Hx. rewrite Hx. lia. }
  assert (Hc1 : (1 <= c)%nat).
  { rewrite <- Hcount. apply (count_occ_In string_dec) in Hdom. lia. }
  assert (Hcn : (c <= length regimes)%nat).
  { rewrite <- Hcount. apply count_occ_bound. }
  exists (first :: rest).
  split; [reflexivity|]. split; [exact Hspec|]. split; [exact Hdom|].
  split; [intro x; rewrite Hcount; apply Hge|].
  rewrite Hc, Hcount.
  assert (Hn : 0 < Qnat (length regimes)) by (apply Qnat_positive; exact Hlen).
  split; [reflexivity|]. split.
  - apply Qlt_shift_div_l; [exact Hn|].
    assert (0 < Qnat c) by (apply Qnat_positive; exact Hc1). lra.
  - apply Qle_shift_div_r; [exact Hn|].
    unfold Qnat. rewrite Qmult_1_l. rewrite <- Zle_Qle. lia.
Qed.

Lemma market_regime_dominant_witness :
  let vr := [("BTC"%string, Some "high_volatility"%string);
             ("ETH"%string, None);
             ("SPY"%string, Some "normal_volatility"%string)] in
  let regimes := map (fun kv => PerformanceAnalyzer.regime_of (snd kv)) vr in
  let r := PerformanceAnalyzer.assess_market_regime vr in
  exists counts,
    PerformanceAnalyzer.regime_distribution r = Some counts /\
    (forall x, get_default counts x 0%nat = count_occ string_dec regimes x) /\
    In (PerformanceAnalyzer.regime r) regimes /\
    (forall x, (count_occ string_dec regimes x
                <= count_occ string_dec regimes (PerformanceAnalyzer.regime r))%nat) /\
    PerformanceAnalyzer.regime_confidence r
    == Qnat (count_occ string_dec regimes (PerformanceAnalyzer.regime r))
       / Qnat (length regimes) /\
    0 < PerformanceAnalyzer.regime_confidence r /\
    PerformanceAnalyzer.regime_confidence r <= 1.
Proof.
  apply (@market_regime_dominant
           [("BTC"%string, Some "high_volatility"%string);
            ("ETH"%string, None);
            ("SPY"%string, Some "normal_volatility"%string)]).
  discriminate.
Defined.

Example market_regime_example :
  let r := PerformanceAnalyzer.assess_market_regime
             [("BTC"%string, Some "high_volatility"%string);
              ("ETH"%string, None);
              ("SPY"%string, Some "normal_volatility"%string)] in
  PerformanceAnalyzer.regime r = "normal_volatility"%string /\
  PerformanceAnalyzer.regime_confidence r == 2 # 3 /\
  PerformanceAnalyzer.regime (PerformanceAnalyzer.assess_market_regime [])
  = "unknown"%string.
Proof. cbv zeta. repeat split; reflexivity. Qed.

(** ** Range of the relative strength index *)

Section RsiRange.
Import TechnicalAnalyzer.

Lemma gain_non_negative (close : list Q) : Forall non_negative (gain close).
Proof.
  unfold gain, where_positive, diff. apply Forall_forall. intros x Hx.
  apply in_map_iff in Hx. destruct Hx as [d [<- Hd]].
  destruct close as [|a rest]; [destruct Hd|].
  destruct Hd as [<-|Hd].
  - exists 0. split; [reflexivity|lra].
  - apply in_map_iff in Hd. destruct Hd as [p [<- _]].
    cbn [fgt]. destruct (Qltb 0 (snd p - fst p)) eqn:E.
    + apply Qltb_lt in E. eexists. split; [reflexivity|lra].
    + exists 0. split; [reflexivity|lra].
Qed.

Lemma loss_non_negative (close : list Q) : Forall non_negative (loss close).
Proof.
  unfold loss, where_negative, diff. apply Forall_forall. intros x Hx.
  apply in_map_iff in Hx. destruct Hx as [y [<- Hy]].
  apply in_map_iff in Hy. destruct Hy as [d [<- Hd]].
  destruct close as [|a rest]; [destruct Hd|].
  destruct Hd as [<-|Hd].
  - exists (- 0). split; [reflexivity|lra].
  - apply in_map_iff in Hd. destruct Hd as [p [<- _]].
    unfold flt. cbn [fgt]. destruct (Qltb (snd p - fst p) 0) eqn:E.
    + apply Qltb_lt in E. eexists. split; [reflexivity|lra].
    + exists (- 0). split; [reflexivity|lra].
Qed.

Lemma finite_sum_non_negative (w : list fl) :
  Forall non_negative w -> exists t, finite_sum w = Some t /\ 0 <= t.
Proof.
  induction 1 as [|x l [d [-> Hd]] Hl [t [E Ht]]].
  - exists 0. split; [reflexivity|lra].
  - cbn [finite_sum]. rewrite E. exists (d + t). split; [reflexivity|lra].
Qed.

Lemma window_mean_non_negative (w : list fl) :
  Forall non_negative w -> non_negative (window_mean w).
Proof.
  intro H. destruct (finite_sum_non_negative H) as [t [E Ht]].
  unfold window_mean. rewrite E. eexists. split; [reflexivity|].
  pose proof (Qnat_nonneg (length w)) as Hn.
  destruct (Qeq_dec (Qnat (length w)) 0) as [Hz|Hz].
  - rewrite Hz. unfold Qdiv. change (/ 0) with 0. lra.
  - apply Qle_shift_div_l; lra.
Qed.

Lemma rolling_mean_non_negative (period : nat) (s : list fl) :
  Forall non_negative s ->
  Forall (fun v => v = NaN \/ non_negative v) (rolling_mean period s).
Proof.
  intro H. unfold rolling_mean. apply Forall_forall. intros v Hv.
  apply in_map_iff in Hv. destruct Hv as [i [<- _]].
  destruct ((period =? 0)%nat || (i + 1 <? period)%nat); [left; reflexivity|].
  right. apply window_mean_non_negative. apply Forall_skipn_firstn. exact H.
Qed.

Lemma rsi_of_rs_range (g l : fl) :
  g = NaN \/ non_negative g -> l = NaN \/ non_negative l ->
  within_0_100 (rsi_of_rs (fdiv g l)).
Proof.
  intros [->|[x [-> Hx]]] Hl; [left; reflexivity|].
  destruct Hl as [->|[y [-> Hy]]]; [left; reflexivity|].
  cbn [fdiv]. destruct (Qeq_bool y 0) eqn:Ey.
  - destruct (Qltb 0 x) eqn:E1.
    + right. unfold rsi_of_rs. cbn. exists (100 + - 0).
      split; [reflexivity|split; lra].
    + destruct (Qltb x 0); [|left; reflexivity].
      right. unfold rsi_of_rs. cbn. exists (100 + - 0).
      split; [reflexivity|split; lra].
  - apply Qeq_bool_false_iff in Ey.
    assert (Hy' : 0 < y) by lra.
    assert (Hr : 0 <= x / y) by (apply Qle_shift_div_l; lra).
    unfold rsi_of_rs. cbn [fadd fdiv].
    assert (E : Qeq_bool (1 + x / y) 0 = false)
      by (apply Qeq_bool_false_iff; intro H0; lra).
    rewrite E. unfold fsub. cbn [fneg fadd].
    right. eexists. split; [reflexivity|].
    assert (H1 : 0 < 100 / (1 + x / y)) by (apply Qlt_shift_div_l; lra).
    assert (H2 : 100 / (1 + x / y) <= 100).
    { apply Qle_shift_div_r; [lra|]. nra. }
    split; lra.
Qed.

End RsiRange.

(** X13: [calculate_rsi] returns one value per close, and every value, the
    current one included, is either NaN or a number from 0 to 100. *)
Theorem rsi_values_range (close : list Q) (period : nat) :
  let r := TechnicalAnalyzer.calculate_rsi close period in
  length (TechnicalAnalyzer.values r) = length close /\
  Forall TechnicalAnalyzer.within_0_100 (TechnicalAnalyzer.values r) /\
  TechnicalAnalyzer.within_0_100 (TechnicalAnalyzer.current_value r).
Proof.
  cbv zeta.
  assert (Hvals : Forall TechnicalAnalyzer.within_0_100
            (TechnicalAnalyzer.values (TechnicalAnalyzer.calculate_rsi close period))).
  { unfold TechnicalAnalyzer.calculate_rsi. cbv zeta.
    cbn [TechnicalAnalyzer.values]. rewrite map_map.
    apply Forall_forall. intros v Hv. apply in_map_iff in Hv.
    destruct Hv as [[g l] [<- Hin]]. cbn [fst snd].
    pose proof (rolling_mean_non_negative period (gain_non_negative close)) as Hg.
    pose proof (rolling_mean_non_negative period (loss_non_negative close)) as Hl.
    rewrite Forall_forall in Hg, Hl.
    apply rsi_of_rs_range.
    - apply Hg. exact (in_combine_l _ _ _ _ Hin).
    - apply Hl. exact (in_combine_r _ _ _ _ Hin). }
  split; [|split; [exact Hvals|]].
  - unfold TechnicalAnalyzer.calculate_rsi. cbv zeta.
    cbn [TechnicalAnalyzer.values]. rewrite !length_map, length_combine.
    unfold TechnicalAnalyzer.avg_gain, TechnicalAnalyzer.avg_loss.
    rewrite !rolling_mean_length, gain_length, loss_length. lia.
  - revert Hvals. unfold TechnicalAnalyzer.calculate_rsi. cbv zeta.
    cbn [TechnicalAnalyzer.values TechnicalAnalyzer.current_value].
    set (rsi := map TechnicalAnalyzer.rsi_of_rs _). intro Hvals.
    destruct rsi as [|r0 rt] eqn:E.
    + right. exists 50. split; [reflexivity|split; lra].
    + rewrite Forall_forall in Hvals. apply Hvals.
      destruct (@exists_last _ (r0 :: rt)) as [l' [x Ex]]; [discriminate|].
      rewrite Ex, last_last. apply in_or_app. right. left. reflexivity.
Qed.

(** ** Moving averages *)

Section MovingAverages.
Import TechnicalAnalyzer.

Lemma rolling_mean_last_entry (period : nat) (s : list fl) :
  s <> [] ->
  last (rolling_mean period s) NaN
  = if (period =? 0)%nat || (length s <? period)%nat then NaN
    else window_mean (firstn period (skipn (length s - period) s)).
Proof.
  intro Hne. unfold rolling_mean.
  destruct (length s) as [|n] eqn:En; [destruct s; [congruence|discriminate]|].
  rewrite seq_S, map_app. cbn [map]. rewrite last_last. cbn [plus].
  replace (n + 1)%nat with (S n) by lia. reflexivity.
Qed.

Lemma finite_sum_Fin (w : list Q) : finite_sum (map Fin w) = Some (Qsum w).
Proof.
  induction w as [|x w IH]; [reflexivity|].
  cbn [map finite_sum]. rewrite IH. reflexivity.
Qed.

Lemma window_mean_Fin (w : list Q) : window_mean (map Fin w) = Fin (np_mean w).
Proof.
  unfold window_mean, np_mean. rewrite finite_sum_Fin, length_map. reflexivity.
Qed.

Lemma last_window (close : list Q) (period : nat) :
  (period <= length close)%nat ->
  firstn period (skipn (length close - period) (map Fin close))
  = map Fin (skipn (length close - period) close).
Proof.
  intro H. rewrite skipn_map. apply firstn_all2.
  rewrite length_map, length_skipn. lia.
Qed.

(** The loop of the exponentially weighted mean keeps every value between
    the bounds of what it has seen. *)
Lemma ewm_loop_bounds (f lo hi : Q) (vals : list Q) :
  0 <= f -> (forall x, In x vals -> lo <= x /\ x <= hi) ->
  forall weighted old_wt, 0 < old_wt -> lo <= weighted -> weighted <= hi ->
  forall y, In y (ewm_loop f weighted old_wt vals) -> lo <= y /\ y <= hi.
Proof.
  intro Hf. induction vals as [|cur rest IH]; intros Hv weighted old_wt Hw Hlo Hhi y Hy.
  - destruct Hy.
  - cbn [ewm_loop] in Hy.
    set (w' := old_wt * f) in *.
    assert (Hw' : 0 <= w') by (unfold w'; nra).
    destruct (Hv cur (or_introl eq_refl)) as [Hc1 Hc2].
    assert (Hb : lo <= (w' * weighted + cur) / (w' + 1)
                 /\ (w' * weighted + cur) / (w' + 1) <= hi).
    { split.
      - apply Qle_shift_div_l; [lra|]. nra.
      - apply Qle_shift_div_r; [lra|]. nra. }
    destruct Hy as [<-|Hy]; [exact Hb|].
    apply (IH (fun x Hx => Hv x (or_intror Hx))
              ((w' * weighted + cur) / (w' + 1)) (w' + 1)); try tauto.
    lra.
Qed.

Lemma ewm_loop_length (f weighted old_wt : Q) (vals : list Q) :
  length (ewm_loop f weighted old_wt vals) = length vals.
Proof.
  revert weighted old_wt. induction vals as [|cur rest IH]; intros; [reflexivity|].
  cbn [ewm_loop length]. rewrite IH. reflexivity.
Qed.

(** With no weight on the past the loop returns its input. *)
Lemma ewm_loop_no_memory (f : Q) (vals : list Q) :
  f == 0 ->
  forall weighted old_wt, Forall2 Qeq (ewm_loop f weighted old_wt vals) vals.
Proof.
  intro Hf. induction vals as [|cur rest IH]; intros weighted old_wt;
    cbn [ewm_loop]; constructor.
  - assert (E : old_wt * f == 0) by (rewrite Hf; ring).
    rewrite E. field.
  - apply IH.
Qed.

Lemma ewm_factor_nonneg (span : nat) :
  (1 <= span)%nat -> 0 <= 1 - 2 / (Qnat span + 1).
Proof.
  intro H. pose proof (@Qnat_positive span H) as Hp.
  assert (Hs : 1 <= Qnat span).
  { unfold Qnat. change 1 with (inject_Z 1). rewrite <- Zle_Qle. lia. }
  assert (2 / (Qnat span + 1) <= 1) by (apply Qle_shift_div_r; lra).
  lra.
Qed.

Lemma ewm_mean_ok (span : nat) (vals : list Q) :
  (1 <= span)%nat ->
  exists out, ewm_mean span vals = Ok out /\ length out = length vals /\
    hd 0 out = hd 0 vals /\
    forall lo hi, (forall x, In x vals -> lo <= x /\ x <= hi) ->
                  forall y, In y out -> lo <= y /\ y <= hi.
Proof.
  intro H. unfold ewm_mean.
  assert (E : (span <? 1)%nat = false) by (apply Nat.ltb_ge; exact H).
  rewrite E. cbv zeta. destruct vals as [|first rest].
  - exists []. repeat split; intros; try reflexivity; contradiction.
  - eexists. split; [reflexivity|]. split; [|split; [reflexivity|]].
    + cbn [length]. rewrite ewm_loop_length. reflexivity.
    + intros lo hi Hb y [<-|Hy]; [apply Hb; left; reflexivity|].
      destruct (Hb first (or_introl eq_refl)) as [H1 H2].
      apply (@ewm_loop_bounds (1 - 2 / (Qnat span + 1)) lo hi rest
               (ewm_factor_nonneg H) (fun x Hx => Hb x (or_intror Hx))
               first 1); [lra|exact H1|exact H2|exact Hy].
Qed.

Lemma ewm_mean_refused (vals : list Q) : ewm_mean 0 vals = Raise ValueError.
Proof. reflexivity. Qed.

Lemma last_In {A : Type} (l : list A) (d : A) : l <> [] -> In (last l d) l.
Proof.
  intro H. destruct (exists_last H) as [l' [x ->]].
  rewrite last_last. apply in_or_app. right. left. reflexivity.
Qed.

Lemma Forall2_Qeq_last (a b : list Q) :
  Forall2 Qeq a b -> last a 0 == last b 0.
Proof.
  induction 1 as [|x y a b Hxy Hab IH]; [reflexivity|].
  destruct Hab as [|x' y' a' b' Hxy' Hab']; [exact Hxy|exact IH].
Qed.

End MovingAverages.

(** X14: [calculate_sma] raises [IndexError] on an empty close series.
    Otherwise it returns one value per close; with a window of 0 or with
    fewer closes than the window the current value is NaN and the signal is
    "bearish"; with enough closes the current value is the mean of the last
    [period] closes and the signal is "bullish" exactly when the last close
    is above that mean. *)
Theorem sma_current_and_signal (close : list Q) (period : nat) :
  (close = [] -> TechnicalAnalyzer.calculate_sma close period = Raise IndexError) /\
  (close <> [] ->
   exists r,
     TechnicalAnalyzer.calculate_sma close period = Ok r /\
     length (TechnicalAnalyzer.sma_values r) = length close /\
     ((period = 0 \/ length close < period)%nat ->
      TechnicalAnalyzer.sma_current r = NaN /\
      TechnicalAnalyzer.sma_signal r = "bearish"%string) /\
     ((1 <= period /\ period <= length close)%nat ->
      let m := np_mean (skipn (length close - period) close) in
      TechnicalAnalyzer.sma_current r = Fin m /\
      (TechnicalAnalyzer.sma_signal r = "bullish"%string <-> m < last close 0) /\
      (TechnicalAnalyzer.sma_signal r = "bearish"%string <-> last close 0 <= m))).
Proof.
  split; [intros ->; reflexivity|].
  intro Hne. unfold TechnicalAnalyzer.calculate_sma. cbv zeta.
  rewrite (getlast_last 0 Hne). cbn [bind].
  eexists. split; [reflexivity|].
  cbn [TechnicalAnalyzer.sma_values TechnicalAnalyzer.sma_current
       TechnicalAnalyzer.sma_signal].
  assert (Hne' : map Fin close <> []) by (destruct close; [congruence|discriminate]).
  rewrite (rolling_mean_last_entry period Hne'), length_map.
  split; [rewrite rolling_mean_length, length_map; reflexivity|].
  split.
  - intros Hp.
    assert (E : (period =? 0)%nat || (length close <? period)%nat = true).
    { apply orb_true_iff. destruct Hp as [Hp|Hp].
      - left. apply Nat.eqb_eq. exact Hp.
      - right. apply Nat.ltb_lt. exact Hp. }
    rewrite E. split; reflexivity.
  - intros [Hp1 Hp2].
    assert (E1 : (period =? 0)%nat = false) by (apply Nat.eqb_neq; lia).
    assert (E2 : (length close <? period)%nat = false) by (apply Nat.ltb_ge; lia).
    rewrite E1, E2. cbn [orb].
    rewrite (last_window close Hp2), window_mean_Fin.
    split; [reflexivity|]. cbn [fgt].
    set (m := np_mean _).
    destruct (Qltb m (last close 0)) eqn:E.
    + apply Qltb_lt in E. split; split; intro H; try reflexivity; try discriminate.
      * exact E.
      * lra.
    + apply Qltb_le in E. split; split; intro H; try reflexivity; try discriminate.
      * lra.
      * exact E.
Qed.

Lemma sma_current_and_signal_witness :
  exists r,
    TechnicalAnalyzer.calculate_sma [10; 12; 17] 2 = Ok r /\
    length (TechnicalAnalyzer.sma_values r) = 3%nat /\
    TechnicalAnalyzer.sma_current r = Fin (np_mean [12; 17]) /\
    TechnicalAnalyzer.sma_signal r = "bullish"%string.
Proof.
  destruct (sma_current_and_signal [10; 12; 17] 2) as [_ H].
  destruct H as [r [E [Hlen [_ H]]]]; [discriminate|].
  destruct H as [Hc [Hs _]]; [simpl; lia|].
  exists r. split; [exact E|]. split; [exact Hlen|]. split; [exact Hc|].
  apply Hs. reflexivity.
Defined.

(** X15: [calculate_ema] raises [ValueError] for a span of 0 and
    [IndexError] on an empty close series.  Otherwise it returns one value
    per close, the first being the first close, and every value, the
    current one included, lies between any two bounds of the closes. *)
Theorem ema_within_closes (close : list Q) (period : nat) :
  (period = 0%nat -> TechnicalAnalyzer.calculate_ema close period = Raise ValueError) /\
  ((1 <= period)%nat -> close = [] ->
   TechnicalAnalyzer.calculate_ema close period = Raise IndexError) /\
  ((1 <= period)%nat -> close <> [] ->
   exists r,
     TechnicalAnalyzer.calculate_ema close period = Ok r /\
     length (TechnicalAnalyzer.ema_values r) = length close /\
     hd 0 (TechnicalAnalyzer.ema_values r) = hd 0 close /\
     forall lo hi, (forall x, In x close -> lo <= x /\ x <= hi) ->
       (forall y, In y (TechnicalAnalyzer.ema_values r) -> lo <= y /\ y <= hi) /\
       lo <= TechnicalAnalyzer.ema_current r /\
       TechnicalAnalyzer.ema_current r <= hi).
Proof.
  split; [intros ->; reflexivity|]. split.
  - intros Hp ->. unfold TechnicalAnalyzer.calculate_ema.
    destruct (@ewm_mean_ok period [] Hp) as [out [E _]]. rewrite E. reflexivity.
  - intros Hp Hne. unfold TechnicalAnalyzer.calculate_ema.
    destruct (@ewm_mean_ok period close Hp) as [out [E [Hlen [Hhd Hb]]]].
    rewrite E. cbn [bind]. rewrite (getlast_last 0 Hne). cbn [bind].
    eexists. split; [reflexivity|].
    cbn [TechnicalAnalyzer.ema_values TechnicalAnalyzer.ema_current].
    split; [exact Hlen|]. split; [exact Hhd|].
    intros lo hi Hc. split; [apply Hb; exact Hc|].
    apply (Hb lo hi Hc). apply last_In.
    destruct out; [destruct close; [congruence|discriminate]|discriminate].
Qed.

Lemma ema_within_closes_witness :
  exists r,
    TechnicalAnalyzer.calculate_ema [10; 12; 17] 2 = Ok r /\
    length (TechnicalAnalyzer.ema_values r) = 3%nat /\
    hd 0 (TechnicalAnalyzer.ema_values r) = 10.
Proof.
  destruct (ema_within_closes [10; 12; 17] 2) as [_ [_ H]].
  destruct H as [r [E [Hlen [Hhd _]]]]; [lia|discriminate|].
  exists r. split; [exact E|]. split; [exact Hlen|exact Hhd].
Defined.

(** X16: with a span of 1 the exponential average puts no weight on the
    past: the EMA series is the close series itself, and the signal is
    "bearish" whatever the closes are. *)
Theorem ema_span_one_is_close (close : list Q) :
  close <> [] ->
  exists r,
    TechnicalAnalyzer.calculate_ema close 1 = Ok r /\
    Forall2 Qeq (TechnicalAnalyzer.ema_values r) close /\
    TechnicalAnalyzer.ema_signal r = "bearish"%string.
Proof.
  intro Hne. unfold TechnicalAnalyzer.calculate_ema, TechnicalAnalyzer.ewm_mean.
  change (1 <? 1)%nat with false. cbv iota zeta.
  destruct close as [|first rest]; [congruence|].
  cbn [bind]. rewrite (getlast_last 0 Hne). cbn [bind].
  eexists. split; [reflexivity|].
  cbn [TechnicalAnalyzer.ema_values TechnicalAnalyzer.ema_signal
       TechnicalAnalyzer.ema_current].
  assert (Hv : Forall2 Qeq
            (first :: TechnicalAnalyzer.ewm_loop (1 - 2 / (Qnat 1 + 1)) first 1 rest)
            (first :: rest)).
  { constructor; [reflexivity|]. apply ewm_loop_no_memory. reflexivity. }
  split; [exact Hv|].
  apply Forall2_Qeq_last in Hv.
  assert (E : Qgtb (last (first :: rest) 0)
                   (last (first :: TechnicalAnalyzer.ewm_loop
                                     (1 - 2 / (Qnat 1 + 1)) first 1 rest) 0)
              = false).
  { apply Qgtb_le. rewrite Hv. apply Qle_refl. }
  rewrite E. reflexivity.
Qed.

Lemma ema_span_one_is_close_witness :
  exists r,
    TechnicalAnalyzer.calculate_ema [10; 12; 17] 1 = Ok r /\
    Forall2 Qeq (TechnicalAnalyzer.ema_values r) [10; 12; 17] /\
    TechnicalAnalyzer.ema_signal r = "bearish"%string.
Proof.
  apply (@ema_span_one_is_close [10; 12; 17]). discriminate.
Defined.

(** ** MACD *)

Section MacdFacts.
Import TechnicalAnalyzer.

Lemma series_sub_length (a b : list Q) :
  length a = length b -> length (series_sub a b) = length a.
Proof.
  intro H. unfold series_sub. rewrite length_map, length_combine. lia.
Qed.

Lemma series_sub_last (a b : list Q) :
  length a = length b ->
  last (series_sub a b) 0 == last a 0 - last b 0.
Proof.
  intro H. destruct a as [|x a'].
  - destruct b; [reflexivity|discriminate].
  - unfold series_sub.
    assert (Hc : combine (x :: a') b <> [])
      by (destruct b; [discriminate|discriminate]).
    rewrite (@last_map_ne _ _ (fun p => fst p - snd p) _ (0, 0) 0 Hc).
    rewrite (@last_combine_ne _ _ (x :: a') b 0 0 (0, 0) H); [|discriminate].
    reflexivity.
Qed.

Lemma series_sub_zero (a b : list Q) (c : Q) :
  (forall x, In x a -> x == c) -> (forall x, In x b -> x == c) ->
  forall y, In y (series_sub a b) -> y == 0.
Proof.
  intros Ha Hb y Hy. unfold series_sub in Hy. apply in_map_iff in Hy.
  destruct Hy as [[u v] [<- Hin]]. cbn [fst snd].
  rewrite (Ha u (in_combine_l _ _ _ _ Hin)), (Hb v (in_combine_r _ _ _ _ Hin)).
  ring.
Qed.

Lemma macd_signal_cases (m s h : Q) :
  h == m - s ->
  let sig := if Qgtb m s && Qgtb h 0 then "bullish"%string
             else if Qltb m s && Qltb h 0 then "bearish"%string
                  else "neutral"%string in
  (sig = "bullish"%string <-> s < m) /\
  (sig = "bearish"%string <-> m < s) /\
  (sig = "neutral"%string <-> m == s).
Proof.
  intro Hh. cbv zeta.
  destruct (Qgtb m s) eqn:E1.
  - apply Qgtb_lt in E1.
    assert (E2 : Qgtb h 0 = true) by (apply Qgtb_lt; lra).
    rewrite E2. cbn [andb].
    repeat split; intro H; try reflexivity; try discriminate; try lra.
  - apply Qgtb_le in E1. cbn [andb].
    destruct (Qltb m s) eqn:E3.
    + apply Qltb_lt in E3.
      assert (E4 : Qltb h 0 = true) by (apply Qltb_lt; lra).
      rewrite E4. cbn [andb].
      repeat split; intro H; try reflexivity; try discriminate; try lra.
    + apply Qltb_le in E3. cbn [andb].
      repeat split; intro H; try reflexivity; try discriminate; try lra.
Qed.

Lemma In_skipn {A : Type} (n : nat) (l : list A) (x : A) :
  In x (skipn n l) -> In x l.
Proof.
  revert n. induction l as [|y l IH]; intros [|n] H; cbn [skipn] in H;
    try exact H. right. exact (IH n H).
Qed.

End MacdFacts.

(** X17: [calculate_macd] raises [ValueError] when one of the three spans is
    0.  Otherwise it returns, also on an empty close series, three lines of
    the length of the close series; the current histogram is the current
    MACD minus the current signal line, so that the second test of each
    branch adds nothing: the signal is "bullish" exactly when the MACD is
    above its signal line, "bearish" exactly when below and "neutral"
    exactly when they are equal. *)
Theorem macd_signal_by_lines (close : list Q) (fast slow signal : nat) :
  ((fast = 0 \/ slow = 0 \/ signal = 0)%nat ->
   TechnicalAnalyzer.calculate_macd close fast slow signal = Raise ValueError) /\
  ((1 <= fast /\ 1 <= slow /\ 1 <= signal)%nat ->
   exists r,
     TechnicalAnalyzer.calculate_macd close fast slow signal = Ok r /\
     length (TechnicalAnalyzer.macd_line r) = length close /\
     length (TechnicalAnalyzer.signal_line r) = length close /\
     length (TechnicalAnalyzer.histogram r) = length close /\
     TechnicalAnalyzer.current_histogram r
     == TechnicalAnalyzer.current_macd r - TechnicalAnalyzer.current_signal r /\
     (TechnicalAnalyzer.macd_signal r = "bullish"%string
      <-> TechnicalAnalyzer.current_signal r < TechnicalAnalyzer.current_macd r) /\
     (TechnicalAnalyzer.macd_signal r = "bearish"%string
      <-> TechnicalAnalyzer.current_macd r < TechnicalAnalyzer.current_signal r) /\
     (TechnicalAnalyzer.macd_signal r = "neutral"%string
      <-> TechnicalAnalyzer.current_macd r == TechnicalAnalyzer.current_signal r)).
Proof.
  split.
  - intro H. unfold TechnicalAnalyzer.calculate_macd.
    destruct fast as [|fast]; [reflexivity|].
    destruct (@ewm_mean_ok (S fast) close) as [e1 [E1 _]]; [lia|].
    rewrite E1. cbn [bind].
    destruct slow as [|slow]; [reflexivity|].
    destruct (@ewm_mean_ok (S slow) close) as [e2 [E2 _]]; [lia|].
    rewrite E2. cbn [bind].
    destruct signal as [|signal]; [reflexivity|]. lia.
  - intros [Hf [Hs Hg]]. unfold TechnicalAnalyzer.calculate_macd.
    destruct (@ewm_mean_ok fast close Hf) as [e1 [E1 [L1 _]]].
    destruct (@ewm_mean_ok slow close Hs) as [e2 [E2 [L2 _]]].
    rewrite E1, E2. cbn [bind].
    destruct (@ewm_mean_ok signal (TechnicalAnalyzer.series_sub e1 e2) Hg)
      as [e3 [E3 [L3 _]]].
    rewrite E3. cbn [bind]. cbv zeta.
    eexists. split; [reflexivity|].
    cbn [TechnicalAnalyzer.macd_line TechnicalAnalyzer.signal_line
         TechnicalAnalyzer.histogram TechnicalAnalyzer.current_macd
         TechnicalAnalyzer.current_signal TechnicalAnalyzer.current_histogram
         TechnicalAnalyzer.macd_signal].
    assert (Lm : length (TechnicalAnalyzer.series_sub e1 e2) = length close)
      by (rewrite series_sub_length; congruence).
    assert (Lh : length (TechnicalAnalyzer.series_sub e1 e2) = length e3)
      by congruence.
    split; [exact Lm|]. split; [congruence|].
    split; [rewrite series_sub_length; congruence|].
    pose proof (series_sub_last _ _ Lh) as Hh.
    split; [exact Hh|].
    exact (macd_signal_cases Hh).
Qed.

Lemma macd_signal_by_lines_witness :
  exists r,
    TechnicalAnalyzer.calculate_macd [10; 12; 17] 12 26 9 = Ok r /\
    length (TechnicalAnalyzer.macd_line r) = 3%nat /\
    TechnicalAnalyzer.current_histogram r
    == TechnicalAnalyzer.current_macd r - TechnicalAnalyzer.current_signal r.
Proof.
  destruct (macd_signal_by_lines [10; 12; 17] 12 26 9) as [_ H].
  destruct H as [r [E [L [_ [_ [Hh _]]]]]]; [lia|].
  exists r. split; [exact E|]. split; [exact L|exact Hh].
Defined.

(** X18: on a flat close series, one in which every close equals the same
    value, and with at least [period] closes, the moving averages report
    "bearish" and the MACD "neutral": the current SMA and EMA equal the
    close, and the three MACD lines are 0 throughout. *)
Theorem flat_series_signals (close : list Q) (c : Q) (period fast slow signal : nat) :
  close <> [] -> (forall x, In x close -> x == c) ->
  (1 <= period)%nat -> (period <= length close)%nat ->
  (1 <= fast)%nat -> (1 <= slow)%nat -> (1 <= signal)%nat ->
  (exists r, TechnicalAnalyzer.calculate_sma close period = Ok r /\
             TechnicalAnalyzer.sma_signal r = "bearish"%string) /\
  (exists r, TechnicalAnalyzer.calculate_ema close period = Ok r /\
             TechnicalAnalyzer.ema_current r == c /\
             TechnicalAnalyzer.ema_signal r = "bearish"%string) /\
  (exists r, TechnicalAnalyzer.calculate_macd close fast slow signal = Ok r /\
             (forall y, In y (TechnicalAnalyzer.macd_line r) -> y == 0) /\
             (forall y, In y (TechnicalAnalyzer.signal_line r) -> y == 0) /\
             (forall y, In y (TechnicalAnalyzer.histogram r) -> y == 0) /\
             TechnicalAnalyzer.macd_signal r = "neutral"%string).
Proof.
  intros Hne Hflat Hp1 Hp2 Hf Hs Hg.
  assert (Hb : forall x, In x close -> c <= x /\ x <= c).
  { intros x Hx. rewrite (Hflat x Hx). split; apply Qle_refl. }
  assert (Hlast : last close 0 == c) by (apply Hflat, last_In, Hne).
  split; [|split].
  - unfold TechnicalAnalyzer.calculate_sma. cbv zeta.
    rewrite (getlast_last 0 Hne). cbn [bind].
    eexists. split; [reflexivity|]. cbn [TechnicalAnalyzer.sma_signal].
    assert (Hne' : map Fin close <> []) by (destruct close; [congruence|discriminate]).
    rewrite (rolling_mean_last_entry period Hne'), length_map.
    assert (E1 : (period =? 0)%nat = false) by (apply Nat.eqb_neq; lia).
    assert (E2 : (length close <? period)%nat = false) by (apply Nat.ltb_ge; lia).
    rewrite E1, E2. cbn [orb].
    rewrite (last_window close Hp2), window_mean_Fin. cbn [fgt].
    assert (Hm : c <= np_mean (skipn (length close - period) close)).
    { apply (@np_mean_bounds _ c c).
      - intro E. apply (f_equal (@length Q)) in E. rewrite length_skipn in E.
        simpl in E. lia.
      - intros x Hx. apply Hb. exact (@In_skipn _ _ _ _ Hx). }
    assert (E : Qltb (np_mean (skipn (length close - period) close)) (last close 0)
                = false) by (apply Qltb_le; lra).
    rewrite E. reflexivity.
  - unfold TechnicalAnalyzer.calculate_ema.
    destruct (@ewm_mean_ok period close Hp1) as [out [E [Hlen [_ Ho]]]].
    rewrite E. cbn [bind]. rewrite (getlast_last 0 Hne). cbn [bind].
    eexists. split; [reflexivity|].
    cbn [TechnicalAnalyzer.ema_current TechnicalAnalyzer.ema_signal].
    assert (Hout : out <> [])
      by (destruct out; [destruct close; [congruence|discriminate]|discriminate]).
    destruct (Ho c c Hb (last out 0) (last_In 0 Hout)) as [H1 H2].
    split; [lra|].
    assert (E' : Qgtb (last close 0) (last out 0) = false) by (apply Qgtb_le; lra).
    rewrite E'. reflexivity.
  - unfold TechnicalAnalyzer.calculate_macd.
    destruct (@ewm_mean_ok fast close Hf) as [e1 [E1 [L1 [_ B1]]]].
    destruct (@ewm_mean_ok slow close Hs) as [e2 [E2 [L2 [_ B2]]]].
    rewrite E1, E2. cbn [bind].
    destruct (@ewm_mean_ok signal (TechnicalAnalyzer.series_sub e1 e2) Hg)
      as [e3 [E3 [L3 [_ B3]]]].
    rewrite E3. cbn [bind]. cbv zeta.
    eexists. split; [reflexivity|].
    cbn [TechnicalAnalyzer.macd_line TechnicalAnalyzer.signal_line
         TechnicalAnalyzer.histogram TechnicalAnalyzer.macd_signal].
    assert (Z1 : forall y, In y (TechnicalAnalyzer.series_sub e1 e2) -> y == 0).
    { apply (@series_sub_zero e1 e2 c).
      - intros x Hx. destruct (B1 c c Hb x Hx). lra.
      - intros x Hx. destruct (B2 c c Hb x Hx). lra. }
    assert (Z3 : forall y, In y e3 -> y == 0).
    { intros y Hy.
      assert (Hz : forall x, In x (TechnicalAnalyzer.series_sub e1 e2)
                             -> 0 <= x /\ x <= 0).
      { intros x Hx. rewrite (Z1 x Hx). split; apply Qle_refl. }
      destruct (B3 0 0 Hz y Hy). lra. }
    assert (Lh : length (TechnicalAnalyzer.series_sub e1 e2) = length e3)
      by congruence.
    assert (Hm : last (TechnicalAnalyzer.series_sub e1 e2) 0 == 0).
    { destruct (TechnicalAnalyzer.series_sub e1 e2) as [|m0 mt] eqn:Em;
        [reflexivity|].
      apply Z1. apply last_In. discriminate. }
    assert (Hs3 : last e3 0 == 0).
    { destruct e3 as [|s0 st]; [reflexivity|]. apply Z3. apply last_In. discriminate. }
    split; [exact Z1|]. split; [exact Z3|]. split.
    + apply (@series_sub_zero _ _ 0); assumption.
    + pose proof (series_sub_last _ _ Lh) as Hh.
      pose proof (macd_signal_cases Hh) as Hc. cbv zeta in Hc.
      destruct Hc as [_ [_ Hn]]. apply Hn. lra.
Qed.

Lemma flat_series_signals_witness :
  (exists r, TechnicalAnalyzer.calculate_sma [7; 7; 7] 2 = Ok r /\
             TechnicalAnalyzer.sma_signal r = "bearish"%string) /\
  (exists r, TechnicalAnalyzer.calculate_ema [7; 7; 7] 2 = Ok r /\
             TechnicalAnalyzer.ema_current r == 7 /\
             TechnicalAnalyzer.ema_signal r = "bearish"%string) /\
  (exists r, TechnicalAnalyzer.calculate_macd [7; 7; 7] 12 26 9 = Ok r /\
             (forall y, In y (TechnicalAnalyzer.macd_line r) -> y == 0) /\
             (forall y, In y (TechnicalAnalyzer.signal_line r) -> y == 0) /\
             (forall y, In y (TechnicalAnalyzer.histogram r) -> y == 0) /\
             TechnicalAnalyzer.macd_signal r = "neutral"%string).
Proof.
  apply (@flat_series_signals [7; 7; 7] 7 2 12 26 9); try (simpl; lia).
  - discriminate.
  - intros x [<-|[<-|[<-|[]]]]; reflexivity.
Defined.

(** ** Shape of the rebalancing trades *)

Section TradeFacts.
Import Portfolio.
Variable positions : list PortfolioPosition.
Variable current_prices : dict Q.
Variable targets : dict Q.

Lemma trades_for_at_most_one (s : string) :
  trades_for positions current_prices targets s = [] \/
  exists t, trades_for positions current_prices targets s = [t].
Proof.
  unfold trades_for.
  destruct (Qgtb _ _); [|left; reflexivity].
  destruct (dict_get current_prices s) as [p|]; [|left; reflexivity].
  destruct (negb _ && _); [|left; reflexivity].
  right. eexists. reflexivity.
Qed.

Lemma traded_symbols_NoDup (l : list string) :
  NoDup l ->
  NoDup (map trade_symbol (flat_map (trades_for positions current_prices targets) l)).
Proof.
  induction 1 as [|s l Hnin Hnd IH]; [constructor|].
  cbn [flat_map]. rewrite map_app.
  destruct (trades_for_at_most_one s) as [E|[t E]]; rewrite E; [exact IH|].
  cbn [map app]. constructor; [|exact IH].
  assert (Hs : trade_symbol t = s)
    by (apply (@trades_for_symbol positions current_prices targets);
        rewrite E; left; reflexivity).
  rewrite Hs. intro Hin. apply in_map_iff in Hin.
  destruct Hin as [t' [Ht' Hin]]. apply in_flat_map in Hin.
  destruct Hin as [s' [Hs' Hin]].
  apply (@trades_for_symbol positions current_prices targets) in Hin. congruence.
Qed.

Lemma trade_shape (s : string) (t : trade) :
  In t (trades_for positions current_prices targets s) ->
  0 < price t /\
  dict_get current_prices s = Some (price t) /\
  threshold positions current_prices < trade_value t /\
  trade_value t == Qabs (difference positions current_prices targets s) /\
  trade_quantity t * price t == trade_value t /\
  (action t = "buy"%string \/ action t = "sell"%string) /\
  (action t = "buy"%string <-> 0 < difference positions current_prices targets s).
Proof.
  unfold trades_for.
  destruct (Qgtb (Qabs (difference positions current_prices targets s))
                 (threshold positions current_prices)) eqn:T; [|intros []].
  apply Qgtb_lt in T.
  destruct (dict_get current_prices s) as [p|]; [|intros []].
  destruct (negb (Qeq_bool p 0) && Qgtb p 0) eqn:G; [|intros []].
  apply andb_true_iff in G. destruct G as [_ G]. apply Qgtb_lt in G.
  intros [<-|[]].
  cbn [price trade_value trade_quantity action].
  set (d := difference positions current_prices targets s) in *.
  split; [exact G|]. split; [reflexivity|]. split; [exact T|].
  split; [reflexivity|]. split.
  - unfold Qdiv. rewrite Qabs_Qmult.
    rewrite (Qabs_pos (/ p)) by (apply Qlt_le_weak, Qinv_lt_0_compat; exact G).
    field. intro H0. lra.
  - destruct (Qgtb d 0) eqn:E.
    + apply Qgtb_lt in E. split; [left; reflexivity|].
      split; intro; [exact E|reflexivity].
    + apply Qgtb_le in E. split; [right; reflexivity|].
      split; intro H; [discriminate|lra].
Qed.

Lemma trade_values_nonneg (l : list trade) :
  (forall t, In t l -> 0 <= trade_value t) -> 0 <= Qsum (map trade_value l).
Proof.
  induction l as [|t l IH]; intro H; cbn [map Qsum fold_right]; [lra|].
  pose proof (H t (or_introl eq_refl)).
  assert (0 <= Qsum (map trade_value l))
    by (apply IH; intros t' Ht'; apply H; right; exact Ht').
  unfold Qsum in *. lra.
Qed.

(** X19: the required trades of [rebalance_portfolio] name pairwise distinct
    symbols, and each trade is priced at the positive current price of its
    symbol, has a value above the dead band of 1% of the portfolio value,
    that value being the gap between target and current value, satisfies
    quantity times price = value, and is a "buy" exactly when the target
    value is above the current value and a "sell" otherwise; the turnover
    rate is never negative. *)
Theorem rebalance_trades_well_formed :
  let summary := rebalance_portfolio positions current_prices targets in
  NoDup (map trade_symbol (required_trades summary)) /\
  number_of_trades summary = length (required_trades summary) /\
  (forall t, In t (required_trades summary) ->
     let s := trade_symbol t in
     let gap := get_default (target_values positions current_prices targets) s 0
                - get_default (current_values positions current_prices) s 0 in
     0 < price t /\
     dict_get current_prices s = Some (price t) /\
     total_portfolio_value summary * (1 # 100) < trade_value t /\
     trade_value t == Qabs gap /\
     trade_quantity t * price t == trade_value t /\
     (action t = "buy"%string \/ action t = "sell"%string) /\
     (action t = "buy"%string <-> 0 < gap)) /\
  0 <= turnover_rate summary.
Proof.
  cbv zeta.
  change (required_trades (rebalance_portfolio positions current_prices targets))
    with (rebalancing_trades positions current_prices targets).
  change (total_portfolio_value (rebalance_portfolio positions current_prices targets))
    with (total_value positions current_prices).
  assert (Hshape : forall t, In t (rebalancing_trades positions current_prices targets) ->
            In t (trades_for positions current_prices targets (trade_symbol t))).
  { intros t Hin. unfold rebalancing_trades in Hin. apply in_flat_map in Hin.
    destruct Hin as [s [_ Hin]].
    rewrite (@trades_for_symbol positions current_prices targets _ _ Hin).
    exact Hin. }
  split; [|split; [reflexivity|split]].
  - unfold rebalancing_trades. apply traded_symbols_NoDup.
    unfold all_symbols. apply NoDup_nodup.
  - intros t Hin. exact (trade_shape _ _ (Hshape t Hin)).
  - unfold rebalance_portfolio. cbv zeta. cbn [turnover_rate].
    destruct (Qltb 0 (total_value positions current_prices)) eqn:E; [|lra].
    apply Qltb_lt in E.
    assert (Hs : 0 <= Qsum (map trade_value
                   (rebalancing_trades positions current_prices targets))).
    { apply trade_values_nonneg. intros t Hin.
      destruct (trade_shape _ _ (Hshape t Hin)) as [_ [_ [_ [Hv _]]]].
      rewrite Hv. apply Qabs_nonneg. }
    assert (0 <= Qsum (map trade_value
                   (rebalancing_trades positions current_prices targets))
                 / total_value positions current_prices)
      by (apply Qle_shift_div_l; lra).
    lra.
Qed.

End TradeFacts.

(** ** Current allocations *)

Section AllocationFacts.
Import Portfolio.
Variable current_prices : dict Q.

Lemma dict_set_fresh {V : Type} (d : dict V) (k : string) (v : V) :
  ~ In k (keys d) -> dict_set d k v = d ++ [(k, v)].
Proof.
  unfold keys. induction d as [|[k' v'] d IH]; intro H; [reflexivity|].
  cbn [dict_set map fst In] in *.
  destruct (String.eqb k k') eqn:E.
  - apply String.eqb_eq in E. subst k'. exfalso. apply H. left. reflexivity.
  - rewrite IH; [reflexivity|]. intro Hin. apply H. right. exact Hin.
Qed.

(** With pairwise distinct symbols the first loop appends one entry per
    position and adds up their values. *)
Lemma valuation_loop (positions : list PortfolioPosition) (d : dict Q) (total : Q) :
  NoDup (map symbol positions) ->
  (forall p, In p positions -> ~ In (symbol p) (keys d)) ->
  let st := fold_left
    (fun st position =>
       let value :=
         match dict_get current_prices (symbol position) with
         | Some current_price => quantity position * current_price
         | None => quantity position * avg_cost position
         end in
       (dict_set (fst st) (symbol position) value, snd st + value))
    positions (d, total) in
  fst st = d ++ map (fun p => (symbol p, position_value current_prices p)) positions /\
  snd st == total + Qsum (map (position_value current_prices) positions).
Proof.
  revert d total. induction positions as [|p positions IH]; intros d total Hnd Hfresh.
  - cbn [fold_left map fst snd Qsum fold_right]. rewrite app_nil_r.
    split; [reflexivity|ring].
  - cbn [fold_left fst snd]. cbv zeta.
    inversion Hnd as [|? ? Hnin Hnd']; subst.
    change (match dict_get current_prices (symbol p) with
            | Some current_price => quantity p * current_price
            | None => quantity p * avg_cost p
            end) with (position_value current_prices p).
    rewrite (@dict_set_fresh _ d (symbol p) (position_value current_prices p)
               (Hfresh p (or_introl eq_refl))).
    destruct (IH (d ++ [(symbol p, position_value current_prices p)])
                 (total + position_value current_prices p) Hnd') as [H1 H2].
    { intros p' Hp' Hin. unfold keys in Hin. rewrite map_app in Hin.
      apply in_app_iff in Hin. destruct Hin as [Hin|[Hin|[]]].
      - exact (Hfresh p' (or_intror Hp') Hin).
      - cbn [fst] in Hin. apply Hnin. rewrite Hin.
        apply in_map. exact Hp'. }
    cbv zeta in H1, H2. split.
    + rewrite H1, <- app_assoc. reflexivity.
    + rewrite H2. cbn [map Qsum fold_right]. unfold Qsum. ring.
Qed.

Lemma Qsum_scaled (l : list (string * Q)) (f : Q -> Q) (k : Q) :
  (forall v, f v == v * k) ->
  Qsum (map snd (map (fun kv => (fst kv, f (snd kv))) l))
  == Qsum (map snd l) * k.
Proof.
  intro Hf. induction l as [|[s v] l IH]; cbn [map fst snd Qsum fold_right].
  - ring.
  - unfold Qsum in IH. rewrite IH, Hf. ring.
Qed.

End AllocationFacts.

(** X20: when the positions name pairwise distinct symbols and the total
    portfolio value is positive, the current allocations of
    [rebalance_portfolio] list the symbols of the positions in order and
    add up to 100. *)
Theorem current_allocations_sum_to_100
    (positions : list Portfolio.PortfolioPosition) (current_prices targets : dict Q) :
  NoDup (map Portfolio.symbol positions) ->
  0 < Portfolio.total_value positions current_prices ->
  let summary := Portfolio.rebalance_portfolio positions current_prices targets in
  keys (Portfolio.current_allocations summary) = map Portfolio.symbol positions /\
  Qsum (map snd (Portfolio.current_allocations summary)) == 100.
Proof.
  intros Hnd Hpos. cbv zeta.
  change (Portfolio.current_allocations
            (Portfolio.rebalance_portfolio positions current_prices targets))
    with (Portfolio.allocations positions current_prices).
  destruct (@valuation_loop current_prices positions [] 0 Hnd) as [H1 H2].
  { intros p _ []. }
  cbv zeta in H1, H2.
  change (fold_left _ positions ([], 0))
    with (Portfolio.valuation positions current_prices) in H1, H2.
  unfold Portfolio.allocations.
  assert (Ht : Qltb 0 (Portfolio.total_value positions current_prices) = true)
    by (apply Qltb_lt; exact Hpos).
  rewrite Ht. unfold Portfolio.current_values. rewrite H1. cbn [app].
  split.
  - unfold keys. rewrite !map_map. reflexivity.
  - rewrite (@Qsum_scaled _ (fun v => v / Portfolio.total_value positions current_prices * 100)
               (100 / Portfolio.total_value positions current_prices)).
    + assert (HS : Qsum (map snd (map (fun p => (Portfolio.symbol p,
                                     Portfolio.position_value current_prices p))
                                    positions))
                   == Portfolio.total_value positions current_prices).
      { rewrite map_map. cbn [snd]. unfold Portfolio.total_value.
        rewrite H2, Qplus_0_l. reflexivity. }
      rewrite HS. field. intro H0. lra.
    + intro v. field. intro H0. lra.
Qed.

Lemma current_allocations_sum_to_100_witness :
  let positions :=
    [ {| Portfolio.symbol := "BTC"; Portfolio.quantity := 2; Portfolio.avg_cost := 100 |};
      {| Portfolio.symbol := "ETH"; Portfolio.quantity := 5; Portfolio.avg_cost := 10 |} ] in
  let summary := Portfolio.rebalance_portfolio positions [("BTC"%string, 150)] [] in
  keys (Portfolio.current_allocations summary) = ["BTC"%string; "ETH"%string] /\
  Qsum (map snd (Portfolio.current_allocations summary)) == 100.
Proof.
  apply (@current_allocations_sum_to_100
           [ {| Portfolio.symbol := "BTC"; Portfolio.quantity := 2; Portfolio.avg_cost := 100 |};
             {| Portfolio.symbol := "ETH"; Portfolio.quantity := 5; Portfolio.avg_cost := 10 |} ]
           [("BTC"%string, 150)] []).
  - repeat constructor; simpl; intuition discriminate.
  - reflexivity.
Defined.

(** With one symbol held in two positions the later value replaces the
    earlier one in the dict while both enter the total, and the allocations
    no longer add up to 100. *)
Example current_allocations_duplicate_symbol :
  let positions :=
    [ {| Portfolio.symbol := "BTC"; Portfolio.quantity := 1; Portfolio.avg_cost := 100 |};
      {| Portfolio.symbol := "BTC"; Portfolio.quantity := 1; Portfolio.avg_cost := 100 |} ] in
  let summary := Portfolio.rebalance_portfolio positions [] [] in
  Qsum (map snd (Portfolio.current_allocations summary)) == 50.
Proof. reflexivity. Qed.

(** ** Historical portfolio values *)

Section PortfolioReturnsFacts.
Import Portfolio.

Lemma fold_min_spec (t : list nat) (x : nat) :
  let m := fold_left Nat.min t x in
  In m (x :: t) /\ forall y, In y (x :: t) -> (m <= y)%nat.
Proof.
  revert x. induction t as [|z t IH]; intro x; cbv zeta; cbn [fold_left].
  - split; [left; reflexivity|]. intros y [<-|[]]. lia.
  - destruct (IH (Nat.min x z)) as [Hin Hle].
    set (m := fold_left Nat.min t (Nat.min x z)) in *. split.
    + destruct Hin as [Hin|Hin]; [|right; right; exact Hin].
      destruct (Nat.min_spec x z) as [[_ E]|[_ E]]; rewrite E in Hin.
      * left. exact Hin.
      * right. left. exact Hin.
    + intros y [<-|[<-|Hy]].
      * pose proof (Hle _ (or_introl eq_refl)). lia.
      * pose proof (Hle _ (or_introl eq_refl)). lia.
      * apply Hle. right. exact Hy.
Qed.

Lemma py_min_spec (l : list nat) :
  l <> [] ->
  exists m, py_min l = Ok m /\ In m l /\ forall y, In y l -> (m <= y)%nat.
Proof.
  destruct l as [|x t]; [congruence|]. intros _.
  exists (fold_left Nat.min t x). split; [reflexivity|].
  exact (fold_min_spec t x).
Qed.

Lemma py_sum_from (l : list Q) (a : Q) : fold_left Qplus l a == a + Qsum l.
Proof.
  revert a. induction l as [|x l IH]; intro a; cbn [fold_left Qsum fold_right].
  - ring.
  - rewrite IH. unfold Qsum. ring.
Qed.

Lemma py_sum_Qsum (l : list Q) : py_sum l == Qsum l.
Proof. unfold py_sum. rewrite py_sum_from. ring. Qed.

Variable positions : list PortfolioPosition.
Variable historical_data : dict (list Q).

Lemma history_lengths_In (n : nat) :
  In n (history_lengths positions historical_data) <->
  exists p data, In p positions /\
                 dict_get historical_data (symbol p) = Some data /\
                 n = length data.
Proof.
  unfold history_lengths. rewrite in_flat_map. split.
  - intros [p [Hp Hn]].
    destruct (dict_get historical_data (symbol p)) as [data|] eqn:E; [|destruct Hn].
    destruct Hn as [<-|[]]. exists p, data. repeat split; assumption.
  - intros [p [data [Hp [E ->]]]]. exists p. split; [exact Hp|].
    rewrite E. left. reflexivity.
Qed.

(** The inner loop returns at a time point inside every history that is
    held, and its result stays between the bounds of the closes, weighted by
    the sum of the weights. *)
Lemma inner_loop_ok (w : string -> Q) (i : nat) (ps : list PortfolioPosition) (pv : Q) :
  (forall p data, In p ps -> dict_get historical_data (symbol p) = Some data ->
                  (i < length data)%nat) ->
  exists v,
    for_in ps
      (fun position portfolio_value =>
         match dict_get historical_data (symbol position) with
         | Some data =>
             price <- getitem data i ;;
             Ok (portfolio_value + w (symbol position) * price)
         | None => Ok portfolio_value
         end) pv = Ok v.
Proof.
  revert pv. induction ps as [|p ps IH]; intros pv H.
  - exists pv. reflexivity.
  - cbn [for_in].
    destruct (dict_get historical_data (symbol p)) as [data|] eqn:E.
    + destruct (@getitem_Ok _ data i (H p data (or_introl eq_refl) E)) as [x [_ G]].
      rewrite G. cbn [bind].
      apply IH. intros p' d' Hp'. apply H. right. exact Hp'.
    + cbn [bind]. apply IH. intros p' d' Hp'. apply H. right. exact Hp'.
Qed.

Lemma inner_loop_bounds (w : string -> Q) (i : nat) (lo hi : Q)
      (ps : list PortfolioPosition) (pv v : Q) :
  (forall p, In p ps ->
     exists data, dict_get historical_data (symbol p) = Some data /\
                  forall x, In x data -> lo <= x /\ x <= hi) ->
  (forall p, In p ps -> 0 <= w (symbol p)) ->
  for_in ps
    (fun position portfolio_value =>
       match dict_get historical_data (symbol position) with
       | Some data =>
           price <- getitem data i ;;
           Ok (portfolio_value + w (symbol position) * price)
       | None => Ok portfolio_value
       end) pv = Ok v ->
  pv + lo * Qsum (map (fun p => w (symbol p)) ps) <= v /\
  v <= pv + hi * Qsum (map (fun p => w (symbol p)) ps).
Proof.
  revert pv. induction ps as [|p ps IH]; intros pv Hd Hw Hv.
  - cbn [for_in] in Hv. injection Hv as <-. cbn [map Qsum fold_right]. split; lra.
  - cbn [for_in] in Hv.
    destruct (Hd p (or_introl eq_refl)) as [data [E Hb]].
    rewrite E in Hv.
    destruct (getitem data i) as [x|e] eqn:G; [|discriminate].
    assert (Hx : In x data).
    { unfold getitem in G. destruct (nth_error data i) as [x'|] eqn:N; [|discriminate].
      injection G as <-. eapply nth_error_In. exact N. }
    cbn [bind] in Hv.
    destruct (IH (pv + w (symbol p) * x)
                 (fun p' Hp' => Hd p' (or_intror Hp'))
                 (fun p' Hp' => Hw p' (or_intror Hp')) Hv) as [H1 H2].
    destruct (Hb x Hx) as [Hx1 Hx2].
    pose proof (Hw p (or_introl eq_refl)) as Hwp.
    cbn [map Qsum fold_right]. unfold Qsum in *.
    set (W := fold_right Qplus 0 (map (fun p => w (symbol p)) ps)) in *.
    set (wp := w (symbol p)) in *.
    split; nra.
Qed.

(** The outer loop appends one value per time point. *)
Lemma outer_loop (n a : nat) (acc : list Q) :
  (forall i, (a <= i < a + n)%nat ->
             exists v, portfolio_value_at positions historical_data i = Ok v) ->
  exists out,
    for_in (seq a n)
      (fun i portfolio_values =>
         portfolio_value <- portfolio_value_at positions historical_data i ;;
         Ok (portfolio_values ++ [portfolio_value])) acc = Ok out /\
    length out = (length acc + n)%nat /\
    forall P : Q -> Prop,
      Forall P acc ->
      (forall i v, (a <= i < a + n)%nat ->
                   portfolio_value_at positions historical_data i = Ok v -> P v) ->
      Forall P out.
Proof.
  revert a acc. induction n as [|n IH]; intros a acc H.
  - exists acc. split; [reflexivity|]. split; [cbn; lia|]. intros P HP _. exact HP.
  - cbn [seq for_in].
    destruct (H a) as [v E]; [lia|]. rewrite E. cbn [bind].
    destruct (IH (S a) (acc ++ [v])) as [out [Eo [Hlen HP]]].
    { intros i Hi. apply H. lia. }
    exists out. split; [exact Eo|]. split.
    + rewrite Hlen, length_app. cbn [length]. lia.
    + intros P Hacc Hstep. apply HP.
      * apply Forall_app. split; [exact Hacc|].
        constructor; [|constructor]. apply (Hstep a v); [lia|exact E].
      * intros i v' Hi. apply Hstep. lia.
Qed.

Lemma dict_build_loop {A V : Type} (key : A -> string) (val : A -> V)
      (l : list A) (d : dict V) :
  NoDup (map key l) ->
  (forall a, In a l -> ~ In (key a) (keys d)) ->
  fold_left (fun w a => dict_set w (key a) (val a)) l d
  = d ++ map (fun a => (key a, val a)) l.
Proof.
  revert d. induction l as [|a l IH]; intros d Hnd Hfresh.
  - cbn [fold_left map]. rewrite app_nil_r. reflexivity.
  - cbn [fold_left map]. inversion Hnd as [|? ? Hnin Hnd']; subst.
    rewrite (@dict_set_fresh _ d (key a) (val a) (Hfresh a (or_introl eq_refl))).
    rewrite IH; [rewrite <- app_assoc; reflexivity|exact Hnd'|].
    intros a' Ha' Hin. unfold keys in Hin. rewrite map_app in Hin.
    apply in_app_iff in Hin. destruct Hin as [Hin|[Hin|[]]].
    + exact (Hfresh a' (or_intror Ha') Hin).
    + cbn [fst] in Hin. apply Hnin. rewrite Hin. apply in_map. exact Ha'.
Qed.

End PortfolioReturnsFacts.

(** X21: [calculate_portfolio_returns] raises [ValueError] when no position
    has a history (in particular for no position at all).  Otherwise it
    returns one value per time point of the shortest history held: the
    result is as long as one of the histories and no longer than any. *)
Theorem portfolio_returns_outcome
    (positions : list Portfolio.PortfolioPosition) (historical_data : dict (list Q)) :
  ((forall p, In p positions -> dict_get historical_data (Portfolio.symbol p) = None) ->
   Portfolio.calculate_portfolio_returns positions historical_data = Raise ValueError) /\
  ((exists p, In p positions /\ dict_get historical_data (Portfolio.symbol p) <> None) ->
   exists values,
     Portfolio.calculate_portfolio_returns positions historical_data = Ok values /\
     (forall p data, In p positions ->
        dict_get historical_data (Portfolio.symbol p) = Some data ->
        (length values <= length data)%nat) /\
     (exists p data, In p positions /\
        dict_get historical_data (Portfolio.symbol p) = Some data /\
        length values = length data)).
Proof.
  split.
  - intro Hnone. unfold Portfolio.calculate_portfolio_returns.
    assert (E : Portfolio.history_lengths positions historical_data = []).
    { destruct (Portfolio.history_lengths positions historical_data) as [|n l] eqn:E;
        [reflexivity|].
      assert (Hin : In n (Portfolio.history_lengths positions historical_data))
        by (rewrite E; left; reflexivity).
      apply history_lengths_In in Hin. destruct Hin as [p [data [Hp [Hd _]]]].
      rewrite (Hnone p Hp) in Hd. discriminate. }
    rewrite E. reflexivity.
  - intros [p0 [Hp0 Hd0]]. unfold Portfolio.calculate_portfolio_returns.
    assert (Hne : Portfolio.history_lengths positions historical_data <> []).
    { destruct (dict_get historical_data (Portfolio.symbol p0)) as [data|] eqn:E;
        [|congruence].
      intro Hnil.
      assert (Hin : In (length data) (Portfolio.history_lengths positions historical_data)).
      { apply history_lengths_In. exists p0, data. repeat split; assumption. }
      rewrite Hnil in Hin. destruct Hin. }
    destruct (py_min_spec Hne) as [m [Em [Hin Hmin]]].
    rewrite Em. cbn [bind].
    apply history_lengths_In in Hin. destruct Hin as [pm [dm [Hpm [Edm Hm]]]].
    assert (Hle : forall p data, In p positions ->
              dict_get historical_data (Portfolio.symbol p) = Some data ->
              (m <= length data)%nat).
    { intros p data Hp E. apply Hmin. apply history_lengths_In.
      exists p, data. repeat split; assumption. }
    destruct (m =? 0)%nat eqn:Ez.
    + apply Nat.eqb_eq in Ez. exists []. split; [reflexivity|].
      split.
      * intros. cbn [length]. lia.
      * exists pm, dm. repeat split; try assumption. cbn [length]. lia.
    + unfold range. rewrite Nat.sub_0_r.
      destruct (@outer_loop positions historical_data m 0 []) as [out [Eo [Hlen _]]].
      { intros i Hi. unfold Portfolio.portfolio_value_at.
        apply (@inner_loop_ok historical_data
                 (fun s => get_default (Portfolio.weights positions) s 0) i positions 0).
        intros p data Hp E. pose proof (Hle p data Hp E). lia. }
      exists out. split; [exact Eo|]. cbn [length] in Hlen. rewrite Hlen.
      split.
      * intros p data Hp E. apply (Hle p data Hp E).
      * exists pm, dm. repeat split; assumption.
Qed.

Lemma portfolio_returns_outcome_witness :
  let positions :=
    [ {| Portfolio.symbol := "BTC"; Portfolio.quantity := 2; Portfolio.avg_cost := 100 |};
      {| Portfolio.symbol := "ETH"; Portfolio.quantity := 5; Portfolio.avg_cost := 10 |} ] in
  let historical_data := [("BTC"%string, [100; 110; 120]); ("ETH"%string, [10; 11])] in
  exists values,
    Portfolio.calculate_portfolio_returns positions historical_data = Ok values /\
    length values = 2%nat.
Proof.
  cbv zeta.
  destruct (portfolio_returns_outcome
    [ {| Portfolio.symbol := "BTC"; Portfolio.quantity := 2; Portfolio.avg_cost := 100 |};
      {| Portfolio.symbol := "ETH"; Portfolio.quantity := 5; Portfolio.avg_cost := 10 |} ]
    [("BTC"%string, [100; 110; 120]); ("ETH"%string, [10; 11])]) as [_ H].
  destruct H as [values [E [Hle [p [data [Hp [Hd Hlen]]]]]]].
  - eexists. split; [left; reflexivity|]. discriminate.
  - exists values. split; [exact E|].
    pose proof (Hle {| Portfolio.symbol := "ETH"; Portfolio.quantity := 5;
                       Portfolio.avg_cost := 10 |} [10; 11]
                    (or_intror (or_introl eq_refl)) eq_refl) as H2.
    cbn [length] in H2.
    destruct Hp as [<-|[<-|[]]]; cbn in Hd; injection Hd as <-;
      cbn [length] in Hlen; lia.
Defined.

Section PortfolioWeights.
Import Portfolio.
Variable positions : list PortfolioPosition.
Variable historical_data : dict (list Q).

(** The run of [calculate_portfolio_returns] when a history is held: every
    time point below the shortest length is evaluated, and what holds of
    each evaluation holds of each returned value. *)
Lemma portfolio_returns_run :
  history_lengths positions historical_data <> [] ->
  exists m values,
    py_min (history_lengths positions historical_data) = Ok m /\
    (forall p data, In p positions ->
       dict_get historical_data (symbol p) = Some data -> (m <= length data)%nat) /\
    calculate_portfolio_returns positions historical_data = Ok values /\
    length values = m /\
    forall P : Q -> Prop,
      (forall i v, (i < m)%nat ->
                   portfolio_value_at positions historical_data i = Ok v -> P v) ->
      Forall P values.
Proof.
  intro Hne. destruct (py_min_spec Hne) as [m [Em [_ Hmin]]].
  assert (Hle : forall p data, In p positions ->
            dict_get historical_data (symbol p) = Some data -> (m <= length data)%nat).
  { intros p data Hp E. apply Hmin. apply history_lengths_In.
    exists p, data. repeat split; assumption. }
  unfold calculate_portfolio_returns. rewrite Em. cbn [bind].
  destruct (m =? 0)%nat eqn:Ez.
  - apply Nat.eqb_eq in Ez. exists m, []. repeat split; try assumption.
    + cbn [length]. lia.
    + intros P _. constructor.
  - unfold range. rewrite Nat.sub_0_r.
    destruct (@outer_loop positions historical_data m 0 []) as [out [Eo [Hlen HP]]].
    { intros i Hi. unfold portfolio_value_at.
      apply (@inner_loop_ok historical_data
               (fun s => get_default (weights positions) s 0) i positions 0).
      intros p data Hp E. pose proof (Hle p data Hp E). lia. }
    exists m, out. repeat split; try assumption.
    intros P Hstep. apply HP; [constructor|].
    intros i v Hi. apply Hstep. lia.
Qed.

Lemma initial_value_positive :
  positions <> [] ->
  Forall (fun p => position_valid p = true) positions ->
  0 < total_initial_value positions /\
  forall p, In p positions -> 0 < quantity p * avg_cost p.
Proof.
  intros Hne Hvalid.
  assert (Hpos : forall p, In p positions -> 0 < quantity p * avg_cost p).
  { intros p Hp. rewrite Forall_forall in Hvalid. pose proof (Hvalid p Hp) as H.
    unfold position_valid in H. apply andb_true_iff in H. destruct H as [H1 H2].
    apply Qltb_lt in H1. apply Qltb_lt in H2. nra. }
  split; [|exact Hpos].
  unfold total_initial_value. rewrite py_sum_Qsum.
  clear Hvalid. induction positions as [|p ps IH]; [congruence|].
  cbn [map Qsum fold_right].
  pose proof (Hpos p (or_introl eq_refl)) as Hp.
  destruct ps as [|p' ps'].
  - cbn [map fold_right]. lra.
  - assert (0 < Qsum (map (fun pos => quantity pos * avg_cost pos) (p' :: ps'))).
    { apply IH; [discriminate|]. intros q Hq. apply Hpos. right. exact Hq. }
    unfold Qsum in *. lra.
Qed.

Lemma Qsum_map_ext_In {A : Type} (f g : A -> Q) (l : list A) :
  (forall a, In a l -> f a == g a) -> Qsum (map f l) == Qsum (map g l).
Proof.
  unfold Qsum. induction l as [|a l IH]; intro H; cbn [map fold_right]; [reflexivity|].
  rewrite IH, (H a (or_introl eq_refl)); [reflexivity|].
  intros a' Ha'. apply H. right. exact Ha'.
Qed.

Lemma Qsum_map_div {A : Type} (f : A -> Q) (k : Q) (l : list A) :
  Qsum (map (fun a => f a / k) l) == Qsum (map f l) / k.
Proof.
  unfold Qsum. induction l as [|a l IH]; cbn [map fold_right].
  - unfold Qdiv. ring.
  - rewrite IH. unfold Qdiv. ring.
Qed.

(** With pairwise distinct symbols and valid positions every position gets
    its share of the initial cost as weight, and the weights add up to 1. *)
Lemma weights_shares :
  positions <> [] -> NoDup (map symbol positions) ->
  Forall (fun p => position_valid p = true) positions ->
  (forall p, In p positions ->
     get_default (weights positions) (symbol p) 0
     = quantity p * avg_cost p / total_initial_value positions) /\
  (forall p, In p positions -> 0 <= get_default (weights positions) (symbol p) 0) /\
  Qsum (map (fun p => get_default (weights positions) (symbol p) 0) positions) == 1.
Proof.
  intros Hne Hnd Hvalid.
  destruct (initial_value_positive Hne Hvalid) as [Htot Hpos].
  assert (Hw : weights positions
               = map (fun p => (symbol p,
                                quantity p * avg_cost p / total_initial_value positions))
                     positions).
  { unfold weights.
    assert (E : Qgtb (total_initial_value positions) 0 = true)
      by (apply Qgtb_lt; exact Htot).
    rewrite E.
    rewrite (@dict_build_loop _ _ symbol
               (fun p => quantity p * avg_cost p / total_initial_value positions)
               positions [] Hnd); [reflexivity|].
    intros a _ []. }
  assert (Hget : forall p, In p positions ->
            get_default (weights positions) (symbol p) 0
            = quantity p * avg_cost p / total_initial_value positions).
  { intros p Hp. unfold get_default.
    rewrite (@dict_get_In _ (weights positions) (symbol p)
               (quantity p * avg_cost p / total_initial_value positions)).
    - reflexivity.
    - rewrite Hw. unfold keys. rewrite map_map. exact Hnd.
    - rewrite Hw. apply in_map_iff. exists p. split; [reflexivity|exact Hp]. }
  split; [exact Hget|]. split.
  - intros p Hp. rewrite (Hget p Hp).
    apply Qle_shift_div_l; [exact Htot|]. pose proof (Hpos p Hp). lra.
  - rewrite (@Qsum_map_ext_In _ _
               (fun p => quantity p * avg_cost p / total_initial_value positions)).
    + rewrite Qsum_map_div.
      assert (E : Qsum (map (fun p => quantity p * avg_cost p) positions)
                  == total_initial_value positions)
        by (unfold total_initial_value; rewrite py_sum_Qsum; reflexivity).
      rewrite E. field. intro H0. lra.
    + intros p Hp. rewrite (Hget p Hp). reflexivity.
Qed.

End PortfolioWeights.

(** X22: when the positions are valid (positive quantity and average cost),
    name pairwise distinct symbols and each has a history whose closes lie
    between [lo] and [hi], [calculate_portfolio_returns] returns values that
    all lie between [lo] and [hi]: each is an average of the closes of one
    time point, weighted by the shares of the initial cost. *)
Theorem portfolio_values_within_prices
    (positions : list Portfolio.PortfolioPosition) (historical_data : dict (list Q))
    (lo hi : Q) :
  positions <> [] ->
  NoDup (map Portfolio.symbol positions) ->
  Forall (fun p => Portfolio.position_valid p = true) positions ->
  (forall p, In p positions ->
     exists data, dict_get historical_data (Portfolio.symbol p) = Some data /\
                  forall x, In x data -> lo <= x /\ x <= hi) ->
  exists values,
    Portfolio.calculate_portfolio_returns positions historical_data = Ok values /\
    forall v, In v values -> lo <= v /\ v <= hi.
Proof.
  intros Hne Hnd Hvalid Hheld.
  assert (Hl : Portfolio.history_lengths positions historical_data <> []).
  { destruct positions as [|p0 ps]; [congruence|].
    destruct (Hheld p0 (or_introl eq_refl)) as [data [E _]].
    intro Hnil.
    assert (Hin : In (length data)
                     (Portfolio.history_lengths (p0 :: ps) historical_data)).
    { apply history_lengths_In. exists p0, data.
      split; [left; reflexivity|]. split; [exact E|reflexivity]. }
    rewrite Hnil in Hin. destruct Hin. }
  destruct (@portfolio_returns_run positions historical_data Hl) as [m [values [_ [_ [E [_ HP]]]]]].
  exists values. split; [exact E|].
  apply Forall_forall. apply HP. intros i v _ Hv.
  destruct (@weights_shares positions Hne Hnd Hvalid) as [_ [Hw Hsum]].
  unfold Portfolio.portfolio_value_at in Hv.
  destruct (@inner_loop_bounds historical_data
              (fun s => get_default (Portfolio.weights positions) s 0)
              i lo hi positions 0 v Hheld Hw Hv) as [H1 H2].
  cbv beta in H1, H2. rewrite Hsum in H1, H2. lra.
Qed.

Lemma portfolio_values_within_prices_witness :
  let positions :=
    [ {| Portfolio.symbol := "BTC"; Portfolio.quantity := 2; Portfolio.avg_cost := 100 |};
      {| Portfolio.symbol := "ETH"; Portfolio.quantity := 5; Portfolio.avg_cost := 10 |} ] in
  let historical_data := [("BTC"%string, [100; 110; 120]); ("ETH"%string, [10; 11])] in
  exists values,
    Portfolio.calculate_portfolio_returns positions historical_data = Ok values /\
    forall v, In v values -> 10 <= v /\ v <= 120.
Proof.
  apply (@portfolio_values_within_prices
    [ {| Portfolio.symbol := "BTC"; Portfolio.quantity := 2; Portfolio.avg_cost := 100 |};
      {| Portfolio.symbol := "ETH"; Portfolio.quantity := 5; Portfolio.avg_cost := 10 |} ]
    [("BTC"%string, [100; 110; 120]); ("ETH"%string, [10; 11])] 10 120).
  - discriminate.
  - repeat constructor; simpl; intuition discriminate.
  - repeat constructor.
  - intros p [<-|[<-|[]]]; eexists; (split; [reflexivity|]);
      intros x Hx; simpl in Hx;
      repeat (destruct Hx as [<-|Hx]; [split; discriminate|]); destruct Hx.
Defined.

(** ** Volatility *)

Section VolatilityFacts.
Import PerformanceAnalyzer.

Lemma Qsum_nonneg (l : list Q) : (forall x, In x l -> 0 <= x) -> 0 <= Qsum l.
Proof.
  unfold Qsum. induction l as [|x l IH]; intro H; cbn [fold_right]; [lra|].
  pose proof (H x (or_introl eq_refl)).
  assert (0 <= fold_right Qplus 0 l) by (apply IH; intros y Hy; apply H; right; exact Hy).
  lra.
Qed.

Lemma Qsum_zero_terms (l : list Q) :
  (forall x, In x l -> 0 <= x) -> Qsum l == 0 -> forall x, In x l -> x == 0.
Proof.
  unfold Qsum. induction l as [|y l IH]; intros Hpos Hz x Hx; [destruct Hx|].
  cbn [fold_right] in Hz.
  pose proof (Hpos y (or_introl eq_refl)) as Hy.
  assert (Hl : 0 <= fold_right Qplus 0 l)
    by (apply (Qsum_nonneg l); intros z Hz'; apply Hpos; right; exact Hz').
  destruct Hx as [<-|Hx]; [lra|].
  apply IH; [intros z Hz'; apply Hpos; right; exact Hz'|lra|exact Hx].
Qed.

Lemma Qsum_map_scale {A : Type} (g : A -> Q) (k : Q) (l : list A) :
  Qsum (map (fun a => k * g a) l) == k * Qsum (map g l).
Proof.
  unfold Qsum. induction l as [|a l IH]; cbn [map fold_right]; [ring|].
  rewrite IH. ring.
Qed.

Lemma Qsum_map_affine (k c : Q) (l : list Q) :
  Qsum (map (fun r => k * r + c) l) == k * Qsum l + c * Qnat (length l).
Proof.
  unfold Qsum. induction l as [|a l IH].
  - cbn [map fold_right length]. unfold Qnat.
    change (inject_Z (Z.of_nat 0)) with 0. ring.
  - assert (E : Qnat (length (a :: l)) == 1 + Qnat (length l)).
    { unfold Qnat. cbn [length]. rewrite Nat2Z.inj_succ, <- Z.add_1_l.
      rewrite inject_Z_plus. reflexivity. }
    rewrite E. cbn [map fold_right]. rewrite IH. ring.
Qed.

Lemma np_mean_affine (k c : Q) (l : list Q) :
  l <> [] -> np_mean (map (fun r => k * r + c) l) == k * np_mean l + c.
Proof.
  intro Hne. unfold np_mean. rewrite length_map, Qsum_map_affine.
  assert (Hn : 0 < Qnat (length l)).
  { apply Qnat_positive. destruct l; [congruence|simpl; lia]. }
  field. intro H0. lra.
Qed.

Lemma np_var_affine (k c : Q) (l : list Q) :
  np_var_ddof1 (map (fun r => k * r + c) l) == k * k * np_var_ddof1 l.
Proof.
  destruct l as [|a l'].
  - unfold np_var_ddof1. cbn [map Qsum fold_right length]. unfold Qdiv. ring.
  - set (l := a :: l').
    assert (Hm : np_mean (map (fun r => k * r + c) l) == k * np_mean l + c)
      by (apply np_mean_affine; discriminate).
    unfold np_var_ddof1. cbv zeta. rewrite length_map, map_map.
    rewrite (@Qsum_map_ext _
               (fun x => (k * x + c - np_mean (map (fun r => k * r + c) l))
                         * (k * x + c - np_mean (map (fun r => k * r + c) l)))
               (fun x => (k * k) * ((x - np_mean l) * (x - np_mean l)))).
    + rewrite Qsum_map_scale. unfold Qdiv. ring.
    + intro x. rewrite Hm. ring.
Qed.

Lemma np_var_nonneg (l : list Q) : 0 <= np_var_ddof1 l.
Proof.
  unfold np_var_ddof1. cbv zeta.
  assert (Hs : 0 <= Qsum (map (fun v => (v - np_mean l) * (v - np_mean l)) l)).
  { apply Qsum_nonneg. intros x Hx. apply in_map_iff in Hx.
    destruct Hx as [v [<- _]]. apply Qsquare_nonneg. }
  pose proof (Qnat_nonneg (length l - 1)) as Hn.
  destruct (Qeq_dec (Qnat (length l - 1)) 0) as [Hz|Hz].
  - rewrite Hz. unfold Qdiv. change (/ 0) with 0. lra.
  - apply Qle_shift_div_l; lra.
Qed.

(** The sample variance of at least two numbers is 0 exactly when they are
    all equal. *)
Lemma np_var_zero_iff (l : list Q) :
  (2 <= length l)%nat ->
  (np_var_ddof1 l == 0 <-> forall x, In x l -> x == hd 0 l).
Proof.
  intro Hlen.
  assert (Hne : l <> []) by (destruct l; [simpl in Hlen; lia|discriminate]).
  assert (Hn : 0 < Qnat (length l - 1)) by (apply Qnat_positive; lia).
  assert (Hhd : In (hd 0 l) l) by (destruct l; [congruence|left; reflexivity]).
  unfold np_var_ddof1. cbv zeta.
  set (S := Qsum (map (fun v => (v - np_mean l) * (v - np_mean l)) l)).
  assert (Hsq : forall y, In y (map (fun v => (v - np_mean l) * (v - np_mean l)) l)
                          -> 0 <= y).
  { intros y Hy. apply in_map_iff in Hy. destruct Hy as [v [<- _]].
    apply Qsquare_nonneg. }
  split.
  - intro Hz.
    assert (HS : S == 0).
    { assert (E : S == S / Qnat (length l - 1) * Qnat (length l - 1))
        by (field; intro H0; lra).
      rewrite E, Hz. ring. }
    assert (Hall : forall x, In x l -> x == np_mean l).
    { intros x Hx.
      assert (Hx0 : (x - np_mean l) * (x - np_mean l) == 0).
      { apply (Qsum_zero_terms _ Hsq HS). apply in_map_iff.
        exists x. split; [reflexivity|exact Hx]. }
      assert (x - np_mean l == 0) by nra. lra. }
    intros x Hx. rewrite (Hall x Hx), (Hall _ Hhd). reflexivity.
  - intro Hall.
    assert (Hm : np_mean l == hd 0 l).
    { destruct (@np_mean_bounds l (hd 0 l) (hd 0 l) Hne).
      - intros x Hx. rewrite (Hall x Hx). split; apply Qle_refl.
      - lra. }
    assert (HS : S == 0).
    { unfold S.
      rewrite (@Qsum_map_ext_In _ _ (fun _ => 0 * 0)).
      - rewrite Qsum_map_scale. ring.
      - intros x Hx. rewrite (Hall x Hx), Hm. ring. }
    rewrite HS. unfold Qdiv. ring.
Qed.

Lemma sqrt_252_positive : (0 < R_sqrt.sqrt 252)%R.
Proof. apply sqrt_lt_R0. Lra.lra. Qed.

Lemma Q2R_nonneg (q : Q) : 0 <= q -> (0 <= Q2R q)%R.
Proof. intro H. apply Qle_Rle in H. rewrite RMicromega.Q2R_0 in H. exact H. Qed.

Lemma np_std_nonneg (l : list Q) : (0 <= np_std_ddof1 l)%R.
Proof. unfold np_std_ddof1. apply sqrt_pos. Qed.

Lemma np_std_zero_iff (l : list Q) :
  np_std_ddof1 l = 0%R <-> np_var_ddof1 l == 0.
Proof.
  unfold np_std_ddof1. pose proof (Q2R_nonneg (np_var_nonneg l)) as Hv. split.
  - intro H. apply sqrt_eq_0 in H; [|exact Hv].
    apply eqR_Qeq. rewrite H, RMicromega.Q2R_0. reflexivity.
  - intro H. apply Qeq_eqR in H. rewrite H, RMicromega.Q2R_0. apply sqrt_0.
Qed.

Lemma np_std_affine (k c : Q) (l : list Q) :
  np_std_ddof1 (map (fun r => k * r + c) l)
  = (Rabs (Q2R k) * np_std_ddof1 l)%R.
Proof.
  unfold np_std_ddof1.
  rewrite (Qeq_eqR _ _ (np_var_affine k c l)), !Q2R_mult.
  rewrite sqrt_mult_alt; [|apply Rle_0_sqr].
  change (Q2R k * Q2R k)%R with (Rsqr (Q2R k)).
  rewrite sqrt_Rsqr_abs. reflexivity.
Qed.

End VolatilityFacts.

(** X23: [calculate_volatility] is never negative and is 0 with fewer than
    two returns; in exact arithmetic, for at least two returns it is 0
    exactly when all returns are equal. *)
Theorem volatility_zero_iff_constant (returns : list Q) (annualized : bool) :
  (0 <= PerformanceAnalyzer.calculate_volatility returns annualized)%R /\
  ((length returns < 2)%nat ->
   PerformanceAnalyzer.calculate_volatility returns annualized = 0%R) /\
  ((2 <= length returns)%nat ->
   (PerformanceAnalyzer.calculate_volatility returns annualized = 0%R
    <-> forall x, In x returns -> x == hd 0 returns)).
Proof.
  unfold PerformanceAnalyzer.calculate_volatility.
  pose proof (np_std_nonneg returns) as Hs.
  pose proof sqrt_252_positive as H252.
  destruct (length returns <? 2)%nat eqn:E.
  - apply Nat.ltb_lt in E. split; [Lra.lra|]. split; [reflexivity|]. intro. lia.
  - apply Nat.ltb_ge in E. cbv zeta. split; [|split; [intro; lia|]].
    + destruct annualized; Lra.nra.
    + intros _. rewrite <- (@np_var_zero_iff returns E), <- np_std_zero_iff.
      destruct annualized; split; intro H; Lra.nra.
Qed.

Lemma volatility_zero_iff_constant_witness :
  PerformanceAnalyzer.calculate_volatility [1 # 100; 1 # 100; 1 # 100] true = 0%R.
Proof.
  destruct (volatility_zero_iff_constant [1 # 100; 1 # 100; 1 # 100] true)
    as [_ [_ H]].
  apply H; [simpl; lia|].
  intros x [<-|[<-|[<-|[]]]]; reflexivity.
Defined.

(** The direction from equal returns to a volatility of 0 is a fact of exact
    arithmetic.  On binary64 numbers the mean of [0.1, 0.1, 0.1] is
    0.10000000000000002, the deviations are not 0 and the annualised
    volatility is about 2.7e-14; equal returns that are sums of few powers
    of two, such as 0.5, do give 0. *)
Example binary64_constant_returns_volatility :
  let returns := [Binary64.r_0_1; Binary64.r_0_1; Binary64.r_0_1] in
  PrimFloat.ltb 0 (Binary64.calculate_volatility returns true) = true /\
  PrimFloat.ltb (Binary64.calculate_volatility returns true) 0x1p-40%float = true /\
  Binary64.calculate_volatility [0.5; 0.5; 0.5]%float true = 0%float.
Proof. vm_compute. repeat split; reflexivity. Qed.

(** X24: replacing every return [r] by [k * r + c] multiplies the volatility
    by the absolute value of [k]; in particular shifting all returns by the
    same amount leaves it unchanged. *)
Theorem volatility_affine (returns : list Q) (annualized : bool) (k c : Q) :
  PerformanceAnalyzer.calculate_volatility (map (fun r => k * r + c) returns) annualized
  = (Rabs (Q2R k) * PerformanceAnalyzer.calculate_volatility returns annualized)%R.
Proof.
  unfold PerformanceAnalyzer.calculate_volatility. rewrite length_map.
  destruct (length returns <? 2)%nat; [Lra.lra|].
  cbv zeta. rewrite np_std_affine. destruct annualized; ring.
Qed.

(** ** Volatility regime and Sharpe ratio *)

Section RegimeCriterion.
Import PerformanceAnalyzer.

Lemma sqrt_scaled (y c : R) :
  (0 <= y)%R -> (0 <= c)%R -> (R_sqrt.sqrt (y * (c * c)) = R_sqrt.sqrt y * c)%R.
Proof.
  intros Hy Hc. rewrite sqrt_mult_alt by exact Hy.
  rewrite sqrt_square by exact Hc. reflexivity.
Qed.

Lemma sqrt_lt_iff (a b : R) :
  (0 <= a)%R -> (0 <= b)%R -> (R_sqrt.sqrt a < R_sqrt.sqrt b <-> a < b)%R.
Proof.
  intros Ha Hb. split; intro H.
  - apply sqrt_lt_0_alt. exact H.
  - apply sqrt_lt_1_alt. split; assumption.
Qed.

Lemma vol_compare (x y c s : R) :
  (0 <= x)%R -> (0 <= y)%R -> (0 <= c)%R -> (0 < s)%R ->
  (R_sqrt.sqrt y * s * 100 * c < R_sqrt.sqrt x * s * 100 <-> y * (c * c) < x)%R /\
  (R_sqrt.sqrt x * s * 100 < R_sqrt.sqrt y * s * 100 * c <-> x < y * (c * c))%R.
Proof.
  intros Hx Hy Hc Hs.
  assert (Hyc : (0 <= y * (c * c))%R) by Lra.nra.
  rewrite <- (sqrt_lt_iff Hyc Hx), <- (sqrt_lt_iff Hx Hyc).
  rewrite (sqrt_scaled Hy Hc).
  set (a := R_sqrt.sqrt x). set (b := R_sqrt.sqrt y).
  assert (Hk : (0 < s * 100)%R) by Lra.lra.
  split; split; intro H.
  - apply (Rmult_lt_reg_r (s * 100)); [exact Hk|]. Lra.lra.
  - apply (Rmult_lt_compat_r (s * 100)) in H; [|exact Hk]. Lra.lra.
  - apply (Rmult_lt_reg_r (s * 100)); [exact Hk|]. Lra.lra.
  - apply (Rmult_lt_compat_r (s * 100)) in H; [|exact Hk]. Lra.lra.
Qed.

Lemma volatility_annualized (l : list Q) :
  (2 <= length l)%nat ->
  calculate_volatility l true
  = (R_sqrt.sqrt (Q2R (np_var_ddof1 l)) * R_sqrt.sqrt 252 * 100)%R.
Proof.
  intro H. unfold calculate_volatility, np_std_ddof1.
  apply Nat.ltb_ge in H. rewrite H. reflexivity.
Qed.

End RegimeCriterion.

(** X25: [identify_volatility_regime] answers "insufficient_data" below 30
    returns.  From 30 returns on it compares two sample variances, that of
    the last 20 returns and that of all: "high_volatility" exactly when the
    recent variance is above 2.25 times the overall one, "low_volatility"
    exactly when it is below 0.49 times the overall one, and
    "normal_volatility" in between. *)
Theorem volatility_regime_by_variance (returns : list Q) :
  ((length returns < 30)%nat ->
   PerformanceAnalyzer.identify_volatility_regime returns = "insufficient_data"%string) /\
  ((30 <= length returns)%nat ->
   let recent := np_var_ddof1 (skipn (length returns - 20) returns) in
   let overall := np_var_ddof1 returns in
   (PerformanceAnalyzer.identify_volatility_regime returns = "high_volatility"%string
    <-> (225 # 100) * overall < recent) /\
   (PerformanceAnalyzer.identify_volatility_regime returns = "low_volatility"%string
    <-> recent < (49 # 100) * overall) /\
   (PerformanceAnalyzer.identify_volatility_regime returns = "normal_volatility"%string
    <-> (49 # 100) * overall <= recent /\ recent <= (225 # 100) * overall)).
Proof.
  unfold PerformanceAnalyzer.identify_volatility_regime. split.
  - intro H. apply Nat.ltb_lt in H. rewrite H. reflexivity.
  - intro H. pose proof H as H'. apply Nat.ltb_ge in H'. rewrite H'. cbv zeta.
    assert (Hlen : (2 <= length (skipn (length returns - 20) returns))%nat)
      by (rewrite length_skipn; lia).
    rewrite (@volatility_annualized _ Hlen).
    rewrite (@volatility_annualized returns) by lia.
    set (vr := np_var_ddof1 (skipn (length returns - 20) returns)).
    set (vo := np_var_ddof1 returns).
    pose proof (Q2R_nonneg (np_var_nonneg (skipn (length returns - 20) returns))) as Hr.
    pose proof (Q2R_nonneg (np_var_nonneg returns)) as Ho.
    fold vr in Hr. fold vo in Ho.
    assert (Hhi : (225 # 100) * vo < vr <-> (Q2R vo * (15 / 10 * (15 / 10)) < Q2R vr)%R).
    { replace (15 / 10 * (15 / 10))%R with (Q2R (225 # 100))
        by (unfold Q2R; simpl; Lra.lra).
      rewrite <- Q2R_mult. split; intro Hx.
      - apply Qlt_Rlt. lra.
      - apply Rlt_Qlt in Hx. lra. }
    assert (Hlo : vr < (49 # 100) * vo <-> (Q2R vr < Q2R vo * (7 / 10 * (7 / 10)))%R).
    { replace (7 / 10 * (7 / 10))%R with (Q2R (49 # 100))
        by (unfold Q2R; simpl; Lra.lra).
      rewrite <- Q2R_mult. split; intro Hx.
      - apply Qlt_Rlt. lra.
      - apply Rlt_Qlt in Hx. lra. }
    destruct (@vol_compare (Q2R vr) (Q2R vo) (15 / 10) (R_sqrt.sqrt 252) Hr Ho)
      as [Chi _]; [Lra.lra|exact sqrt_252_positive|].
    destruct (@vol_compare (Q2R vr) (Q2R vo) (7 / 10) (R_sqrt.sqrt 252) Hr Ho)
      as [_ Clo]; [Lra.lra|exact sqrt_252_positive|].
    assert (Hvo : 0 <= vo) by apply np_var_nonneg.
    destruct (Rgt_dec _ _) as [G|G].
    + assert (Hh : (225 # 100) * vo < vr) by (apply Hhi, Chi; exact G).
      split; [|split]; split; intro Hx; try reflexivity; try discriminate;
        try exact Hh; lra.
    + assert (Hh : ~ (225 # 100) * vo < vr).
      { intro Hh. apply G. apply Chi, Hhi. exact Hh. }
      destruct (Rlt_dec _ _) as [L|L].
      * assert (Hl : vr < (49 # 100) * vo) by (apply Hlo, Clo; exact L).
        split; [|split]; split; intro Hx; try reflexivity; try discriminate;
          try exact Hl; try contradiction; lra.
      * assert (Hl : ~ vr < (49 # 100) * vo).
        { intro Hl. apply L. apply Clo, Hlo. exact Hl. }
        split; [|split]; split; intro Hx; try reflexivity; try discriminate;
          try contradiction; lra.
Qed.

Lemma volatility_regime_by_variance_witness :
  let returns := repeat (1 # 100) 29 ++ [5 # 100] in
  PerformanceAnalyzer.identify_volatility_regime [1; 2; 3] = "insufficient_data"%string /\
  (PerformanceAnalyzer.identify_volatility_regime returns = "normal_volatility"%string
   <-> (49 # 100) * np_var_ddof1 returns
       <= np_var_ddof1 (skipn (length returns - 20) returns)
       /\ np_var_ddof1 (skipn (length returns - 20) returns)
          <= (225 # 100) * np_var_ddof1 returns).
Proof.
  cbv zeta. split.
  - destruct (volatility_regime_by_variance [1; 2; 3]) as [H _].
    apply H. simpl. lia.
  - destruct (volatility_regime_by_variance (repeat (1 # 100) 29 ++ [5 # 100]))
      as [_ H].
    destruct H as [_ [_ H]]; [simpl; lia|]. exact H.
Defined.

(** X26: [calculate_sharpe_ratio] is 0 for fewer than two returns and, in
    exact arithmetic, for returns that are all equal.  Otherwise its sign is
    that of the excess of the annualised mean return over the risk-free rate
    of 2%: the volatility in the denominator only scales it. *)
Theorem sharpe_ratio_sign (returns : list Q) :
  ((length returns < 2)%nat ->
   PerformanceAnalyzer.calculate_sharpe_ratio returns = 0%R) /\
  ((2 <= length returns)%nat ->
   ((forall x, In x returns -> x == hd 0 returns) ->
    PerformanceAnalyzer.calculate_sharpe_ratio returns = 0%R) /\
   (~ (forall x, In x returns -> x == hd 0 returns) ->
    let excess := (1 + np_mean returns) ^ 252 - 1 - PerformanceAnalyzer.risk_free_rate in
    ((0 < PerformanceAnalyzer.calculate_sharpe_ratio returns)%R <-> 0 < excess) /\
    (PerformanceAnalyzer.calculate_sharpe_ratio returns = 0%R <-> excess == 0) /\
    ((PerformanceAnalyzer.calculate_sharpe_ratio returns < 0)%R <-> excess < 0))).
Proof.
  unfold PerformanceAnalyzer.calculate_sharpe_ratio. split.
  - intro H. apply Nat.ltb_lt in H. rewrite H. reflexivity.
  - intro H. pose proof H as H'. apply Nat.ltb_ge in H'. rewrite H'. cbv zeta.
    pose proof (np_std_zero_iff returns) as Hz.
    rewrite (@np_var_zero_iff returns H) in Hz.
    destruct (Req_dec_T (PerformanceAnalyzer.np_std_ddof1 returns) 0) as [E|E].
    + split; [reflexivity|]. intro Hn. exfalso. apply Hn. apply Hz. exact E.
    + split; [intro Hc; exfalso; apply E; apply Hz; exact Hc|]. intros _.
      pose proof (np_std_nonneg returns) as Hs.
      pose proof sqrt_252_positive as H252.
      set (a := (1 + np_mean returns) ^ 252 - 1).
      set (rf := PerformanceAnalyzer.risk_free_rate).
      set (d := (PerformanceAnalyzer.np_std_ddof1 returns * R_sqrt.sqrt 252)%R).
      assert (Hd : (0 < d)%R) by (unfold d; Lra.nra).
      assert (Hq : ((Q2R a - Q2R rf) / d * d = Q2R (a - rf))%R).
      { rewrite Q2R_minus. field. Lra.lra. }
      set (q := ((Q2R a - Q2R rf) / d)%R) in *.
      assert (Hpos : (0 < Q2R (a - rf))%R <-> (0 < a - rf)).
      { rewrite <- RMicromega.Q2R_0. split; intro Hx.
        - apply Rlt_Qlt. exact Hx.
        - apply Qlt_Rlt. exact Hx. }
      assert (Hneg : (Q2R (a - rf) < 0)%R <-> (a - rf < 0)).
      { rewrite <- RMicromega.Q2R_0. split; intro Hx.
        - apply Rlt_Qlt. exact Hx.
        - apply Qlt_Rlt. exact Hx. }
      assert (Hzero : (Q2R (a - rf) = 0)%R <-> (a - rf == 0)).
      { rewrite <- RMicromega.Q2R_0. split; intro Hx.
        - apply eqR_Qeq. exact Hx.
        - apply Qeq_eqR. exact Hx. }
      split; [|split].
      * rewrite <- Hpos. split; intro Hx; Lra.nra.
      * rewrite <- Hzero. split; intro Hx; Lra.nra.
      * rewrite <- Hneg. split; intro Hx; Lra.nra.
Qed.

Lemma sharpe_ratio_sign_witness :
  PerformanceAnalyzer.calculate_sharpe_ratio [1 # 100; 1 # 100; 1 # 100] = 0%R.
Proof.
  destruct (sharpe_ratio_sign [1 # 100; 1 # 100; 1 # 100]) as [_ H].
  destruct H as [H _]; [simpl; lia|].
  apply H. intros x [<-|[<-|[<-|[]]]]; reflexivity.
Defined.

(** ** Risk profile *)

Section RiskProfileFacts.
Import RiskAnalyzer.

Lemma min_loop_spec (t : list Q) (x : Q) :
  let m := fold_left (fun m v => if Qltb v m then v else m) t x in
  In m (x :: t) /\ forall y, In y (x :: t) -> m <= y.
Proof.
  revert x. induction t as [|z t IH]; intro x; cbv zeta; cbn [fold_left].
  - split; [left; reflexivity|]. intros y [<-|[]]. apply Qle_refl.
  - destruct (Qltb z x) eqn:E.
    + apply Qltb_lt in E. destruct (IH z) as [Hin Hle]. split.
      * right. exact Hin.
      * intros y [<-|[<-|Hy]].
        -- pose proof (Hle z (or_introl eq_refl)). lra.
        -- apply Hle. left. reflexivity.
        -- apply Hle. right. exact Hy.
    + apply Qltb_le in E. destruct (IH x) as [Hin Hle]. split.
      * destruct Hin as [Hin|Hin]; [left; exact Hin|right; right; exact Hin].
      * intros y [<-|[<-|Hy]].
        -- apply Hle. left. reflexivity.
        -- pose proof (Hle x (or_introl eq_refl)). lra.
        -- apply Hle. right. exact Hy.
Qed.

Lemma min_of_spec (l : list Q) :
  l <> [] ->
  exists m, min_of l = Ok m /\ In m l /\ forall y, In y l -> m <= y.
Proof.
  destruct l as [|x t]; [congruence|]. intros _.
  eexists. split; [reflexivity|]. exact (min_loop_spec t x).
Qed.

(** Dividing by [N] instead of [N - 1] never gives the larger variance. *)
Lemma np_var_below_sample (l : list Q) :
  (2 <= length l)%nat -> np_var l <= np_var_ddof1 l.
Proof.
  intro H. unfold np_var, np_var_ddof1. cbv zeta.
  set (S := Qsum (map (fun v => (v - np_mean l) * (v - np_mean l)) l)).
  assert (HS : 0 <= S).
  { apply Qsum_nonneg. intros x Hx. apply in_map_iff in Hx.
    destruct Hx as [v [<- _]]. apply Qsquare_nonneg. }
  assert (Hn1 : 0 < Qnat (length l - 1)) by (apply Qnat_positive; lia).
  assert (Hn : Qnat (length l) == Qnat (length l - 1) + 1).
  { unfold Qnat. rewrite <- (inject_Z_plus _ 1). apply inject_Z_injective. lia. }
  assert (Ht : 0 <= S / Qnat (length l - 1)) by (apply Qle_shift_div_l; lra).
  assert (E : S == S / Qnat (length l - 1) * Qnat (length l - 1))
    by (field; intro H0; lra).
  apply Qle_shift_div_r; [lra|].
  set (t := S / Qnat (length l - 1)) in *. nra.
Qed.

Lemma np_std_nonneg_population (l : list Q) : (0 <= np_std l)%R.
Proof. unfold np_std. apply sqrt_pos. Qed.

Lemma np_std_below_sample (l : list Q) :
  (2 <= length l)%nat -> (np_std l <= PerformanceAnalyzer.np_std_ddof1 l)%R.
Proof.
  intro H. unfold np_std, PerformanceAnalyzer.np_std_ddof1.
  apply sqrt_le_1_alt. apply Qle_Rle. apply np_var_below_sample. exact H.
Qed.

End RiskProfileFacts.

(** X27: [assess_risk_profile] answers "insufficient data" below 10 returns.
    From 10 returns on it returns a profile in which the risk score lies
    between 0 and 10 and is above 5 exactly at the level "very_high"; the
    volatility, a population standard deviation, is not above the sample
    volatility of [calculate_volatility]; the maximum loss is 100 times the
    smallest return and is not above the 95% value at risk; and the
    volatility factor agrees with the risk level: "high" with "high" and
    "very_high", "moderate" with "medium", "low" with "low" and
    "very_low". *)
Theorem risk_profile_consistent (returns : list Q) :
  ((length returns < 10)%nat ->
   RiskAnalyzer.assess_risk_profile returns = Ok RiskAnalyzer.InsufficientData) /\
  ((10 <= length returns)%nat ->
   exists p,
     RiskAnalyzer.assess_risk_profile returns = Ok (RiskAnalyzer.Profile p) /\
     (0 <= RiskAnalyzer.risk_score p)%R /\
     (RiskAnalyzer.risk_score p <= 10)%R /\
     (RiskAnalyzer.risk_level p = "very_high"%string
      <-> (5 < RiskAnalyzer.risk_score p)%R) /\
     (RiskAnalyzer.volatility p
      <= PerformanceAnalyzer.calculate_volatility returns true)%R /\
     (exists m, In m returns /\ (forall r, In r returns -> m <= r) /\
                RiskAnalyzer.maximum_loss p = m * 100) /\
     RiskAnalyzer.maximum_loss p <= RiskAnalyzer.var_95 p /\
     (RiskAnalyzer.volatility_risk (RiskAnalyzer.factors p) = "high"%string
      <-> RiskAnalyzer.risk_level p = "very_high"%string
          \/ RiskAnalyzer.risk_level p = "high"%string) /\
     (RiskAnalyzer.volatility_risk (RiskAnalyzer.factors p) = "moderate"%string
      <-> RiskAnalyzer.risk_level p = "medium"%string) /\
     (RiskAnalyzer.volatility_risk (RiskAnalyzer.factors p) = "low"%string
      <-> RiskAnalyzer.risk_level p = "low"%string
          \/ RiskAnalyzer.risk_level p = "very_low"%string)).
Proof.
  unfold RiskAnalyzer.assess_risk_profile. split.
  - intro H. apply Nat.ltb_lt in H. rewrite H. reflexivity.
  - intro H. pose proof H as H'. apply Nat.ltb_ge in H'. rewrite H'. cbv zeta.
    assert (Hne : returns <> []) by (destruct returns; [simpl in H; lia|discriminate]).
    destruct (min_of_spec Hne) as [m [Em [Hin Hmin]]].
    destruct (@np_percentile_lower_bound returns 5 m Hne) as [pc [Ep Hpc]];
      [lra|lra|exact Hmin|].
    rewrite Ep, Em. cbn [bind].
    eexists. split; [reflexivity|].
    cbn [RiskAnalyzer.risk_score RiskAnalyzer.risk_level RiskAnalyzer.volatility
         RiskAnalyzer.maximum_loss RiskAnalyzer.var_95 RiskAnalyzer.factors
         RiskAnalyzer.volatility_risk].
    pose proof (np_std_nonneg_population returns) as Hs.
    pose proof sqrt_252_positive as H252.
    assert (Hsample : (RiskAnalyzer.np_std returns
                       <= PerformanceAnalyzer.np_std_ddof1 returns)%R)
      by (apply np_std_below_sample; lia).
    set (v := (RiskAnalyzer.np_std returns * R_sqrt.sqrt 252 * 100)%R).
    assert (Hv : (0 <= v)%R) by (unfold v; Lra.nra).
    assert (Hscore : (Rmin (v / 10) 10 <= 10)%R) by apply Rmin_r.
    assert (Hscore0 : (0 <= Rmin (v / 10) 10)%R)
      by (apply Rmin_glb; Lra.lra).
    assert (Hscore5 : (5 < Rmin (v / 10) 10)%R <-> (v > 50)%R).
    { unfold Rmin. destruct (Rle_dec (v / 10) 10); split; intro Hx; Lra.lra. }
    split; [exact Hscore0|]. split; [exact Hscore|].
    split; [|split; [|split; [|split]]].
    + rewrite Hscore5.
      destruct (Rgt_dec v 50); [split; intro; [assumption|reflexivity]|].
      destruct (Rgt_dec v 30); [split; intro Hx; [discriminate|contradiction]|].
      destruct (Rgt_dec v 15); [split; intro Hx; [discriminate|contradiction]|].
      destruct (Rgt_dec v 8); split; intro Hx; try discriminate; contradiction.
    + rewrite (@volatility_annualized returns) by lia.
      fold (PerformanceAnalyzer.np_std_ddof1 returns). unfold v. Lra.nra.
    + exists m. split; [exact Hin|]. split; [exact Hmin|reflexivity].
    + lra.
    + destruct (Rgt_dec v 50) as [G50|G50]; destruct (Rgt_dec v 30) as [G30|G30];
        try (exfalso; Lra.lra);
        try (destruct (Rgt_dec v 15) as [G15|G15]; try (exfalso; Lra.lra);
             destruct (Rgt_dec v 8) as [G8|G8]; try (exfalso; Lra.lra));
        repeat split; intro Hx; try reflexivity; try discriminate;
        try (left; reflexivity); try (right; reflexivity);
        try (destruct Hx; discriminate).
Qed.

Lemma risk_profile_consistent_witness :
  let returns := [1 # 100; -2 # 100; 3 # 100; 0; 1 # 100;
                  -1 # 100; 2 # 100; 0; 1 # 100; -3 # 100] in
  exists p,
    RiskAnalyzer.assess_risk_profile returns = Ok (RiskAnalyzer.Profile p) /\
    RiskAnalyzer.maximum_loss p <= RiskAnalyzer.var_95 p /\
    (RiskAnalyzer.risk_score p <= 10)%R.
Proof.
  cbv zeta.
  destruct (risk_profile_consistent
              [1 # 100; -2 # 100; 3 # 100; 0; 1 # 100;
               -1 # 100; 2 # 100; 0; 1 # 100; -3 # 100]) as [_ H].
  destruct H as [p [E [_ [Hs [_ [_ [_ [Hl _]]]]]]]]; [simpl; lia|].
  exists p. split; [exact E|]. split; [exact Hl|exact Hs].
Defined.

(** ** Portfolio metrics *)

Section MetricsFacts.
Import Portfolio.

Lemma total_return_returns (P : list Q) :
  exists T, PerformanceAnalyzer.calculate_total_return P = Ok T.
Proof.
  unfold PerformanceAnalyzer.calculate_total_return.
  destruct (length P <? 2)%nat eqn:E; [exists 0; reflexivity|].
  apply Nat.ltb_ge in E.
  destruct P as [|a t]; [simpl in E; lia|].
  cbn [getitem nth_error bind].
  destruct (Qeq_bool a 0) eqn:Ea; [exists 0; reflexivity|].
  rewrite (@getlast_last _ (a :: t) 0) by discriminate. cbn [bind].
  unfold truediv. rewrite Ea. cbn [bind]. eexists. reflexivity.
Qed.

Lemma max_value_spec (rest : dict Q) (first : string * Q) :
  let best := fold_left (fun best kv => if Qltb (snd best) (snd kv) then kv else best)
                        rest first in
  In best (first :: rest) /\
  forall kv, In kv (first :: rest) -> snd kv <= snd best.
Proof.
  revert first. induction rest as [|kv rest IH]; intro first; cbv zeta.
  - cbn [fold_left]. split; [left; reflexivity|].
    intros kv [<-|[]]. apply Qle_refl.
  - cbn [fold_left].
    destruct (Qltb (snd first) (snd kv)) eqn:E.
    + apply Qltb_lt in E. destruct (IH kv) as [Hin Hmax].
      split; [right; exact Hin|].
      intros kv' [<-|Hin'].
      * pose proof (Hmax kv (or_introl eq_refl)). lra.
      * apply Hmax. exact Hin'.
    + apply Qltb_le in E. destruct (IH first) as [Hin Hmax].
      split.
      * destruct Hin as [Hin|Hin]; [left; exact Hin|right; right; exact Hin].
      * intros kv' [<-|[<-|Hin']].
        -- apply Hmax. left. reflexivity.
        -- pose proof (Hmax first (or_introl eq_refl)). lra.
        -- apply Hmax. right. exact Hin'.
Qed.

(** Among non-negative numbers that add up to at most 100, at most four are
    above 20. *)
Lemma above_20_sum (l : dict Q) :
  (forall kv, In kv l -> 0 <= snd kv) ->
  let n := length (filter (fun kv => Qgtb (snd kv) 20) l) in
  Qnat n * 20 <= Qsum (map snd l) /\
  ((1 <= n)%nat -> Qnat n * 20 < Qsum (map snd l)).
Proof.
  induction l as [|kv l IH]; intro Hpos; cbv zeta.
  - cbn [filter length map Qsum fold_right]. unfold Qnat.
    change (inject_Z (Z.of_nat 0)) with 0. split; [lra|intro; lia].
  - destruct IH as [IH1 IH2]; [intros kv' Hkv'; apply Hpos; right; exact Hkv'|].
    pose proof (Hpos kv (or_introl eq_refl)) as Hkv.
    cbn [filter map Qsum fold_right]. unfold Qsum in *.
    destruct (Qgtb (snd kv) 20) eqn:E.
    + apply Qgtb_lt in E. cbn [length].
      set (n := length (filter (fun kv => Qgtb (snd kv) 20) l)) in *.
      assert (En : Qnat (S n) == 1 + Qnat n).
      { unfold Qnat. rewrite Nat2Z.inj_succ, <- Z.add_1_l.
        rewrite inject_Z_plus. reflexivity. }
      rewrite En. split; [lra|intros _; lra].
    + apply Qgtb_le in E. split; [lra|].
      intro Hn. pose proof (IH2 Hn). lra.
Qed.

Lemma at_most_four_above_20 (l : dict Q) :
  (forall kv, In kv l -> 0 <= snd kv) -> Qsum (map snd l) <= 100 ->
  (length (filter (fun kv => Qgtb (snd kv) 20) l) <= 4)%nat.
Proof.
  intros Hpos Hsum. destruct (above_20_sum l Hpos) as [_ H].
  destruct (le_lt_dec (length (filter (fun kv => Qgtb (snd kv) 20) l)) 4) as [Hle|Hgt];
    [exact Hle|].
  exfalso.
  assert (Hn : (1 <= length (filter (fun kv => Qgtb (snd kv) 20) l))%nat) by lia.
  pose proof (H Hn) as Hlt.
  assert (H5 : 5 <= Qnat (length (filter (fun kv => Qgtb (snd kv) 20) l))).
  { unfold Qnat. change 5 with (inject_Z 5). rewrite <- Zle_Qle. lia. }
  lra.
Qed.

Lemma member_below_sum (l : dict Q) (kv : string * Q) :
  (forall kv, In kv l -> 0 <= snd kv) -> In kv l -> snd kv <= Qsum (map snd l).
Proof.
  induction l as [|x l IH]; intros Hpos Hin; [destruct Hin|].
  cbn [map Qsum fold_right].
  assert (Hrest : 0 <= Qsum (map snd l)).
  { apply Qsum_nonneg. intros y Hy. apply in_map_iff in Hy.
    destruct Hy as [kv' [<- Hkv']]. apply Hpos. right. exact Hkv'. }
  pose proof (Hpos x (or_introl eq_refl)) as Hx.
  unfold Qsum in *.
  destruct Hin as [<-|Hin]; [lra|].
  assert (snd kv <= fold_right Qplus 0 (map snd l)).
  { apply IH; [intros kv' Hkv'; apply Hpos; right; exact Hkv'|exact Hin]. }
  lra.
Qed.

Variable positions : list PortfolioPosition.
Variable current_prices : dict Q.
Variable historical_data : dict (list Q).

Hypothesis distinct : NoDup (map symbol positions).
Hypothesis valid : Forall (fun p => position_valid p = true) positions.
Hypothesis prices_nonneg : forall s p, dict_get current_prices s = Some p -> 0 <= p.

Lemma position_value_nonneg (p : PortfolioPosition) :
  In p positions -> 0 <= position_value current_prices p.
Proof.
  intro Hp. rewrite Forall_forall in valid. pose proof (valid p Hp) as H.
  unfold position_valid in H. apply andb_true_iff in H. destruct H as [H1 H2].
  apply Qltb_lt in H1. apply Qltb_lt in H2.
  unfold position_value.
  destruct (dict_get current_prices (symbol p)) as [c|] eqn:E.
  - pose proof (prices_nonneg _ E). nra.
  - nra.
Qed.

(** The allocations under the standing assumptions: non-negative, and they
    add up to at most 100. *)
Lemma allocations_shape :
  current_values positions current_prices
  = map (fun p => (symbol p, position_value current_prices p)) positions /\
  (forall kv, In kv (allocations positions current_prices) -> 0 <= snd kv) /\
  Qsum (map snd (allocations positions current_prices)) <= 100.
Proof.
  destruct (@valuation_loop current_prices positions [] 0 distinct) as [H1 H2].
  { intros p _ []. }
  cbv zeta in H1, H2.
  change (fold_left _ positions ([], 0))
    with (valuation positions current_prices) in H1, H2.
  cbn [app] in H1.
  assert (Hcv : current_values positions current_prices
                = map (fun p => (symbol p, position_value current_prices p)) positions)
    by exact H1.
  split; [exact Hcv|].
  assert (Htot : total_value positions current_prices
                 == Qsum (map (position_value current_prices) positions)).
  { unfold total_value. rewrite H2. ring. }
  unfold allocations. rewrite Hcv.
  destruct (Qltb 0 (total_value positions current_prices)) eqn:E.
  - apply Qltb_lt in E. split.
    + intros kv Hkv. apply in_map_iff in Hkv. destruct Hkv as [[s v] [<- Hin]].
      cbn [fst snd]. apply in_map_iff in Hin. destruct Hin as [p [Ep Hp]].
      injection Ep as _ <-.
      pose proof (position_value_nonneg p Hp) as Hv.
      assert (0 <= position_value current_prices p
                   / total_value positions current_prices)
        by (apply Qle_shift_div_l; lra).
      lra.
    + rewrite (@Qsum_scaled _ (fun v => v / total_value positions current_prices * 100)
                 (100 / total_value positions current_prices)).
      * rewrite map_map. cbn [snd].
        assert (HS : Qsum (map (fun x => position_value current_prices x) positions)
                     == total_value positions current_prices)
          by (rewrite Htot; reflexivity).
        rewrite HS.
        assert (Hq : total_value positions current_prices
                     * (100 / total_value positions current_prices) == 100)
          by (field; intro H0; lra).
        rewrite Hq. apply Qle_refl.
      * intro v. field. intro H0. lra.
  - split.
    + intros kv Hkv. apply in_map_iff in Hkv. destruct Hkv as [[s v] [<- _]].
      cbn [snd]. lra.
    + rewrite (@Qsum_scaled _ (fun _ => 0) 0) by (intro v; ring).
      lra.
Qed.

End MetricsFacts.

Section PerformanceBlock.
Import Portfolio.
Variable positions : list PortfolioPosition.
Variable historical_data : dict (list Q).

Lemma inner_loop_positive (w : string -> Q) (i : nat)
      (ps : list PortfolioPosition) (pv v : Q) :
  (forall p, In p ps -> 0 < w (symbol p)) ->
  (forall s data, dict_get historical_data s = Some data ->
                  Forall (fun c => 0 < c) data) ->
  for_in ps
    (fun position portfolio_value =>
       match dict_get historical_data (symbol position) with
       | Some data =>
           price <- getitem data i ;;
           Ok (portfolio_value + w (symbol position) * price)
       | None => Ok portfolio_value
       end) pv = Ok v ->
  pv <= v /\
  ((exists p, In p ps /\ dict_get historical_data (symbol p) <> None) -> pv < v).
Proof.
  revert pv. induction ps as [|p ps IH]; intros pv Hw Hd Hv.
  - cbn [for_in] in Hv. injection Hv as <-. split; [apply Qle_refl|].
    intros [p [[] _]].
  - cbn [for_in] in Hv.
    destruct (dict_get historical_data (symbol p)) as [data|] eqn:E.
    + destruct (getitem data i) as [x|e] eqn:G; [|discriminate].
      assert (Hx : 0 < x).
      { pose proof (Hd _ _ E) as Hpos. rewrite Forall_forall in Hpos. apply Hpos.
        unfold getitem in G. destruct (nth_error data i) as [x'|] eqn:N; [|discriminate].
        injection G as <-. eapply nth_error_In. exact N. }
      cbn [bind] in Hv.
      destruct (IH (pv + w (symbol p) * x)
                   (fun p' Hp' => Hw p' (or_intror Hp')) Hd Hv) as [H1 _].
      pose proof (Hw p (or_introl eq_refl)) as Hwp.
      assert (0 < w (symbol p) * x) by nra.
      split; [lra|intros _; lra].
    + cbn [bind] in Hv.
      destruct (IH pv (fun p' Hp' => Hw p' (or_intror Hp')) Hd Hv) as [H1 H2].
      split; [exact H1|].
      intros [p' [[<-|Hp'] Hheld]]; [congruence|].
      apply H2. exists p'. split; assumption.
Qed.

Hypothesis distinct : NoDup (map symbol positions).
Hypothesis valid : Forall (fun p => position_valid p = true) positions.
Hypothesis closes_positive :
  forall s data, dict_get historical_data s = Some data -> Forall (fun c => 0 < c) data.
Hypothesis history_is_held :
  historical_data <> [] ->
  exists p, In p positions /\ dict_get historical_data (symbol p) <> None.

(** Under the standing assumptions the performance block never raises. *)
Lemma performance_block_returns :
  exists perf, portfolio_performance_of positions historical_data = Ok perf.
Proof.
  unfold portfolio_performance_of.
  destruct historical_data as [|h0 hrest] eqn:Eh; [exists None; reflexivity|].
  rewrite <- Eh in *.
  destruct history_is_held as [p0 [Hp0 Hheld]]; [rewrite Eh; discriminate|].
  assert (Hne : positions <> []) by (intro E; rewrite E in Hp0; destruct Hp0).
  assert (Hl : history_lengths positions historical_data <> []).
  { destruct (dict_get historical_data (symbol p0)) as [data|] eqn:E; [|congruence].
    intro Hnil.
    assert (Hin : In (length data) (history_lengths positions historical_data)).
    { apply history_lengths_In. exists p0, data. repeat split; assumption. }
    rewrite Hnil in Hin. destruct Hin. }
  destruct (@portfolio_returns_run positions historical_data Hl)
    as [m [values [_ [_ [E [_ HP]]]]]].
  rewrite E. cbn [bind].
  assert (Hpos : Forall (fun c => 0 < c) values).
  { apply HP. intros i v _ Hv.
    destruct (@weights_shares positions Hne distinct valid) as [Hget _].
    destruct (@initial_value_positive positions Hne valid) as [Htot Hqc].
    unfold portfolio_value_at in Hv.
    destruct (@inner_loop_positive
                (fun s => get_default (weights positions) s 0) i positions 0 v)
      as [_ H]; [|exact closes_positive|exact Hv|].
    - intros p Hp. cbv beta. rewrite (Hget p Hp).
      apply Qlt_shift_div_l; [exact Htot|]. pose proof (Hqc p Hp). lra.
    - apply H. exists p0. split; assumption. }
  destruct values as [|v0 vs]; [exists None; reflexivity|].
  destruct (total_return_returns (v0 :: vs)) as [T ET]. rewrite ET. cbn [bind].
  rewrite calculate_returns_simple. cbn [bind].
  destruct (max_drawdown_positive_ok Hpos) as [dd [Edd _]]. rewrite Edd. cbn [bind].
  eexists. reflexivity.
Qed.

End PerformanceBlock.

(** X28: for valid positions with pairwise distinct symbols, non-negative
    quotes, positive closes, and a history that is non-empty only if it
    covers some position, [calculate_portfolio_metrics] returns without an
    exception.  In the result the allocations are non-negative, none is
    above the largest one, which is at most 100 and belongs to the largest
    position; the concentration count is at most 4; and when no position
    has a quote, so that every position is valued at cost, the unrealised
    profit is 0. *)
Theorem portfolio_metrics_statistics
    (positions : list Portfolio.PortfolioPosition)
    (current_prices : dict Q) (historical_data : dict (list Q)) :
  NoDup (map Portfolio.symbol positions) ->
  Forall (fun p => Portfolio.position_valid p = true) positions ->
  (forall s p, dict_get current_prices s = Some p -> 0 <= p) ->
  (forall s data, dict_get historical_data s = Some data ->
                  Forall (fun c => 0 < c) data) ->
  (historical_data <> [] ->
   exists p, In p positions /\ dict_get historical_data (Portfolio.symbol p) <> None) ->
  exists m,
    Portfolio.calculate_portfolio_metrics positions current_prices historical_data
    = Ok m /\
    Portfolio.number_of_positions (Portfolio.statistics m) = length positions /\
    keys (Portfolio.metrics_allocations m) = map Portfolio.symbol positions /\
    (forall kv, In kv (Portfolio.metrics_allocations m) ->
       0 <= snd kv /\
       snd kv <= Portfolio.largest_allocation (Portfolio.statistics m)) /\
    Portfolio.largest_allocation (Portfolio.statistics m) <= 100 /\
    (Portfolio.concentration_risk (Portfolio.statistics m) <= 4)%nat /\
    (positions <> [] ->
     exists s, Portfolio.largest_position (Portfolio.statistics m) = Some s /\
               In (s, Portfolio.largest_allocation (Portfolio.statistics m))
                  (Portfolio.metrics_allocations m)) /\
    ((forall p, In p positions -> dict_get current_prices (Portfolio.symbol p) = None) ->
     Portfolio.unrealized_pnl m == 0 /\ Portfolio.unrealized_pnl_percent m == 0).
Proof.
  intros Hnd Hvalid Hprices Hcloses Hheld.
  destruct (@performance_block_returns positions historical_data
              Hnd Hvalid Hcloses Hheld) as [perf Eperf].
  destruct (@allocations_shape positions current_prices Hnd Hvalid Hprices)
    as [Hcv [Hpos Hsum]].
  unfold Portfolio.calculate_portfolio_metrics. cbv zeta.
  rewrite Eperf. cbn [bind]. eexists. split; [reflexivity|].
  cbn [Portfolio.statistics Portfolio.number_of_positions
       Portfolio.metrics_allocations Portfolio.largest_allocation
       Portfolio.concentration_risk Portfolio.largest_position
       Portfolio.unrealized_pnl Portfolio.unrealized_pnl_percent].
  set (allocs := Portfolio.allocations positions current_prices) in *.
  assert (Hkeys : keys allocs = map Portfolio.symbol positions).
  { unfold allocs, Portfolio.allocations, keys. rewrite Hcv, !map_map. reflexivity. }
  split; [reflexivity|]. split; [exact Hkeys|].
  assert (Hmax : forall kv, In kv allocs ->
            snd kv <= match Portfolio.max_by_value allocs with
                      | Some best => snd best
                      | None => 0
                      end).
  { intros kv Hkv. destruct allocs as [|first rest]; [destruct Hkv|].
    cbn [Portfolio.max_by_value].
    exact (proj2 (max_value_spec rest first) kv Hkv). }
  split; [intros kv Hkv; split; [apply Hpos; exact Hkv|apply Hmax; exact Hkv]|].
  split.
  { destruct allocs as [|first rest] eqn:Ea; [cbn [Portfolio.max_by_value]; lra|].
    cbn [Portfolio.max_by_value].
    destruct (max_value_spec rest first) as [Hin _].
    pose proof (@member_below_sum (first :: rest) _ Hpos Hin). lra. }
  split; [apply at_most_four_above_20; assumption|].
  split.
  - intro Hne.
    destruct allocs as [|first rest] eqn:Ea.
    { exfalso. apply Hne. destruct positions; [reflexivity|discriminate Hkeys]. }
    cbn [Portfolio.max_by_value option_map].
    destruct (max_value_spec rest first) as [Hin _].
    eexists. split; [reflexivity|].
    rewrite <- surjective_pairing. exact Hin.
  - intro Hnone.
    assert (Hv : forall p, In p positions ->
              Portfolio.position_value current_prices p
              == Portfolio.quantity p * Portfolio.avg_cost p).
    { intros p Hp. unfold Portfolio.position_value. rewrite (Hnone p Hp). reflexivity. }
    destruct (@valuation_loop current_prices positions [] 0 Hnd) as [_ H2].
    { intros p _ []. }
    cbv zeta in H2.
    change (fold_left _ positions ([], 0))
      with (Portfolio.valuation positions current_prices) in H2.
    assert (Hpnl : Portfolio.total_value positions current_prices
                   - Portfolio.py_sum (map (fun pos => Portfolio.quantity pos
                                                        * Portfolio.avg_cost pos)
                                           positions) == 0).
    { unfold Portfolio.total_value. rewrite H2, py_sum_Qsum.
      rewrite (Qsum_map_ext_In _ _ positions Hv). ring. }
    split; [exact Hpnl|].
    destruct (Qgtb _ 0); [|reflexivity].
    rewrite Hpnl. unfold Qdiv. ring.
Qed.

Lemma portfolio_metrics_statistics_witness :
  let positions :=
    [ {| Portfolio.symbol := "BTC"; Portfolio.quantity := 2; Portfolio.avg_cost := 100 |};
      {| Portfolio.symbol := "ETH"; Portfolio.quantity := 5; Portfolio.avg_cost := 10 |} ] in
  exists m,
    Portfolio.calculate_portfolio_metrics
      positions [("BTC"%string, 150)] [("BTC"%string, [100; 110; 120])] = Ok m /\
    Portfolio.largest_allocation (Portfolio.statistics m) <= 100 /\
    (Portfolio.concentration_risk (Portfolio.statistics m) <= 4)%nat.
Proof.
  cbv zeta.
  destruct (@portfolio_metrics_statistics
    [ {| Portfolio.symbol := "BTC"; Portfolio.quantity := 2; Portfolio.avg_cost := 100 |};
      {| Portfolio.symbol := "ETH"; Portfolio.quantity := 5; Portfolio.avg_cost := 10 |} ]
    [("BTC"%string, 150)] [("BTC"%string, [100; 110; 120])])
    as [m [E [_ [_ [_ [Hl [Hc _]]]]]]].
  - repeat constructor; simpl; intuition discriminate.
  - repeat constructor.
  - intros s p H. cbn [dict_get] in H.
    destruct (String.eqb s "BTC"); [injection H as <-; discriminate|discriminate].
  - intros s data H. cbn [dict_get] in H.
    destruct (String.eqb s "BTC"); [injection H as <-|discriminate].
    repeat constructor.
  - intros _. eexists. split; [left; reflexivity|]. discriminate.
  - exists m. split; [exact E|]. split; [exact Hl|exact Hc].
Defined.

(** A position list of five equal positions shows the bound of four is
    about shares above 20%, not at 20%. *)
Example portfolio_metrics_five_equal :
  let position s :=
    {| Portfolio.symbol := s; Portfolio.quantity := 1; Portfolio.avg_cost := 10 |} in
  exists m,
    Portfolio.calculate_portfolio_metrics
      [position "A"; position "B"; position "C"; position "D"; position "E"]%string
      [] [] = Ok m /\
    Portfolio.concentration_risk (Portfolio.statistics m) = 0%nat /\
    Portfolio.largest_position (Portfolio.statistics m) = Some "A"%string.
Proof. cbv zeta. eexists. split; [reflexivity|]. split; reflexivity. Qed.

(** ** Bollinger bands and the combined signals *)

Section BollingerFacts.
Import TechnicalAnalyzer.

Lemma rolling_std_length (period : nat) (close : list Q) :
  length (rolling_std period close) = length close.
Proof. unfold rolling_std. rewrite length_map, length_seq. reflexivity. Qed.

Lemma rolling_std_last_entry (period : nat) (close : list Q) :
  close <> [] ->
  last (rolling_std period close) None
  = if (period <? 2)%nat || (length close <? period)%nat then None
    else Some (R_sqrt.sqrt
                 (Q2R (np_var_ddof1 (firstn period (skipn (length close - period) close))))).
Proof.
  intro Hne. unfold rolling_std.
  destruct (length close) as [|n] eqn:En; [destruct close; [congruence|discriminate]|].
  rewrite seq_S, map_app. cbn [map]. rewrite last_last. cbn [plus].
  replace (n + 1)%nat with (S n) by lia. reflexivity.
Qed.

(** The current bands: both are numbers exactly when the window is full and
    holds at least two closes, and then they lie at equal distances around
    the mean of the window. *)
Lemma current_bands (close : list Q) (period : nat) (std_dev : Z) :
  close <> [] ->
  let sma := rolling_mean period (map Fin close) in
  let std := rolling_std period close in
  (((period < 2)%nat \/ (length close < period)%nat) /\
   last (upper_of std_dev sma std) None = None /\
   last (lower_of std_dev sma std) None = None) \/
  ((2 <= period)%nat /\ (period <= length close)%nat /\
   exists s, (0 <= s)%R /\
     last sma NaN = Fin (np_mean (skipn (length close - period) close)) /\
     last (upper_of std_dev sma std) None
     = Some (Q2R (np_mean (skipn (length close - period) close)) + s * IZR std_dev)%R /\
     last (lower_of std_dev sma std) None
     = Some (Q2R (np_mean (skipn (length close - period) close)) - s * IZR std_dev)%R).
Proof.
  intro Hne. cbv zeta.
  assert (Hne' : map Fin close <> []) by (destruct close; [congruence|discriminate]).
  assert (Hlen : length (rolling_mean period (map Fin close))
                 = length (rolling_std period close))
    by (rewrite rolling_mean_length, rolling_std_length, length_map; reflexivity).
  assert (Hsma : rolling_mean period (map Fin close) <> []).
  { intro E. apply (f_equal (@length fl)) in E.
    rewrite rolling_mean_length, length_map in E. destruct close; [congruence|discriminate]. }
  assert (Hc : combine (rolling_mean period (map Fin close)) (rolling_std period close)
               <> []).
  { destruct (rolling_mean period (map Fin close)); [congruence|].
    destruct (rolling_std period close); [discriminate|discriminate]. }
  unfold upper_of, lower_of.
  rewrite (@last_map_ne _ _ _ _ (NaN, None) None Hc).
  rewrite (@last_map_ne _ _ _ _ (NaN, None) None Hc).
  rewrite (@last_combine_ne _ _ _ _ NaN None (NaN, None) Hlen Hsma).
  rewrite (rolling_mean_last_entry period Hne'), length_map.
  rewrite (rolling_std_last_entry period Hne).
  destruct (le_lt_dec 2 period) as [Hp|Hp].
  - destruct (le_lt_dec period (length close)) as [Hl|Hl].
    + right. split; [exact Hp|]. split; [exact Hl|].
      assert (E0 : (period =? 0)%nat = false) by (apply Nat.eqb_neq; lia).
      assert (E1 : (period <? 2)%nat = false) by (apply Nat.ltb_ge; lia).
      assert (E2 : (length close <? period)%nat = false) by (apply Nat.ltb_ge; lia).
      rewrite E0, E1, E2. cbn [orb].
      rewrite (last_window close Hl), window_mean_Fin.
      eexists. split; [apply sqrt_pos|]. repeat split; reflexivity.
    + left. split; [right; exact Hl|].
      assert (E2 : (length close <? period)%nat = true) by (apply Nat.ltb_lt; lia).
      rewrite E2, !orb_true_r. split; reflexivity.
  - left. split; [left; exact Hp|].
    assert (E1 : (period <? 2)%nat = true) by (apply Nat.ltb_lt; lia).
    rewrite E1. cbn [orb].
    destruct ((period =? 0)%nat || (length close <? period)%nat); [split; reflexivity|].
    destruct (window_mean _); split; reflexivity.
Qed.

End BollingerFacts.

(** X29: [calculate_bollinger_bands] raises [IndexError] on an empty close
    series.  Otherwise, for a non-negative band width factor, it returns
    three bands of the length of the close series.  With a window below 2 or
    fewer closes than the window the current bands are NaN and the signal is
    "neutral".  With a full window of at least two closes the current bands
    lie at equal distances below and above the mean of the window, the
    signal is "overbought" exactly when the last close is above the upper
    band and "oversold" exactly when it is below the lower band, and so an
    "overbought" close is above the mean and an "oversold" one below it. *)
Theorem bollinger_signal_sides (close : list Q) (period : nat) (std_dev : Z) :
  (close = [] ->
   TechnicalAnalyzer.calculate_bollinger_bands close period std_dev = Raise IndexError) /\
  (close <> [] -> (0 <= std_dev)%Z ->
   exists r,
     TechnicalAnalyzer.calculate_bollinger_bands close period std_dev = Ok r /\
     length (TechnicalAnalyzer.upper_band r) = length close /\
     length (TechnicalAnalyzer.middle_band r) = length close /\
     length (TechnicalAnalyzer.lower_band r) = length close /\
     (((period < 2)%nat \/ (length close < period)%nat) ->
      TechnicalAnalyzer.current_upper r = None /\
      TechnicalAnalyzer.current_lower r = None /\
      TechnicalAnalyzer.bollinger_signal r = "neutral"%string) /\
     ((2 <= period)%nat /\ (period <= length close)%nat ->
      let m := np_mean (skipn (length close - period) close) in
      let price := last close 0 in
      exists u l,
        TechnicalAnalyzer.current_upper r = Some u /\
        TechnicalAnalyzer.current_lower r = Some l /\
        TechnicalAnalyzer.current_middle r = Fin m /\
        (l <= Q2R m)%R /\ (Q2R m <= u)%R /\ (u - Q2R m = Q2R m - l)%R /\
        (TechnicalAnalyzer.bollinger_signal r = "overbought"%string
         <-> (u < Q2R price)%R) /\
        (TechnicalAnalyzer.bollinger_signal r = "oversold"%string
         <-> (Q2R price < l)%R) /\
        (TechnicalAnalyzer.bollinger_signal r = "overbought"%string -> m < price) /\
        (TechnicalAnalyzer.bollinger_signal r = "oversold"%string -> price < m))).
Proof.
  split; [intros ->; reflexivity|].
  intros Hne Hk. unfold TechnicalAnalyzer.calculate_bollinger_bands. cbv zeta.
  rewrite (getlast_last 0 Hne). cbn [bind].
  eexists. split; [reflexivity|].
  cbn [TechnicalAnalyzer.upper_band TechnicalAnalyzer.middle_band
       TechnicalAnalyzer.lower_band TechnicalAnalyzer.current_upper
       TechnicalAnalyzer.current_lower TechnicalAnalyzer.current_middle
       TechnicalAnalyzer.bollinger_signal].
  assert (Hlen : length (combine (TechnicalAnalyzer.rolling_mean period (map Fin close))
                                 (TechnicalAnalyzer.rolling_std period close))
                 = length close).
  { rewrite length_combine, rolling_mean_length, rolling_std_length, length_map. lia. }
  split; [unfold TechnicalAnalyzer.upper_of; rewrite length_map; exact Hlen|].
  split; [rewrite rolling_mean_length, length_map; reflexivity|].
  split; [unfold TechnicalAnalyzer.lower_of; rewrite length_map; exact Hlen|].
  destruct (@current_bands close period std_dev Hne)
    as [[Hshort [Eu El]]|[Hp [Hl [s [Hs [Em [Eu El]]]]]]]; cbv zeta in *.
  - split.
    + intros _. rewrite Eu, El. repeat split; reflexivity.
    + intros [Hp Hl]. exfalso. lia.
  - split; [intro H; exfalso; lia|]. intros _.
    rewrite Eu, El, Em.
    set (m := np_mean (skipn (length close - period) close)) in *.
    set (price := last close 0).
    assert (Hsk : (0 <= s * IZR std_dev)%R).
    { apply Rmult_le_pos; [exact Hs|]. apply IZR_le in Hk. exact Hk. }
    set (d := (s * IZR std_dev)%R) in *.
    exists (Q2R m + d)%R, (Q2R m - d)%R.
    split; [reflexivity|]. split; [reflexivity|]. split; [reflexivity|].
    split; [Lra.lra|]. split; [Lra.lra|]. split; [Lra.lra|].
    assert (Hup : (Q2R m + d < Q2R price)%R -> m < price).
    { intro H. apply Rlt_Qlt. Lra.lra. }
    assert (Hdn : (Q2R price < Q2R m - d)%R -> price < m).
    { intro H. apply Rlt_Qlt. Lra.lra. }
    unfold TechnicalAnalyzer.above, TechnicalAnalyzer.below.
    destruct (Rgt_dec (Q2R price) (Q2R m + d)) as [G|G].
    + split; [split; intro; [exact G|reflexivity]|].
      split; [split; intro H; [discriminate|exfalso; Lra.lra]|].
      split; [intros _; apply Hup; exact G|intro H; discriminate].
    + destruct (Rlt_dec (Q2R price) (Q2R m - d)) as [L|L].
      * split; [split; intro H; [discriminate|exfalso; apply G; exact H]|].
        split; [split; intro; [exact L|reflexivity]|].
        split; [intro H; discriminate|intros _; apply Hdn; exact L].
      * split; [split; intro H; [discriminate|exfalso; apply G; exact H]|].
        split; [split; intro H; [discriminate|exfalso; apply L; exact H]|].
        split; intro H; discriminate.
Qed.

Lemma bollinger_signal_sides_witness :
  exists r,
    TechnicalAnalyzer.calculate_bollinger_bands [10; 12; 17] 2 2 = Ok r /\
    length (TechnicalAnalyzer.upper_band r) = 3%nat /\
    TechnicalAnalyzer.current_middle r = Fin (np_mean [12; 17]).
Proof.
  destruct (bollinger_signal_sides [10; 12; 17] 2 2) as [_ H].
  destruct H as [r [E [Hlen [_ [_ [_ H]]]]]]; [discriminate|lia|].
  destruct H as [u [l [_ [_ [Hm _]]]]]; [simpl; lia|].
  exists r. split; [exact E|]. split; [exact Hlen|exact Hm].
Defined.

Section SignalsFacts.
Import TechnicalAnalyzer.

Lemma In_dict_set {V : Type} (d : dict V) (k k' : string) (v v' : V) :
  In (k', v') (dict_set d k v) -> (k' = k /\ v' = v) \/ In (k', v') d.
Proof.
  induction d as [|[k0 v0] d IH]; cbn [dict_set].
  - intros [H|[]]. injection H as <- <-. left. split; reflexivity.
  - destruct (String.eqb k k0) eqn:E.
    + intros [H|H]; [injection H as <- <-; left; split; reflexivity|].
      right. right. exact H.
    + intros [H|H]; [right; left; exact H|].
      destruct (IH H) as [H'|H']; [left; exact H'|right; right; exact H'].
Qed.

Lemma dict_get_Some_In {V : Type} (d : dict V) (k : string) (v : V) :
  dict_get d k = Some v -> In (k, v) d.
Proof.
  induction d as [|[k0 v0] d IH]; cbn [dict_get]; [discriminate|].
  destruct (String.eqb k k0) eqn:E.
  - apply String.eqb_eq in E. subst k0. intro H. injection H as <-.
    left. reflexivity.
  - intro H. right. exact (IH H).
Qed.

Lemma dict_get_set_same {V : Type} (d : dict V) (k : string) (v : V) :
  dict_get (dict_set d k v) k = Some v.
Proof.
  pose proof (get_default_set_same d k v v) as H. unfold get_default in H.
  destruct (dict_get (dict_set d k v) k) as [x|] eqn:E.
  - rewrite H. reflexivity.
  - exfalso. assert (Hin : In k (keys (dict_set d k v)))
      by (apply keys_dict_set; left; reflexivity).
    destruct (dict_get_keys _ _ Hin) as [x Ex]. congruence.
Qed.

Lemma dict_get_set_other {V : Type} (d : dict V) (k x : string) (v : V) :
  x <> k -> dict_get (dict_set d k v) x = dict_get d x.
Proof.
  intro Hne. induction d as [|[k' v'] d IH]; cbn [dict_set dict_get].
  - apply String.eqb_neq in Hne. rewrite Hne. reflexivity.
  - destruct (String.eqb k k') eqn:E; cbn [dict_get].
    + apply String.eqb_eq in E. subst k'.
      apply String.eqb_neq in Hne. rewrite Hne. reflexivity.
    + destruct (String.eqb x k'); [reflexivity|exact IH].
Qed.

Lemma for_in_pure {A S : Type} (body : A -> S -> result S) (step : S -> A -> S)
      (xs : list A) (s : S) :
  (forall x s, body x s = Ok (step s x)) ->
  for_in xs body s = Ok (fold_left step xs s).
Proof.
  intro H. revert s. induction xs as [|x xs IH]; intro s; [reflexivity|].
  cbn [for_in fold_left]. rewrite H. cbn [bind]. apply IH.
Qed.

(** The loop over the indicators, seen through the verdict each name gets:
    the dict holds one entry per requested name that has a verdict. *)
Lemma verdict_loop (verdict : string -> option string)
      (indicators : list string) (init : dict string) :
  NoDup (keys init) ->
  (forall kv, In kv init -> verdict (fst kv) = Some (snd kv)) ->
  let out := fold_left (fun signals indicator =>
                          match verdict indicator with
                          | Some v => dict_set signals indicator v
                          | None => signals
                          end) indicators init in
  NoDup (keys out) /\
  (forall kv, In kv out -> verdict (fst kv) = Some (snd kv)) /\
  (forall k, In k (keys out) <->
             In k (keys init) \/ (In k indicators /\ verdict k <> None)).
Proof.
  revert init. induction indicators as [|i indicators IH]; intros init Hnd Hv; cbv zeta.
  - cbn [fold_left]. split; [exact Hnd|]. split; [exact Hv|].
    intro k. split; [intro H; left; exact H|intros [H|[[] _]]; exact H].
  - cbn [fold_left]. destruct (verdict i) as [v|] eqn:Ei.
    + destruct (IH (dict_set init i v)) as [H1 [H2 H3]].
      * apply NoDup_keys_dict_set. exact Hnd.
      * intros [k' v'] Hin. apply In_dict_set in Hin.
        destruct Hin as [[-> ->]|Hin]; [exact Ei|exact (Hv _ Hin)].
      * cbv zeta in H1, H2, H3. split; [exact H1|]. split; [exact H2|].
        intro k. rewrite H3, keys_dict_set. split.
        -- intros [[->|H]|[H Hk]].
           ++ right. split; [left; reflexivity|congruence].
           ++ left. exact H.
           ++ right. split; [right; exact H|exact Hk].
        -- intros [H|[[->|H] Hk]].
           ++ left. right. exact H.
           ++ left. left. reflexivity.
           ++ right. split; assumption.
    + destruct (IH init Hnd Hv) as [H1 [H2 H3]].
      cbv zeta in H1, H2, H3. split; [exact H1|]. split; [exact H2|].
      intro k. rewrite H3. split.
      * intros [H|[H Hk]]; [left; exact H|right; split; [right; exact H|exact Hk]].
      * intros [H|[[->|H] Hk]]; [left; exact H|congruence|right; split; assumption].
Qed.

(** Counting a verdict among the values is counting the keys that carry
    it. *)
Lemma count_by_keys (verdict : string -> option string) (which : string)
      (signals : dict string) :
  (forall kv, In kv signals -> verdict (fst kv) = Some (snd kv)) ->
  count_signal which signals
  = length (filter (fun k => match verdict k with
                             | Some v => String.eqb which v
                             | None => false
                             end) (keys signals)).
Proof.
  unfold count_signal, keys.
  induction signals as [|[k v] signals IH]; intro H; [reflexivity|].
  cbn [map filter fst snd].
  pose proof (H (k, v) (or_introl eq_refl)) as Hk0. cbn [fst snd] in Hk0.
  rewrite Hk0.
  destruct (String.eqb which v); cbn [length]; rewrite IH; try reflexivity;
    intros kv Hkv; apply H; right; exact Hkv.
Qed.

Lemma same_members_same_length {A : Type} (l1 l2 : list A) :
  NoDup l1 -> NoDup l2 -> (forall x, In x l1 <-> In x l2) -> length l1 = length l2.
Proof.
  intros H1 H2 H. apply Nat.le_antisymm.
  - apply NoDup_incl_length; [exact H1|]. intros x Hx. apply H. exact Hx.
  - apply NoDup_incl_length; [exact H2|]. intros x Hx. apply H. exact Hx.
Qed.

(** Two requests that agree on the names that carry the verdict give the
    same count. *)
Lemma count_agrees (verdict : string -> option string) (which : string)
      (voting indicators indicators' : list string) (out out' : dict string) :
  (forall k v, verdict k = Some v -> String.eqb which v = true -> In k voting) ->
  (forall k, In k voting -> (In k indicators <-> In k indicators')) ->
  NoDup (keys out) -> NoDup (keys out') ->
  (forall kv, In kv out -> verdict (fst kv) = Some (snd kv)) ->
  (forall kv, In kv out' -> verdict (fst kv) = Some (snd kv)) ->
  (forall k, In k (keys out) <-> In k indicators /\ verdict k <> None) ->
  (forall k, In k (keys out') <-> In k indicators' /\ verdict k <> None) ->
  count_signal which out = count_signal which out'.
Proof.
  intros Hvote Hagree Hnd Hnd' Hv Hv' Hk Hk'.
  rewrite (count_by_keys verdict which out Hv).
  rewrite (count_by_keys verdict which out' Hv').
  apply same_members_same_length; try (apply NoDup_filter; assumption).
  intro k. rewrite !filter_In, Hk, Hk'.
  destruct (verdict k) as [v|] eqn:E.
  - split; intros [[Hin _] Hw]; (split; [split; [|discriminate]|exact Hw]);
      apply (Hagree k (Hvote k v E Hw)); exact Hin.
  - split; intros [_ Hw]; discriminate.
Qed.

Variable close : list Q.
Hypothesis close_not_empty : close <> [].

Lemma sma_verdict (period : nat) :
  exists r, calculate_sma close period = Ok r /\
    (sma_signal r = "bullish"%string \/ sma_signal r = "bearish"%string) /\
    ((1 <= period)%nat -> (period <= length close)%nat ->
     (sma_signal r = "bullish"%string
      <-> np_mean (skipn (length close - period) close) < last close 0)).
Proof.
  unfold calculate_sma. cbv zeta.
  rewrite (getlast_last 0 close_not_empty). cbn [bind].
  eexists. split; [reflexivity|]. cbn [sma_signal]. split.
  - destruct (fgt _ _); [left|right]; reflexivity.
  - intros Hp1 Hp2.
    assert (Hne' : map Fin close <> [])
      by (destruct close; [congruence|discriminate]).
    rewrite (rolling_mean_last_entry period Hne'), length_map.
    assert (E1 : (period =? 0)%nat = false) by (apply Nat.eqb_neq; lia).
    assert (E2 : (length close <? period)%nat = false) by (apply Nat.ltb_ge; lia).
    rewrite E1, E2. cbn [orb].
    rewrite (last_window close Hp2), window_mean_Fin. cbn [fgt].
    destruct (Qltb _ _) eqn:E.
    + apply Qltb_lt in E. split; intro; [exact E|reflexivity].
    + apply Qltb_le in E. split; intro H; [discriminate|lra].
Qed.

Lemma ema_verdict (period : nat) :
  (1 <= period)%nat ->
  exists r, calculate_ema close period = Ok r.
Proof.
  intro Hp. unfold calculate_ema.
  destruct (@ewm_mean_ok period close Hp) as [out [E _]].
  rewrite E. cbn [bind]. rewrite (getlast_last 0 close_not_empty). cbn [bind].
  eexists. reflexivity.
Qed.

Lemma macd_verdict (fast slow signal : nat) :
  (1 <= fast)%nat -> (1 <= slow)%nat -> (1 <= signal)%nat ->
  exists r, calculate_macd close fast slow signal = Ok r.
Proof.
  intros Hf Hs Hg. unfold calculate_macd.
  destruct (@ewm_mean_ok fast close Hf) as [e1 [E1 _]].
  destruct (@ewm_mean_ok slow close Hs) as [e2 [E2 _]].
  rewrite E1, E2. cbn [bind].
  destruct (@ewm_mean_ok signal (series_sub e1 e2) Hg) as [e3 [E3 _]].
  rewrite E3. cbn [bind]. eexists. reflexivity.
Qed.

Lemma bollinger_verdict (period : nat) (std_dev : Z) :
  (0 <= std_dev)%Z ->
  exists r, calculate_bollinger_bands close period std_dev = Ok r /\
    (bollinger_signal r = "overbought"%string \/
     bollinger_signal r = "oversold"%string \/
     bollinger_signal r = "neutral"%string) /\
    (bollinger_signal r = "overbought"%string ->
     (2 <= period)%nat /\ (period <= length close)%nat /\
     np_mean (skipn (length close - period) close) < last close 0) /\
    (bollinger_signal r = "oversold"%string ->
     (2 <= period)%nat /\ (period <= length close)%nat /\
     last close 0 < np_mean (skipn (length close - period) close)).
Proof.
  intro Hk. unfold calculate_bollinger_bands. cbv zeta.
  rewrite (getlast_last 0 close_not_empty). cbn [bind].
  eexists. split; [reflexivity|]. cbn [bollinger_signal].
  destruct (@current_bands close period std_dev close_not_empty)
    as [[Hshort [Eu El]]|[Hp [Hl [s [Hs [Em [Eu El]]]]]]]; cbv zeta in *.
  - rewrite Eu, El. cbn [above below].
    split; [right; right; reflexivity|]. split; intro H; discriminate.
  - rewrite Eu, El.
    set (m := np_mean (skipn (length close - period) close)) in *.
    set (price := last close 0).
    assert (Hsk : (0 <= s * IZR std_dev)%R).
    { apply Rmult_le_pos; [exact Hs|]. apply IZR_le in Hk. exact Hk. }
    set (d := (s * IZR std_dev)%R) in *.
    unfold above, below.
    destruct (Rgt_dec (Q2R price) (Q2R m + d)) as [G|G].
    + split; [left; reflexivity|]. split; [|intro H; discriminate].
      intros _. split; [exact Hp|]. split; [exact Hl|]. apply Rlt_Qlt. Lra.lra.
    + destruct (Rlt_dec (Q2R price) (Q2R m - d)) as [L|L].
      * split; [right; left; reflexivity|]. split; [intro H; discriminate|].
        intros _. split; [exact Hp|]. split; [exact Hl|]. apply Rlt_Qlt. Lra.lra.
      * split; [right; right; reflexivity|]. split; intro H; discriminate.
Qed.

End SignalsFacts.

(** X30: on a non-empty close series [generate_signals] returns a dict whose
    keys are "overall" and the requested names among "sma", "ema", "rsi",
    "macd" and "bollinger"; other names are ignored.  The RSI and Bollinger
    verdicts are "overbought", "oversold" or "neutral", so they never vote:
    two requests that agree on which of "sma", "ema" and "macd" they name
    get the same overall verdict, whatever else they name and however often.
    A Bollinger "overbought" comes with a "bullish" SMA and an "oversold"
    with a "bearish" one. *)
Theorem generate_signals_overall (close : list Q) (indicators indicators' : list string) :
  close <> [] ->
  (forall k, In k ["sma"; "ema"; "macd"]%string ->
             (In k indicators <-> In k indicators')) ->
  exists signals signals' overall,
    TechnicalAnalyzer.generate_signals close indicators = Ok signals /\
    TechnicalAnalyzer.generate_signals close indicators' = Ok signals' /\
    dict_get signals "overall" = Some overall /\
    dict_get signals' "overall" = Some overall /\
    (forall k, In k (keys signals) <->
       k = "overall"%string \/
       (In k indicators /\ In k ["sma"; "ema"; "rsi"; "macd"; "bollinger"]%string)) /\
    (forall v, dict_get signals "rsi" = Some v ->
       v = "overbought"%string \/ v = "oversold"%string \/ v = "neutral"%string) /\
    (forall v, dict_get signals "bollinger" = Some v ->
       v = "overbought"%string \/ v = "oversold"%string \/ v = "neutral"%string) /\
    (dict_get signals "bollinger" = Some "overbought"%string ->
     forall v, dict_get signals "sma" = Some v -> v = "bullish"%string) /\
    (dict_get signals "bollinger" = Some "oversold"%string ->
     forall v, dict_get signals "sma" = Some v -> v = "bearish"%string).
Proof.
  intros Hne Hagree.
  destruct (@sma_verdict close Hne 20) as [r1 [E1 [Hs1 Hb1]]].
  destruct (@ema_verdict close Hne 20) as [r2 E2]; [lia|].
  destruct (@macd_verdict close 12 26 9) as [r4 E4]; [lia|lia|lia|].
  destruct (@bollinger_verdict close Hne 20 2) as [r5 [E5 [H5 [Hover Hsold]]]]; [lia|].
  set (rsi_verdict := TechnicalAnalyzer.signal (TechnicalAnalyzer.calculate_rsi close 14)).
  assert (Hrsi : rsi_verdict = "overbought"%string \/ rsi_verdict = "oversold"%string
                 \/ rsi_verdict = "neutral"%string).
  { unfold rsi_verdict. rewrite signal_of_current.
    destruct (fgt _ _); [left; reflexivity|].
    destruct (flt _ _); [right; left|right; right]; reflexivity. }
  set (verdict := fun k : string =>
         if String.eqb k "sma" then Some (TechnicalAnalyzer.sma_signal r1)
         else if String.eqb k "ema" then Some (TechnicalAnalyzer.ema_signal r2)
         else if String.eqb k "rsi" then Some rsi_verdict
         else if String.eqb k "macd" then Some (TechnicalAnalyzer.macd_signal r4)
         else if String.eqb k "bollinger"
              then Some (TechnicalAnalyzer.bollinger_signal r5)
              else None).
  set (step := fun (signals : dict string) (indicator : string) =>
         match verdict indicator with
         | Some v => dict_set signals indicator v
         | None => signals
         end).
  assert (Hnames : forall k, verdict k <> None <->
            In k ["sma"; "ema"; "rsi"; "macd"; "bollinger"]%string).
  { intro k. unfold verdict. cbn [In].
    destruct (String.eqb k "sma") eqn:Ea;
      [apply String.eqb_eq in Ea; split; [intros _; left; congruence|discriminate]|].
    destruct (String.eqb k "ema") eqn:Eb;
      [apply String.eqb_eq in Eb; split;
       [intros _; right; left; congruence|discriminate]|].
    destruct (String.eqb k "rsi") eqn:Ec;
      [apply String.eqb_eq in Ec; split;
       [intros _; right; right; left; congruence|discriminate]|].
    destruct (String.eqb k "macd") eqn:Ed;
      [apply String.eqb_eq in Ed; split;
       [intros _; right; right; right; left; congruence|discriminate]|].
    destruct (String.eqb k "bollinger") eqn:Ee;
      [apply String.eqb_eq in Ee; split;
       [intros _; right; right; right; right; left; congruence|discriminate]|].
    apply String.eqb_neq in Ea, Eb, Ec, Ed, Ee.
    split; [congruence|]. intros [H|[H|[H|[H|[H|[]]]]]]; congruence. }
  assert (Hvote : forall which, which = "bullish"%string \/ which = "bearish"%string ->
            forall k v, verdict k = Some v -> String.eqb which v = true ->
                        In k ["sma"; "ema"; "macd"]%string).
  { intros which Hwhich k v Hk Hw. apply String.eqb_eq in Hw. subst v.
    unfold verdict in Hk. cbn [In].
    destruct (String.eqb k "sma") eqn:Ea;
      [apply String.eqb_eq in Ea; left; congruence|].
    destruct (String.eqb k "ema") eqn:Eb;
      [apply String.eqb_eq in Eb; right; left; congruence|].
    destruct (String.eqb k "rsi") eqn:Ec.
    { exfalso. injection Hk as Hk.
      destruct Hwhich as [-> | ->]; destruct Hrsi as [H|[H|H]];
        rewrite H in Hk; discriminate. }
    destruct (String.eqb k "macd") eqn:Ed;
      [apply String.eqb_eq in Ed; right; right; left; congruence|].
    destruct (String.eqb k "bollinger") eqn:Ee; [|discriminate].
    exfalso. injection Hk as Hk.
    destruct Hwhich as [-> | ->]; destruct H5 as [H|[H|H]];
      rewrite H in Hk; discriminate. }
  unfold TechnicalAnalyzer.generate_signals.
  match goal with
  | |- context [for_in indicators ?b []] =>
      assert (Hloop : forall inds, for_in inds b [] = Ok (fold_left step inds []))
  end.
  { intro inds. apply for_in_pure. intros ind signals. unfold step, verdict.
    destruct (String.eqb ind "sma") eqn:Ea.
    { apply String.eqb_eq in Ea. subst ind. rewrite E1. reflexivity. }
    destruct (String.eqb ind "ema") eqn:Eb.
    { apply String.eqb_eq in Eb. subst ind. rewrite E2. reflexivity. }
    destruct (String.eqb ind "rsi") eqn:Ec.
    { apply String.eqb_eq in Ec. subst ind. reflexivity. }
    destruct (String.eqb ind "macd") eqn:Ed.
    { apply String.eqb_eq in Ed. subst ind. rewrite E4. reflexivity. }
    destruct (String.eqb ind "bollinger") eqn:Ee.
    { apply String.eqb_eq in Ee. subst ind. rewrite E5. reflexivity. }
    reflexivity. }
  rewrite (Hloop indicators), (Hloop indicators'). cbn [bind]. cbv zeta.
  destruct (@verdict_loop verdict indicators []) as [Hnd [Hv Hk]];
    [constructor|intros kv []|].
  destruct (@verdict_loop verdict indicators' []) as [Hnd' [Hv' Hk']];
    [constructor|intros kv []|].
  cbv zeta in Hnd, Hv, Hk, Hnd', Hv', Hk'.
  fold step in Hnd, Hv, Hk, Hnd', Hv', Hk'.
  set (out := fold_left step indicators []) in *.
  set (out' := fold_left step indicators' []) in *.
  assert (Hkeys : forall k, In k (keys out) <-> In k indicators /\ verdict k <> None).
  { intro k. rewrite Hk. cbn [keys map In]. tauto. }
  assert (Hkeys' : forall k, In k (keys out') <-> In k indicators' /\ verdict k <> None).
  { intro k. rewrite Hk'. cbn [keys map In]. tauto. }
  assert (Cbull : TechnicalAnalyzer.count_signal "bullish" out
                  = TechnicalAnalyzer.count_signal "bullish" out').
  { apply (@count_agrees verdict "bullish" ["sma"; "ema"; "macd"]%string
             indicators indicators'); try assumption.
    apply Hvote. left. reflexivity. }
  assert (Cbear : TechnicalAnalyzer.count_signal "bearish" out
                  = TechnicalAnalyzer.count_signal "bearish" out').
  { apply (@count_agrees verdict "bearish" ["sma"; "ema"; "macd"]%string
             indicators indicators'); try assumption.
    apply Hvote. right. reflexivity. }
  rewrite <- Cbull, <- Cbear.
  set (overall :=
         if (TechnicalAnalyzer.count_signal "bearish" out
             <? TechnicalAnalyzer.count_signal "bullish" out)%nat
         then "bullish"%string
         else if (TechnicalAnalyzer.count_signal "bullish" out
                  <? TechnicalAnalyzer.count_signal "bearish" out)%nat
              then "bearish"%string else "neutral"%string).
  exists (dict_set out "overall" overall), (dict_set out' "overall" overall), overall.
  split; [reflexivity|]. split; [reflexivity|].
  split; [apply dict_get_set_same|]. split; [apply dict_get_set_same|].
  assert (Hentry : forall k v, k <> "overall"%string ->
            dict_get (dict_set out "overall" overall) k = Some v ->
            verdict k = Some v).
  { intros k v Hko Hget. rewrite (dict_get_set_other out overall Hko) in Hget.
    apply dict_get_Some_In in Hget. exact (Hv _ Hget). }
  split.
  { intro k. rewrite keys_dict_set, Hkeys, Hnames. tauto. }
  split.
  { intros v Hget. apply Hentry in Hget; [|discriminate].
    unfold verdict in Hget. cbn in Hget. injection Hget as <-. exact Hrsi. }
  split.
  { intros v Hget. apply Hentry in Hget; [|discriminate].
    unfold verdict in Hget. cbn in Hget. injection Hget as <-. exact H5. }
  split.
  - intros Hb v Hs.
    apply Hentry in Hb; [|discriminate]. apply Hentry in Hs; [|discriminate].
    unfold verdict in Hb, Hs. cbn in Hb, Hs.
    injection Hb as Hb. injection Hs as <-.
    destruct (Hover Hb) as [Hp [Hl Hlt]].
    apply Hb1; [lia|exact Hl|exact Hlt].
  - intros Hb v Hs.
    apply Hentry in Hb; [|discriminate]. apply Hentry in Hs; [|discriminate].
    unfold verdict in Hb, Hs. cbn in Hb, Hs.
    injection Hb as Hb. injection Hs as <-.
    destruct (Hsold Hb) as [Hp [Hl Hlt]].
    destruct Hs1 as [Hbull|Hbear]; [|exact Hbear].
    exfalso. apply Hb1 in Hbull; [|lia|exact Hl]. lra.
Qed.

Lemma generate_signals_overall_witness :
  exists signals signals' overall,
    TechnicalAnalyzer.generate_signals [10; 12; 17] ["sma"; "rsi"]%string = Ok signals /\
    TechnicalAnalyzer.generate_signals [10; 12; 17] ["volume"; "sma"; "sma"]%string
    = Ok signals' /\
    dict_get signals "overall" = Some overall /\
    dict_get signals' "overall" = Some overall.
Proof.
  destruct (@generate_signals_overall [10; 12; 17] ["sma"; "rsi"]%string
              ["volume"; "sma"; "sma"]%string)
    as [signals [signals' [overall [E [E' [H [H' _]]]]]]].
  - discriminate.
  - intros k Hk. cbn [In] in *.
    destruct Hk as [<-|[<-|[<-|[]]]]; split; intro H;
      repeat (destruct H as [H|H]; try discriminate H); tauto.
  - exists signals, signals', overall. repeat split; assumption.
Defined.
